(** * SlytherNN: the snake simulator and the training-loop guards

    A shallow embedding of [snake_game/game.py] (classes [Snake], [Fruit],
    [SnakeGame]) and of the control skeleton of [train.py]
    ([optimize_model] and the main loop), followed by the properties of
    the specification that concern them; then the callers of the game
    (the evaluation loop of [evaluate.py], the event loop of [main.py]),
    the exploration rate and the checkpoint files of [train.py] and
    [main.py], with further properties of all of these.

    Conventions.
    - Python integers are unbounded: they are [Z].
    - A grid cell is a Python tuple [(x, y)]: a pair of [Z].
    - The rewards are the numbers handed to the constructor (5, -10,
      -0.01, 100 by default); they are kept as rationals [Q].  The
      observation tensor holds float32 numbers; its entries are
      modelled by the exact rationals they round.
    - A Python call either returns, raises, or (for the rejection loop of
      [Fruit.new_position]) keeps drawing: type [outcome]. *)

From Stdlib Require Import String ZArith List Finite Bool Lia QArith Qabs Qpower.
Import ListNotations.
Local Open Scope Z_scope.

(** ** Outcomes of a call *)

Inductive exn : Type :=
| ValueError
| IndexError
| ZeroDivisionError
| RuntimeError
| InsufficientDataError
| IndexOutOfRangeError.

Inductive outcome (A : Type) : Type :=
| Ret (a : A)        (* the call returns [a] *)
| Raise (e : exn)    (* the call raises *)
| Spin.              (* the call is still looping when the draws run out *)

Arguments Ret {A} a.
Arguments Raise {A} e.
Arguments Spin {A}.

Definition bind {A B : Type} (c : outcome A) (k : A -> outcome B) : outcome B :=
  match c with
  | Ret a => k a
  | Raise e => Raise e
  | Spin => Spin
  end.

Declare Scope outcome_scope.
Delimit Scope outcome_scope with outcome.
Notation "x <- c ;; k" := (bind c (fun x => k))
  (at level 61, c at next level, right associativity) : outcome_scope.
Notation "' p <- c ;; k" := (bind c (fun x => let p := x in k))
  (at level 61, p pattern, c at next level, right associativity) : outcome_scope.
Local Open Scope outcome_scope.

(** ** Cells *)

Definition pos : Type := (Z * Z)%type.

(** Python's [==] on two tuples of integers. *)
Definition pos_eqb (a b : pos) : bool :=
  (fst a =? fst b) && (snd a =? snd b).

(** Python's [p in l] for a list of tuples. *)
Fixpoint pos_in (p : pos) (l : list pos) : bool :=
  match l with
  | [] => false
  | q :: rest => pos_eqb p q || pos_in p rest
  end.

(** [0 <= x < n], as the chained comparison of Python. *)
Definition in_range (x n : Z) : bool := (0 <=? x) && (x <? n).

Definition in_grid (n : Z) (p : pos) : Prop :=
  0 <= fst p < n /\ 0 <= snd p < n.

(** Modelled from the spec: [snake_game.utils.random_position] is not part
    of the sources at hand; the specification says the fruit is placed
    "uniformly at random" on a cell of the grid.  The values that its
    successive calls return are an input of the model, and the theorems
    that need it assume that every draw is a cell of the grid. *)
Definition draws : Type := list pos.

(** ** class Snake *)

Module Snake.

Record t : Type := mk {
  grid_size : Z;
  body : list pos;
  direction : pos;
  grow : bool
}.

(** [Snake.__init__] *)
Definition init (grid_size : Z) : t :=
  mk grid_size
     [ (grid_size / 2, grid_size / 2);
       (grid_size / 2 - 1, grid_size / 2);
       (grid_size / 2 - 2, grid_size / 2) ]
     (1, 0)
     false.

(** [Snake.move]: [self.body[0]] raises on an empty list, and
    [self.body[:-1]] is the list without its last element. *)
Definition move (self : t) : outcome t :=
  match body self with
  | [] => Raise IndexError
  | (head_x, head_y) :: _ =>
      let '(dx, dy) := direction self in
      let new_head := (head_x + dx, head_y + dy) in
      if grow self
      then Ret (mk (grid_size self) (new_head :: body self)
                   (direction self) false)
      else Ret (mk (grid_size self) (new_head :: removelast (body self))
                   (direction self) (grow self))
  end.

(** [Snake.set_direction] *)
Definition set_direction (dir_tuple : pos) (self : t) : t :=
  let '(dx, dy) := dir_tuple in
  if pos_eqb (dx, dy) (- fst (direction self), - snd (direction self))
  then self
  else mk (grid_size self) (body self) dir_tuple (grow self).

(** [Snake.grow_snake] *)
Definition grow_snake (self : t) : t :=
  mk (grid_size self) (body self) (direction self) true.

(** [Snake.head] *)
Definition head (self : t) : outcome pos :=
  match body self with
  | [] => Raise IndexError
  | h :: _ => Ret h
  end.

(** [Snake.collided_with_self]: [self.body[0] in self.body[1:]] *)
Definition collided_with_self (self : t) : outcome bool :=
  match body self with
  | [] => Raise IndexError
  | h :: rest => Ret (pos_in h rest)
  end.

(** [Snake.collided_with_wall] *)
Definition collided_with_wall (self : t) : outcome bool :=
  match body self with
  | [] => Raise IndexError
  | (x, y) :: _ =>
      Ret ((x <? 0) || (y <? 0)
           || (x >=? grid_size self) || (y >=? grid_size self))
  end.

End Snake.

(** ** class Fruit *)

Module Fruit.

Record t : Type := mk {
  grid_size : Z;
  position : pos
}.

(** [Fruit.new_position]: the [while True] loop takes the next draw and
    returns it as soon as it is not a cell of the body.  The recursion
    is on the draws: when they run out the loop has not left yet. *)
Fixpoint new_position (grid_size : Z) (snake_body : list pos)
         (rnd : draws) : outcome (pos * draws) :=
  match rnd with
  | [] => Spin
  | p :: rest =>
      if negb (pos_in p snake_body)
      then Ret (p, rest)
      else new_position grid_size snake_body rest
  end.

(** [Fruit.__init__] *)
Definition init (grid_size : Z) (snake_body : list pos) (rnd : draws)
  : outcome (t * draws) :=
  '(p, rnd') <- new_position grid_size snake_body rnd ;;
  Ret (mk grid_size p, rnd').

(** [Fruit.respawn] *)
Definition respawn (snake_body : list pos) (rnd : draws) (self : t)
  : outcome (t * draws) :=
  '(p, rnd') <- new_position (grid_size self) snake_body rnd ;;
  Ret (mk (grid_size self) p, rnd').

End Fruit.

(** ** The action table *)

(** Modelled from the spec: [agent.dqn.ACTIONS] is not part of the sources
    at hand.  The specification lists the four directions in the order
    Up, Down, Left, Right, and [SnakeGame.get_state] gives their tuples in
    that order: [(0, -1)], [(0, 1)], [(-1, 0)], [(1, 0)]. *)
Definition ACTIONS : list pos := [ (0, -1); (0, 1); (-1, 0); (1, 0) ].

(** ** Tensors of [get_state] *)

Definition zeros (n : nat) : list Q := repeat 0%Q n.

Definition zeros2 (rows cols : nat) : list (list Q) :=
  repeat (zeros cols) rows.

(** [l[n] = v], for an index the caller has checked. *)
Fixpoint set_nth {A : Type} (n : nat) (v : A) (l : list A) : list A :=
  match l, n with
  | [], _ => []
  | _ :: rest, O => v :: rest
  | h :: rest, S n' => h :: set_nth n' v rest
  end.

(** [state[x, y] = v] *)
Definition set2 (x y : nat) (v : Q) (state : list (list Q))
  : list (list Q) :=
  match nth_error state x with
  | Some row => set_nth x (set_nth y v row) state
  | None => state
  end.

(** [dir_map.get(d, 0)] for the dictionary of [get_state]. *)
Definition dir_map : list (pos * nat) :=
  [ ((0, -1), 0%nat); ((0, 1), 1%nat); ((-1, 0), 2%nat); ((1, 0), 3%nat) ].

Fixpoint dict_get (m : list (pos * nat)) (k : pos) (default : nat) : nat :=
  match m with
  | [] => default
  | (k', v) :: rest => if pos_eqb k k' then v else dict_get rest k default
  end.

(** ** class SnakeGame *)

Module SnakeGame.

Record t : Type := mk {
  grid_size : Z;
  cell_size : Z;
  snake : Snake.t;
  fruit : Fruit.t;
  score : Z;
  running : bool;
  won : bool;
  mode : string;
  reward_fruit : Q;
  reward_death : Q;
  reward_step : Q;
  reward_win : Q
}.

(** Assignments to one attribute. *)
Definition set_snake (s : Snake.t) (self : t) : t :=
  mk (grid_size self) (cell_size self) s (fruit self) (score self)
     (running self) (won self) (mode self) (reward_fruit self)
     (reward_death self) (reward_step self) (reward_win self).

Definition set_fruit (f : Fruit.t) (self : t) : t :=
  mk (grid_size self) (cell_size self) (snake self) f (score self)
     (running self) (won self) (mode self) (reward_fruit self)
     (reward_death self) (reward_step self) (reward_win self).

Definition set_score (n : Z) (self : t) : t :=
  mk (grid_size self) (cell_size self) (snake self) (fruit self) n
     (running self) (won self) (mode self) (reward_fruit self)
     (reward_death self) (reward_step self) (reward_win self).

Definition set_running (b : bool) (self : t) : t :=
  mk (grid_size self) (cell_size self) (snake self) (fruit self)
     (score self) b (won self) (mode self) (reward_fruit self)
     (reward_death self) (reward_step self) (reward_win self).

Definition set_won (b : bool) (self : t) : t :=
  mk (grid_size self) (cell_size self) (snake self) (fruit self)
     (score self) (running self) b (mode self) (reward_fruit self)
     (reward_death self) (reward_step self) (reward_win self).

(** [SnakeGame.__init__] *)
Definition init (grid_size cell_size : Z) (mode : string)
           (reward_fruit reward_death reward_step reward_win : Q)
           (rnd : draws) : outcome (t * draws) :=
  let snake := Snake.init grid_size in
  '(fruit, rnd') <- Fruit.init grid_size (Snake.body snake) rnd ;;
  Ret (mk grid_size cell_size snake fruit 0 true false mode
          reward_fruit reward_death reward_step reward_win, rnd').

(** [SnakeGame.reset] *)
Definition reset (rnd : draws) (self : t) : outcome (t * draws) :=
  init (grid_size self) (cell_size self) (mode self)
       (reward_fruit self) (reward_death self) (reward_step self)
       (reward_win self) rnd.

(** [SnakeGame.check_win_condition] *)
Definition check_win_condition (self : t) : bool :=
  let current_length := Z.of_nat (length (Snake.body (snake self))) in
  let current_length :=
    if Snake.grow (snake self) then current_length + 1
    else current_length in
  current_length =? grid_size self * grid_size self.

(** The last statement of [update]:
    [if collided_with_self() or collided_with_wall(): running = False] *)
Definition check_collisions (self : t) : outcome t :=
  hit_self <- Snake.collided_with_self (snake self) ;;
  hit <- (if hit_self : bool then Ret true
          else Snake.collided_with_wall (snake self)) ;;
  if hit : bool then Ret (set_running false self) else Ret self.

(** [SnakeGame.update] *)
Definition update (rnd : draws) (self : t) : outcome (t * draws) :=
  s <- Snake.move (snake self) ;;
  let self := set_snake s self in
  h <- Snake.head (snake self) ;;
  if pos_eqb h (Fruit.position (fruit self)) then
    let self := set_snake (Snake.grow_snake (snake self)) self in
    let self := set_score (score self + 1) self in
    if check_win_condition self then
      Ret (set_running false (set_won true self), rnd)
    else
      '(f, rnd') <- Fruit.respawn (Snake.body (snake self)) rnd
                                  (fruit self) ;;
      let self := set_fruit f self in
      self <- check_collisions self ;;
      Ret (self, rnd')
  else
    self <- check_collisions self ;;
    Ret (self, rnd).

(** [SnakeGame.get_state].  [torch.zeros] refuses a negative size, the
    two writes into the grid are guarded by the range tests of the
    source, and [/] on two integers raises when the divisor is zero. *)
Definition get_state (self : t) : outcome (list Q) :=
  let n := grid_size self in
  if n <? 0 then Raise RuntimeError else
  let state := zeros2 (Z.to_nat n) (Z.to_nat n) in
  let state :=
    fold_left
      (fun st '(x, y) =>
         if in_range x n && in_range y n
         then set2 (Z.to_nat x) (Z.to_nat y) 1%Q st
         else st)
      (Snake.body (snake self)) state in
  let '(fx, fy) := Fruit.position (fruit self) in
  let state :=
    if in_range fx n && in_range fy n
    then set2 (Z.to_nat fx) (Z.to_nat fy) 2%Q state
    else state in
  let direction :=
    set_nth (dict_get dir_map (Snake.direction (snake self)) 0%nat)
            1%Q (zeros 4) in
  '(head_x, head_y) <- Snake.head (snake self) ;;
  if n - 1 =? 0 then Raise ZeroDivisionError else
  let dx := (inject_Z (fx - head_x) / inject_Z (n - 1))%Q in
  let dy := (inject_Z (fy - head_y) / inject_Z (n - 1))%Q in
  let rel_fruit := [dx; dy] in
  let flat := concat state in
  Ret (flat ++ direction ++ rel_fruit).

(** [SnakeGame.step]: returns the game after the tick, the remaining
    draws, and the tuple [(next_state, reward, done)]. *)
Definition step (rnd : draws) (action_idx : Z) (self : t)
  : outcome (t * draws * (list Q * Q * bool)) :=
  if negb (in_range action_idx (Z.of_nat (length ACTIONS))) then
    Raise ValueError
  else
    let self :=
      set_snake (Snake.set_direction
                   (nth (Z.to_nat action_idx) ACTIONS (0, 0))
                   (snake self)) self in
    let prev_score := score self in
    '(self, rnd') <- update rnd self ;;
    let '(reward, done) :=
      if negb (running self) then
        (if won self then reward_win self else reward_death self, true)
      else if score self >? prev_score then
        (reward_fruit self, false)
      else
        (reward_step self, false) in
    next_state <- get_state self ;;
    Ret (self, rnd', (next_state, reward, done)).

(** [SnakeGame.ai_step] *)
Definition ai_step (rnd : draws) (action_idx : Z) (self : t)
  : outcome (t * draws) :=
  '(self, rnd', _) <- step rnd action_idx self ;;
  Ret (self, rnd').

(** The three states of an instance, read off the two flags. *)
Inductive status : Type := Running | Died | Won.

Definition status_of (self : t) : status :=
  if won self then Won
  else if running self then Running
  else Died.

End SnakeGame.

(** A fresh default game on a [n] x [n] board. *)
Definition new_game (n : Z) (rnd : draws) : outcome (SnakeGame.t * draws) :=
  SnakeGame.init n 32 "ai" 5%Q (-10)%Q (-1 # 100)%Q 100%Q rnd.


(** ** The replay memory *)

(** Modelled from the spec: [agent.prioritized_memory] is not part of the
    sources at hand.  The specification describes a ring buffer of fixed
    capacity whose [size()] is the number of valid entries, whose [insert]
    overwrites the oldest slot once full and gives a new entry the largest
    priority present (1 when empty), whose [sample] "fails with
    InsufficientDataError if fewer than batch_size valid entries exist",
    and whose [update_priorities] stores [max(|p|, epsilon)] and fails on
    an index that is not a valid slot.  The random choice of the sampled
    slots is an input ([picks]); the importance weights only enter the
    loss, which is abstract below. *)
Module PrioritizedReplayMemory.
Section Memory.

Context {transition : Type}.

(** Modelled from the spec: the slots that hold a valid entry, each with
    its priority, and the position of the next write. *)
Record t : Type := mk {
  capacity : Z;
  epsilon : Q;
  slots : list (transition * Q);
  position : Z
}.

(** Modelled from the spec: a store without entries. *)
Definition empty (capacity : Z) : t := mk capacity (1 # 100000) [] 0.

(** Modelled from the spec: [len(memory)], the [size()] of the
    specification, is the number of valid entries. *)
Definition len (self : t) : Z := Z.of_nat (length (slots self)).

Definition qmax (a b : Q) : Q := if Qle_bool a b then b else a.

(** Modelled from the spec: the priority of a new entry. *)
Definition max_priority (self : t) : Q :=
  match slots self with
  | [] => 1%Q
  | (_, p) :: rest => fold_left (fun m e => qmax m (snd e)) rest p
  end.

(** Modelled from the spec: [insert] without a priority. *)
Definition add (tr : transition) (self : t) : t :=
  let entry := (tr, max_priority self) in
  if len self <? capacity self
  then mk (capacity self) (epsilon self) (slots self ++ [entry])
          ((position self + 1) mod capacity self)
  else mk (capacity self) (epsilon self)
          (set_nth (Z.to_nat (position self)) entry (slots self))
          ((position self + 1) mod capacity self).

(** Modelled from the spec: [sample], which fails when fewer than
    [batch_size] entries are valid and otherwise returns the entries of
    [batch_size] valid slots, with their indices. *)
Definition sample (picks : nat -> nat) (batch_size : Z) (self : t)
  : outcome (list transition * list nat) :=
  if len self <? batch_size then Raise InsufficientDataError
  else
    let idxs :=
      map (fun k => (picks k mod length (slots self))%nat)
          (seq 0 (Z.to_nat batch_size)) in
    let batch :=
      concat (map (fun i => match nth_error (slots self) i with
                            | Some e => [fst e]
                            | None => []
                            end) idxs) in
    Ret (batch, idxs).

(** Modelled from the spec: [update_priorities]. *)
Fixpoint update_priorities (idxs : list nat) (priorities : list Q)
         (self : t) : outcome t :=
  match idxs, priorities with
  | i :: idxs', p :: priorities' =>
      match nth_error (slots self) i with
      | Some (tr, _) =>
          update_priorities idxs' priorities'
            (mk (capacity self) (epsilon self)
                (set_nth i (tr, qmax (Qabs p) (epsilon self)) (slots self))
                (position self))
      | None => Raise IndexOutOfRangeError
      end
  | _, _ => Ret self
  end.

End Memory.
End PrioritizedReplayMemory.

(** ** train.py *)

Module Train.

Definition NUM_ENVS : Z := 64.
Definition NUM_EPISODES : Z := 4000.
Definition MEMORY_SIZE : Z := 100000.
Definition BATCH_SIZE : Z := 128.
Definition TARGET_UPDATE_FREQ : Z := 1000.
Definition GRAD_ACCUM_STEPS : Z := 2.
Definition EPS_START : Q := 1.
Definition EPS_END : Q := 5 # 100.
Definition EPS_DECAY : Q := 995 # 1000.

(** [max(a, b)] on two numbers: [b] when it is the larger, else [a]. *)
Definition py_max (a b : Q) : Q := if Qle_bool b a then a else b.

(** [epsilon = max(EPS_END, epsilon * EPS_DECAY)], the last but one
    statement of the loop body, with the numbers read as rationals. *)
Definition decay (epsilon : Q) : Q := py_max EPS_END (epsilon * EPS_DECAY).

(** The value of [epsilon] after [k] passes through the loop body. *)
Fixpoint epsilon_after (k : nat) : Q :=
  match k with
  | O => EPS_START
  | S k' => decay (epsilon_after k')
  end.

(** What the loop did to its collaborators, in order: every call of
    [memory.sample], with the number of valid entries at that moment, and
    every [target_net.load_state_dict(policy_net.state_dict())] of the
    loop, with the value of [step_count] at that moment. *)
Inductive event : Type :=
| Sampled (valid batch_size : Z)
| Refreshed (step_count : Z).

Section Trainer.

(** An observation vector and the parameters of a network are opaque. *)
Context {observation net : Type}.

Definition transition : Type :=
  (observation * Z * Q * observation * bool)%type.

(** The forward passes and [loss.backward()] on a batch: the policy
    network with the gradient accumulated, [loss.item()], and the
    absolute TD errors. *)
Variable backward :
  net -> net -> list transition -> net * Q * list Q.

(** [optimizer.step()] followed by [optimizer.zero_grad()]. *)
Variable optimizer_step : net -> net.

Record t : Type := mk {
  policy_net : net;
  target_net : net;
  memory : @PrioritizedReplayMemory.t transition;
  step_count : Z;
  accum_step : Z;
  accum_loss : Q;
  episode_counts : list Z;
  log : list event
}.

(** The module-level initialisation of train.py. *)
Definition init (policy : net) : t :=
  mk policy policy (PrioritizedReplayMemory.empty MEMORY_SIZE)
     0 0 0%Q (repeat 0 (Z.to_nat NUM_ENVS)) [].

(** What one tick receives from outside: the transitions of the
    [NUM_ENVS] games, their [dones] flags, and the random choices of the
    sampler. *)
Record tick_input : Type := mk_input {
  transitions : list transition;
  dones : list bool;
  picks : nat -> nat
}.

(** [optimize_model] *)
Definition optimize_model (picks : nat -> nat) (self : t)
  : outcome (option Q * t) :=
  if PrioritizedReplayMemory.len (memory self) <? BATCH_SIZE then
    Ret (None, self)
  else
    let log1 :=
      log self ++
      [Sampled (PrioritizedReplayMemory.len (memory self)) BATCH_SIZE] in
    '(batch, idxs) <-
      PrioritizedReplayMemory.sample picks BATCH_SIZE (memory self) ;;
    let '(policy, loss, td_errors) :=
      backward (policy_net self) (target_net self) batch in
    let accum_step1 := accum_step self + 1 in
    let accum_loss1 := (accum_loss self + loss)%Q in
    let '(policy, accum_step2, ret_loss, accum_loss2) :=
      if accum_step1 mod GRAD_ACCUM_STEPS =? 0
      then (optimizer_step policy, 0, Some accum_loss1, 0%Q)
      else (policy, accum_step1, None, accum_loss1) in
    memory1 <-
      PrioritizedReplayMemory.update_priorities idxs td_errors
        (memory self) ;;
    Ret (ret_loss,
         mk policy (target_net self) memory1 (step_count self)
            accum_step2 accum_loss2 (episode_counts self) log1).

(** [episode_counts[i] += 1] for every [i] with [dones[i]]. *)
Fixpoint count_done (dones : list bool) (counts : list Z) : list Z :=
  match dones, counts with
  | d :: dones', c :: counts' =>
      (if d : bool then c + 1 else c) :: count_done dones' counts'
  | _, _ => counts
  end.

(** [episode_counts.min()] *)
Definition min_count (counts : list Z) : Z :=
  match counts with
  | [] => 0
  | c :: rest => fold_left Z.min rest c
  end.

(** One pass through the body of the [while] loop of [main]. *)
Definition tick (inp : tick_input) (self : t) : outcome t :=
  (* for i in range(NUM_ENVS): memory.add(...) *)
  let memory1 :=
    fold_left (fun m tr => PrioritizedReplayMemory.add tr m)
              (transitions inp) (memory self) in
  let self :=
    mk (policy_net self) (target_net self) memory1 (step_count self)
       (accum_step self) (accum_loss self) (episode_counts self)
       (log self) in
  (* loss = optimize_model() *)
  '(_, self) <- optimize_model (picks inp) self ;;
  (* the bookkeeping of finished episodes *)
  let counts := count_done (dones inp) (episode_counts self) in
  (* if step_count % TARGET_UPDATE_FREQ == 0: refresh the target *)
  let '(target, log1) :=
    if step_count self mod TARGET_UPDATE_FREQ =? 0
    then (policy_net self, log self ++ [Refreshed (step_count self)])
    else (target_net self, log self) in
  (* step_count += NUM_ENVS *)
  Ret (mk (policy_net self) target (memory self)
          (step_count self + NUM_ENVS)
          (accum_step self) (accum_loss self) counts log1).

(** The [while episode_counts.min() < NUM_EPISODES] loop of [main], fed
    with the inputs of its successive ticks. *)
Fixpoint main (inputs : list tick_input) (self : t) : outcome t :=
  if min_count (episode_counts self) <? NUM_EPISODES then
    match inputs with
    | [] => Spin
    | inp :: rest => self' <- tick inp self ;; main rest self'
    end
  else Ret self.

(** The ticks of [main] without the loop test: what the first
    [length inputs] passes through the body do. *)
Fixpoint ticks (inputs : list tick_input) (self : t) : outcome t :=
  match inputs with
  | [] => Ret self
  | inp :: rest => self' <- tick inp self ;; ticks rest self'
  end.

End Trainer.
End Train.

(** * Notions used in the statements *)

(** The exact opposite of a direction. *)
Definition opposite (d : pos) : pos := (- fst d, - snd d).

(** The attributes no method assigns after construction. *)
Definition same_settings (g g' : SnakeGame.t) : Prop :=
  SnakeGame.grid_size g' = SnakeGame.grid_size g /\
  SnakeGame.cell_size g' = SnakeGame.cell_size g /\
  SnakeGame.mode g' = SnakeGame.mode g /\
  SnakeGame.reward_fruit g' = SnakeGame.reward_fruit g /\
  SnakeGame.reward_death g' = SnakeGame.reward_death g /\
  SnakeGame.reward_step g' = SnakeGame.reward_step g /\
  SnakeGame.reward_win g' = SnakeGame.reward_win g.

(** [collided_with_self() or collided_with_wall()] on a body whose head
    is [h]. *)
Definition hits (n : Z) (h : pos) (rest : list pos) : bool :=
  pos_in h rest
  || ((fst h <? 0) || (snd h <? 0) || (fst h >=? n) || (snd h >=? n)).

(** The three ways in which [update] returns. *)
Inductive update_path (rnd : draws) (g : SnakeGame.t)
          (g' : SnakeGame.t) (rnd' : draws) : Prop :=
| path_win (s : Snake.t) (h : pos) (rest : list pos) :
    Snake.move (SnakeGame.snake g) = Ret s ->
    Snake.body s = h :: rest ->
    h = Fruit.position (SnakeGame.fruit g) ->
    Z.of_nat (length (Snake.body s)) + 1 =
      SnakeGame.grid_size g * SnakeGame.grid_size g ->
    SnakeGame.snake g' = Snake.grow_snake s ->
    SnakeGame.fruit g' = SnakeGame.fruit g ->
    SnakeGame.score g' = SnakeGame.score g + 1 ->
    SnakeGame.running g' = false ->
    SnakeGame.won g' = true ->
    rnd' = rnd ->
    update_path rnd g g' rnd'
| path_eat (s : Snake.t) (h : pos) (rest : list pos) (f : Fruit.t) :
    Snake.move (SnakeGame.snake g) = Ret s ->
    Snake.body s = h :: rest ->
    h = Fruit.position (SnakeGame.fruit g) ->
    Z.of_nat (length (Snake.body s)) + 1 <>
      SnakeGame.grid_size g * SnakeGame.grid_size g ->
    Fruit.respawn (Snake.body s) rnd (SnakeGame.fruit g) = Ret (f, rnd') ->
    SnakeGame.snake g' = Snake.grow_snake s ->
    SnakeGame.fruit g' = f ->
    SnakeGame.score g' = SnakeGame.score g + 1 ->
    SnakeGame.running g' =
      (if hits (Snake.grid_size s) h rest then false
       else SnakeGame.running g) ->
    SnakeGame.won g' = SnakeGame.won g ->
    update_path rnd g g' rnd'
| path_move (s : Snake.t) (h : pos) (rest : list pos) :
    Snake.move (SnakeGame.snake g) = Ret s ->
    Snake.body s = h :: rest ->
    h <> Fruit.position (SnakeGame.fruit g) ->
    SnakeGame.snake g' = s ->
    SnakeGame.fruit g' = SnakeGame.fruit g ->
    SnakeGame.score g' = SnakeGame.score g ->
    SnakeGame.running g' =
      (if hits (Snake.grid_size s) h rest then false
       else SnakeGame.running g) ->
    SnakeGame.won g' = SnakeGame.won g ->
    rnd' = rnd ->
    update_path rnd g g' rnd'.

(** The game after [self.snake.set_direction(ACTIONS[action_idx])]. *)
Definition steer (action_idx : Z) (g : SnakeGame.t) : SnakeGame.t :=
  SnakeGame.set_snake
    (Snake.set_direction (nth (Z.to_nat action_idx) ACTIONS (0, 0))
                         (SnakeGame.snake g)) g.

(** The reward and the flag that [step] computes after [update]. *)
Definition payoff (prev_score : Z) (g' : SnakeGame.t) : Q * bool :=
  if negb (SnakeGame.running g') then
    (if SnakeGame.won g' then SnakeGame.reward_win g'
     else SnakeGame.reward_death g', true)
  else if SnakeGame.score g' >? prev_score then
    (SnakeGame.reward_fruit g', false)
  else
    (SnakeGame.reward_step g', false).

(** The four reward rules of a tick. *)
Inductive reward_rule : Type :=
| rule_win | rule_death | rule_fruit | rule_step.

(** When a rule applies to a tick that led from [g] to [g']: the instance
    became Won; it became Died; its score went up and it did not
    terminate; none of these. *)
Definition rule_applies (g g' : SnakeGame.t) (rl : reward_rule) : Prop :=
  match rl with
  | rule_win => SnakeGame.status_of g' = SnakeGame.Won
  | rule_death => SnakeGame.status_of g' = SnakeGame.Died
  | rule_fruit =>
      SnakeGame.score g < SnakeGame.score g' /\
      SnakeGame.status_of g' = SnakeGame.Running
  | rule_step =>
      SnakeGame.status_of g' <> SnakeGame.Won /\
      SnakeGame.status_of g' <> SnakeGame.Died /\
      ~ (SnakeGame.score g < SnakeGame.score g' /\
         SnakeGame.status_of g' = SnakeGame.Running)
  end.

(** The constant that a rule pays. *)
Definition reward_of (g : SnakeGame.t) (rl : reward_rule) : Q :=
  match rl with
  | rule_win => SnakeGame.reward_win g
  | rule_death => SnakeGame.reward_death g
  | rule_fruit => SnakeGame.reward_fruit g
  | rule_step => SnakeGame.reward_step g
  end.

(** A 4 x 4 board on which the snake covers fifteen cells and the fruit
    lies on the sixteenth, right in front of the head. *)
Definition fifteen_of_sixteen : SnakeGame.t :=
  SnakeGame.mk 4 32
    (Snake.mk 4
       [ (1, 3); (2, 3); (3, 3); (3, 2); (2, 2); (1, 2); (0, 2); (0, 1);
         (1, 1); (2, 1); (3, 1); (3, 0); (2, 0); (1, 0); (0, 0) ]
       (-1, 0) false)
    (Fruit.mk 4 (0, 3))
    12 true false "ai" 5%Q (-10)%Q (-1 # 100)%Q 100%Q.

(** The default 12 x 12 game whose first fruit was drawn on [(7, 6)], the
    cell in front of the head. *)
Definition fruit_ahead : outcome (SnakeGame.t * draws) :=
  new_game 12 [ (7, 6) ].

(** The [k]-th cell of a board of side [n], row by row. *)
Definition cell_of (n : Z) (k : nat) : pos :=
  (Z.of_nat k / n, Z.of_nat k mod n).

(** All the cells of the board. *)
Definition cells (n : Z) : list pos :=
  map (cell_of n) (seq 0 (Z.to_nat (n * n))).

(** The cells of the board that a body occupies. *)
Definition occupied (n : Z) (snake_body : list pos) : list pos :=
  filter (fun c => pos_in c snake_body) (cells n).

(** The games the callers can hold: a game comes out of the constructor
    (of [reset], which calls it), the direction is set to one of the four
    actions (the keys of the human mode, or the first statement of [step]),
    and [update] is called on games that are running only, as main.py
    and evaluate.py do and as the batched simulator of the specification
    does by resetting the instances that are done.  Every draw of
    [random_position] is a cell of the board. *)
Inductive reachable : SnakeGame.t -> Prop :=
| reach_init (n cell : Z) (mode : string) (rf rd rs rw : Q)
             (rnd rnd' : draws) (g : SnakeGame.t) :
    Forall (in_grid n) rnd ->
    SnakeGame.init n cell mode rf rd rs rw rnd = Ret (g, rnd') ->
    reachable g
| reach_turn (g : SnakeGame.t) (d : pos) :
    reachable g ->
    In d ACTIONS ->
    reachable (SnakeGame.set_snake
                 (Snake.set_direction d (SnakeGame.snake g)) g)
| reach_update (g g' : SnakeGame.t) (rnd rnd' : draws) :
    reachable g ->
    SnakeGame.running g = true ->
    Forall (in_grid (SnakeGame.grid_size g)) rnd ->
    SnakeGame.update rnd g = Ret (g', rnd') ->
    reachable g'.

(** What holds of every such game. *)
Record sound (g : SnakeGame.t) : Prop := mk_sound {
  sound_snake_size : Snake.grid_size (SnakeGame.snake g) = SnakeGame.grid_size g;
  sound_fruit_size : Fruit.grid_size (SnakeGame.fruit g) = SnakeGame.grid_size g;
  sound_size : 2 <= SnakeGame.grid_size g;
  sound_body : Snake.body (SnakeGame.snake g) <> [];
  sound_fruit : in_grid (SnakeGame.grid_size g)
                        (Fruit.position (SnakeGame.fruit g));
  sound_room :
    SnakeGame.won g = false ->
    Z.of_nat (length (Snake.body (SnakeGame.snake g))) +
    (if Snake.grow (SnakeGame.snake g) then 1 else 0) <
    SnakeGame.grid_size g * SnakeGame.grid_size g;
  sound_won : SnakeGame.won g = true -> SnakeGame.running g = false
}.

(** The values of [step_count] at which the target was refreshed, and the
    calls of [sample], read off the log. *)
Fixpoint refreshes (log : list Train.event) : list Z :=
  match log with
  | [] => []
  | Train.Refreshed c :: rest => c :: refreshes rest
  | Train.Sampled _ _ :: rest => refreshes rest
  end.

Definition sample_guarded (e : Train.event) : Prop :=
  match e with
  | Train.Sampled valid batch_size =>
      batch_size = Train.BATCH_SIZE /\ Train.BATCH_SIZE <= valid
  | Train.Refreshed _ => True
  end.

(** The values of [step_count] at the refresh test of [ticks] successive
    passes that start from [c]. *)
Fixpoint counts_from (c : Z) (ticks : nat) : list Z :=
  match ticks with
  | O => []
  | S k => c :: counts_from (c + Train.NUM_ENVS) k
  end.

Definition due (c : Z) : bool := c mod Train.TARGET_UPDATE_FREQ =? 0.

(** The grid tensor of [get_state] after its two rounds of writes. *)
Definition board (g : SnakeGame.t) : list (list Q) :=
  let n := SnakeGame.grid_size g in
  let state := zeros2 (Z.to_nat n) (Z.to_nat n) in
  let state :=
    fold_left
      (fun st '(x, y) =>
         if in_range x n && in_range y n
         then set2 (Z.to_nat x) (Z.to_nat y) 1%Q st
         else st)
      (Snake.body (SnakeGame.snake g)) state in
  let '(fx, fy) := Fruit.position (SnakeGame.fruit g) in
  if in_range fx n && in_range fy n
  then set2 (Z.to_nat fx) (Z.to_nat fy) 2%Q state
  else state.

(** The direction tensor of [get_state]. *)
Definition one_hot (g : SnakeGame.t) : list Q :=
  set_nth (dict_get dir_map (Snake.direction (SnakeGame.snake g)) 0%nat)
          1%Q (zeros 4).

(** [state[x, y]] *)
Definition get2 (state : list (list Q)) (x y : nat) : Q :=
  nth y (nth x state []) 0%Q.

(** A tensor of [rows] rows of [cols] entries. *)
Definition shaped (rows cols : nat) (state : list (list Q)) : Prop :=
  length state = rows /\ Forall (fun row => length row = cols) state.

(** The writes of one round: [1] on the cells of the body that are on the
    board. *)
Definition draw_body (n : Z) (snake_body : list pos)
           (state : list (list Q)) : list (list Q) :=
  fold_left
    (fun st '(x, y) =>
       if in_range x n && in_range y n
       then set2 (Z.to_nat x) (Z.to_nat y) 1%Q st
       else st)
    snake_body state.

(** The loop of the callers: [while game.running: game.step(action)], for
    the given actions; the results of the ticks are collected. *)
Fixpoint play (rnd : draws) (actions : list Z) (g : SnakeGame.t)
  : outcome (SnakeGame.t * draws * list (list Q * Q * bool)) :=
  match actions with
  | [] => Ret (g, rnd, [])
  | a :: rest =>
      if SnakeGame.running g then
        '(g', rnd', out) <- SnakeGame.step rnd a g ;;
        '(g'', rnd'', outs) <- play rnd' rest g' ;;
        Ret (g'', rnd'', out :: outs)
      else Ret (g, rnd, [])
  end.

(** The default 12 x 12 game whose first fruit was drawn on [(0, 6)], at
    the left end of the row of the snake. *)
Definition fruit_behind : outcome (SnakeGame.t * draws) :=
  new_game 12 [ (0, 6) ].

(** What a tick returns, and its parts. *)
Definition tick_result : Type :=
  (SnakeGame.t * draws * (list Q * Q * bool))%type.

Definition game_of (t : tick_result) : SnakeGame.t := fst (fst t).
Definition draws_of (t : tick_result) : draws := snd (fst t).
Definition obs_of (t : tick_result) : list Q := fst (fst (snd t)).
Definition reward_got (t : tick_result) : Q := snd (fst (snd t)).
Definition done_of (t : tick_result) : bool := snd (snd t).

(** The value a call returned. *)
Definition result {A : Type} (default : A) (o : outcome A) : A :=
  match o with
  | Ret a => a
  | _ => default
  end.

(** A fresh 4 x 4 game: the snake on [(2, 2)], [(1, 2)], [(0, 2)], heading
    right, the fruit on [(3, 2)]. *)
Definition small_game : SnakeGame.t :=
  SnakeGame.mk 4 32 (Snake.init 4) (Fruit.mk 4 (3, 2)) 0 true false "ai"
               5%Q (-10)%Q (-1 # 100)%Q 100%Q.

(** The value that stands for a tick that did not return. *)
Definition no_tick : tick_result := (small_game, [], ([], 0%Q, false)).

(** Right: the snake eats the fruit, which is placed again on [(0, 0)]. *)
Definition first_tick : tick_result :=
  Eval vm_compute in
    result no_tick (SnakeGame.step [ (0, 0) ] 3 small_game).

(** Then up: the body gains its fourth cell. *)
Definition second_tick : tick_result :=
  Eval vm_compute in
    result no_tick (SnakeGame.step [] 0 (game_of first_tick)).

(** Or right again: the head leaves the board. *)
Definition fatal_tick : tick_result :=
  Eval vm_compute in
    result no_tick (SnakeGame.step [] 3 (game_of first_tick)).

(** Left on the board of fifteen cells: the win. *)
Definition winning_tick : tick_result :=
  Eval vm_compute in
    result no_tick (SnakeGame.step [] 2 fifteen_of_sixteen).

(** A trainer whose networks are counters of optimizer steps, on
    observations without content. *)
Definition toy_backward (policy target : nat)
           (batch : list (@Train.transition unit)) : nat * Q * list Q :=
  (policy, 0%Q, []).

(** A tick on which the games hand over nothing. *)
Definition idle_tick : @Train.tick_input unit :=
  Train.mk_input [] [] (fun k => k).

(** A tick on which each of the 64 games hands over one transition. *)
Definition blank_transition : @Train.transition unit :=
  (tt, 0, 0%Q, tt, false).

Definition full_tick : @Train.tick_input unit :=
  Train.mk_input (repeat blank_transition 64) (repeat false 64) (fun k => k).

(** * The callers of the game *)

(** ** The keys of the human mode *)

(** A key of the human mode: [game.snake.set_direction(d)]. *)
Definition turn (d : pos) (g : SnakeGame.t) : SnakeGame.t :=
  SnakeGame.set_snake (Snake.set_direction d (SnakeGame.snake g)) g.

(** ** The greedy action *)

(** [torch.argmax] on a vector: the index of its first largest entry. *)
Fixpoint argmax_from (best_i : nat) (best : Q) (i : nat) (l : list Q)
  : nat :=
  match l with
  | [] => best_i
  | x :: rest =>
      if Qle_bool x best
      then argmax_from best_i best (S i) rest
      else argmax_from i x (S i) rest
  end.

Definition argmax (l : list Q) : nat :=
  match l with
  | [] => 0%nat
  | x :: rest => argmax_from 0 x 1 rest
  end.

(** [torch.argmax(model(state)).item()], for a network given as the
    function from the observation to its vector of values. *)
Definition greedy (model : list Q -> list Q) (state : list Q) : Z :=
  Z.of_nat (argmax (model state)).

(** ** Functions of numpy *)

(** [np.max] and [np.min] of a list of integers, which refuse an empty
    list. *)
Definition np_max (l : list Z) : outcome Z :=
  match l with
  | [] => Raise ValueError
  | x :: rest => Ret (fold_left Z.max rest x)
  end.

Definition np_min (l : list Z) : outcome Z :=
  match l with
  | [] => Raise ValueError
  | x :: rest => Ret (fold_left Z.min rest x)
  end.

(** [np.mean] of a list of integers, with the numbers read as rationals;
    [None] stands for the [nan] of an empty list. *)
Definition np_mean (l : list Z) : option Q :=
  match l with
  | [] => None
  | _ => Some (inject_Z (fold_left Z.add l 0%Z)
               / inject_Z (Z.of_nat (length l)))%Q
  end.

(** ** evaluate.py *)

Module Evaluate.
Section Evaluator.

(** The network, and the constants of the configuration module, which is
    not part of the sources at hand. *)
Variable model : list Q -> list Q.
Variable GRID_SIZE : Z.
Variable CELL_SIZE : Z.
Variable MAX_STEPS : Z.

(** [SnakeGame(grid_size=GRID_SIZE, cell_size=CELL_SIZE, mode="ai")],
    with the default rewards of the constructor. *)
Definition new_game (rnd : draws) : outcome (SnakeGame.t * draws) :=
  SnakeGame.init GRID_SIZE CELL_SIZE "ai" 5%Q (-10)%Q (-1 # 100)%Q 100%Q rnd.

(** The loop [while game.running and episode_steps < MAX_STEPS] of
    [evaluate_performance]; [fuel] bounds the number of its passes. *)
Fixpoint episode_loop (fuel : nat) (rnd : draws) (game : SnakeGame.t)
         (episode_steps : Z) : outcome (SnakeGame.t * draws * Z) :=
  if SnakeGame.running game && (episode_steps <? MAX_STEPS) then
    match fuel with
    | O => Spin
    | S fuel' =>
        state <- SnakeGame.get_state game ;;
        let action_idx := greedy model state in
        '(game', rnd') <- SnakeGame.ai_step rnd action_idx game ;;
        episode_loop fuel' rnd' game' (episode_steps + 1)
    end
  else Ret (game, rnd, episode_steps).

(** One episode of [evaluate_performance]: a new game played to its end
    or to [MAX_STEPS] ticks, for which [MAX_STEPS] passes are enough. *)
Definition run_episode (rnd : draws) : outcome (SnakeGame.t * draws * Z) :=
  '(game, rnd') <- new_game rnd ;;
  episode_loop (Z.to_nat MAX_STEPS) rnd' game 0.

(** The [for episode in range(num_episodes)] loop of
    [evaluate_performance]: the lists [scores] and [steps_list] and the
    counter [wins].  The argument is the number of passes of the loop,
    which [evaluate_performance] below derives from its integer. *)
Fixpoint evaluate_episodes (num_episodes : nat) (rnd : draws)
         (scores steps_list : list Z) (wins : Z)
  : outcome (list Z * list Z * Z * draws) :=
  match num_episodes with
  | O => Ret (scores, steps_list, wins, rnd)
  | S more =>
      '(game, rnd', episode_steps) <- run_episode rnd ;;
      evaluate_episodes more rnd'
        (scores ++ [SnakeGame.score game])
        (steps_list ++ [episode_steps])
        (if SnakeGame.won game then wins + 1 else wins)
  end.

(** The dictionary that [evaluate_performance] returns, but for
    [std_score], which is a square root. *)
Record results : Type := mk_results {
  num_episodes : Z;
  scores : list Z;
  steps : list Z;
  wins : Z;
  mean_score : option Q;
  max_score : Z;
  min_score : Z;
  mean_steps : option Q;
  win_rate : Q
}.

(** [evaluate_performance], without what it prints.  [num_episodes] is
    any integer: [range(num_episodes)] is empty when it is not
    positive. *)
Definition evaluate_performance (num_episodes : Z) (rnd : draws)
  : outcome (results * draws) :=
  '(scores, steps_list, wins, rnd') <-
    evaluate_episodes (Z.to_nat num_episodes) rnd [] [] 0 ;;
  let mean_score := np_mean scores in
  max_score <- np_max scores ;;
  min_score <- np_min scores ;;
  let mean_steps := np_mean steps_list in
  win_rate <-
    (if num_episodes =? 0 then Raise ZeroDivisionError
     else Ret (inject_Z wins / inject_Z num_episodes)%Q) ;;
  Ret (mk_results num_episodes scores steps_list wins mean_score
                  max_score min_score mean_steps win_rate, rnd').

End Evaluator.
End Evaluate.

(** ** main.py *)

Module Main.

(** The keys and the events that the loop tells apart. *)
Inductive key : Type :=
| K_ESCAPE | K_SPACE | K_UP | K_DOWN | K_LEFT | K_RIGHT | K_r | K_other.

Inductive event : Type :=
| QUIT
| KEYDOWN (k : key)
| MOVE_EVENT
| OTHER.

(** The variables of [main] that its loop changes. *)
Record t : Type := mk {
  game : SnakeGame.t;
  running : bool
}.

Definition is_escape (k : key) : bool :=
  match k with K_ESCAPE => true | _ => false end.

Definition is_r (k : key) : bool :=
  match k with K_r => true | _ => false end.

(** The direction an arrow key asks for. *)
Definition arrow (k : key) : option pos :=
  match k with
  | K_UP => Some (0, -1)
  | K_DOWN => Some (0, 1)
  | K_LEFT => Some (-1, 0)
  | K_RIGHT => Some (1, 0)
  | _ => None
  end.

Section Loop.

(** [mode], as chosen in the menu, and [ai_model], the network of the
    latest checkpoint when there is one. *)
Variable mode : string.
Variable ai_model : option (list Q -> list Q).

(** [game = SnakeGame(grid_size, cell_size, mode=mode)] and
    [running = True]. *)
Definition start (rnd : draws) : outcome (t * draws) :=
  '(g, rnd') <-
    SnakeGame.init 12 32 mode 5%Q (-10)%Q (-1 # 100)%Q 100%Q rnd ;;
  Ret (mk g true, rnd').

(** The body of [for event in pygame.event.get()]. *)
Definition on_event (ev : event) (rnd : draws) (self : t)
  : outcome (t * draws) :=
  match ev with
  | QUIT => Ret (mk (game self) false, rnd)
  | KEYDOWN k =>
      let running1 := if is_escape k then false else running self in
      let game1 :=
        if String.eqb mode "human" then
          match arrow k with
          | Some d => turn d (game self)
          | None => game self
          end
        else game self in
      if is_r k && negb (SnakeGame.running game1) then
        '(game2, rnd') <- SnakeGame.reset rnd game1 ;;
        Ret (mk game2 running1, rnd')
      else Ret (mk game1 running1, rnd)
  | MOVE_EVENT =>
      if SnakeGame.running (game self) then
        match (if String.eqb mode "ai" then ai_model else None) with
        | Some model =>
            state <- SnakeGame.get_state (game self) ;;
            '(game1, rnd') <-
              SnakeGame.ai_step rnd (greedy model state) (game self) ;;
            Ret (mk game1 (running self), rnd')
        | None =>
            '(game1, rnd') <- SnakeGame.update rnd (game self) ;;
            Ret (mk game1 (running self), rnd')
        end
      else Ret (self, rnd)
  | OTHER => Ret (self, rnd)
  end.

(** One pass through the body of [while running]: the events fetched, in
    their order. *)
Fixpoint frame (events : list event) (rnd : draws) (self : t)
  : outcome (t * draws) :=
  match events with
  | [] => Ret (self, rnd)
  | ev :: rest =>
      '(self', rnd') <- on_event ev rnd self ;;
      frame rest rnd' self'
  end.

(** [while running], fed with the events of its successive passes. *)
Fixpoint loop (frames : list (list event)) (rnd : draws) (self : t)
  : outcome (t * draws) :=
  if running self then
    match frames with
    | [] => Spin
    | events :: rest =>
        '(self', rnd') <- frame events rnd self ;;
        loop rest rnd' self'
    end
  else Ret (self, rnd).

(** [main], from the set-up of the game to the end of its loop. *)
Definition main (frames : list (list event)) (rnd : draws)
  : outcome (t * draws) :=
  '(self, rnd') <- start rnd ;;
  loop frames rnd' self.

End Loop.
End Main.

(** ** The checkpoint files of train.py and main.py *)

(** *** Methods of [str] and of [list] *)

(** [s.startswith(prefix)] *)
Definition startswith (s prefix : string) : bool := String.prefix prefix s.

(** [s.endswith(suffix)] *)
Definition endswith (s suffix : string) : bool :=
  (String.length suffix <=? String.length s)%nat
  && String.eqb (substring (String.length s - String.length suffix)
                           (String.length suffix) s)
                suffix.

(** [sub in s] *)
Fixpoint contains (sub s : string) : bool :=
  String.prefix sub s
  || match s with
     | EmptyString => false
     | String _ rest => contains sub rest
     end.

(** The parts of [s] between the occurrences of [sep], found from the
    left: [skip] characters of an occurrence are still to be passed over
    and [cur] is the part read so far. *)
Fixpoint split_from (sep : string) (skip : nat) (cur s : string)
  : list string :=
  match s with
  | EmptyString => [cur]
  | String c rest =>
      match skip with
      | S skip' => split_from sep skip' cur rest
      | O =>
          if String.prefix sep s
          then cur :: split_from sep (String.length sep - 1) EmptyString rest
          else split_from sep 0 (cur ++ String c EmptyString) rest
      end
  end.

(** [s.split(sep)], which refuses an empty separator. *)
Definition split (s sep : string) : outcome (list string) :=
  match sep with
  | EmptyString => Raise ValueError
  | _ => Ret (split_from sep 0 EmptyString s)
  end.

(** [l[i]] for an index that is not negative. *)
Definition item {A : Type} (l : list A) (i : nat) : outcome A :=
  match nth_error l i with
  | Some x => Ret x
  | None => Raise IndexError
  end.

(** [l[-1]] *)
Fixpoint last_item {A : Type} (l : list A) : outcome A :=
  match l with
  | [] => Raise IndexError
  | [x] => Ret x
  | _ :: rest => last_item rest
  end.

(** The place that a stable sort gives to [x] when it comes after the
    entries of [l]: in front of the first entry that is larger. *)
Fixpoint insert_sorted {A : Type} (lt : A -> A -> bool) (x : A)
         (l : list A) : list A :=
  match l with
  | [] => [x]
  | y :: rest =>
      if lt x y then x :: l else y :: insert_sorted lt x rest
  end.

(** [list.sort]: ascending and stable. *)
Definition sort {A : Type} (lt : A -> A -> bool) (l : list A) : list A :=
  fold_left (fun acc x => insert_sorted lt x acc) l [].

Module Files.
Section Files.

(** [int(s)]: the number that [s] denotes, if it denotes one. *)
Variable int : string -> option Z.

(** [os.path.join] *)
Variable join : string -> string -> string.

(** [int(x.split('_ep')[1].split('.pth')[0])] *)
Definition episode_of (x : string) : outcome Z :=
  parts <- split x "_ep" ;;
  part <- item parts 1 ;;
  nums <- split part ".pth" ;;
  num <- item nums 0 ;;
  match int num with
  | Some n => Ret n
  | None => Raise ValueError
  end.

(** The keys of [files.sort(key=...)], computed for every name in turn
    before anything is moved. *)
Fixpoint keys (files : list string) : outcome (list (Z * string)) :=
  match files with
  | [] => Ret []
  | f :: rest =>
      k <- episode_of f ;;
      ks <- keys rest ;;
      Ret ((k, f) :: ks)
  end.

(** [files.sort(key=...)] *)
Definition sort_by_episode (files : list string)
  : outcome (list string) :=
  keyed <- keys files ;;
  Ret (map snd (sort (fun a b => fst a <? fst b) keyed)).

(** [get_latest_checkpoint] of train.py, on the names that
    [os.listdir(checkpoint_dir)] returns. *)
Definition train_get_latest_checkpoint (checkpoint_dir : string)
           (listing : list string) : outcome (option string * Z) :=
  let files :=
    filter (fun f => endswith f ".pth"
                     && contains "dqn_snake_checkpoint_ep" f) listing in
  match files with
  | [] => Ret (None, 0)
  | _ =>
      files <- sort_by_episode files ;;
      latest <- last_item files ;;
      ep <- episode_of latest ;;
      Ret (Some (join checkpoint_dir latest), ep)
  end.

(** [get_latest_checkpoint] of main.py *)
Definition main_get_latest_checkpoint (checkpoint_dir : string)
           (listing : list string) : outcome (option string) :=
  let files := filter (fun f => endswith f ".pth") listing in
  match files with
  | [] => Ret None
  | _ =>
      files <- sort_by_episode files ;;
      latest <- last_item files ;;
      Ret (Some (join checkpoint_dir latest))
  end.

(** The order of Python on the tuples [(num, fname)]. *)
Definition tuple_lt (a b : Z * string) : bool :=
  (fst a <? fst b) || ((fst a =? fst b) && String.ltb (snd a) (snd b)).

(** The checkpoints that the clean-up after a save numbers: a name whose
    number cannot be read is passed over. *)
Definition numbered (listing : list string) : list (Z * string) :=
  let all_ckpts :=
    filter (fun f => startswith f "dqn_snake_checkpoint_ep"
                     && endswith f ".pth") listing in
  flat_map (fun fname =>
              match episode_of fname with
              | Ret num => [(num, fname)]
              | _ => []
              end) all_ckpts.

(** The names that the clean-up hands to [os.remove]: those of
    [eps[:-3]] after [eps.sort()]. *)
Definition cleanup (listing : list string) : list string :=
  let eps := sort tuple_lt (numbered listing) in
  map snd (firstn (length eps - 3) eps).

End Files.
End Files.

(** * Notions used in the further properties *)

(** Two cells that touch by a side. *)
Definition adjacent (a b : pos) : Prop :=
  Z.abs (fst a - fst b) + Z.abs (snd a - snd b) = 1.

(** A list of cells in which each cell touches the next. *)
Fixpoint chain (l : list pos) : Prop :=
  match l with
  | a :: (b :: _) as rest => adjacent a b /\ chain rest
  | _ => True
  end.

(** What holds of the snake, the fruit and the score of every game the
    callers can hold. *)
Record tidy (g : SnakeGame.t) : Prop := mk_tidy {
  tidy_direction :
    In (Snake.direction (SnakeGame.snake g)) ACTIONS;
  tidy_score :
    Z.of_nat (length (Snake.body (SnakeGame.snake g))) +
    (if Snake.grow (SnakeGame.snake g) then 1 else 0) =
    3 + SnakeGame.score g;
  tidy_chain : chain (Snake.body (SnakeGame.snake g));
  tidy_nodup :
    SnakeGame.running g = true ->
    NoDup (Snake.body (SnakeGame.snake g));
  tidy_fruit :
    SnakeGame.won g = false ->
    ~ In (Fruit.position (SnakeGame.fruit g))
         (Snake.body (SnakeGame.snake g));
  tidy_won :
    SnakeGame.won g = true ->
    Snake.grow (SnakeGame.snake g) = true /\
    Snake.head (SnakeGame.snake g) =
      Ret (Fruit.position (SnakeGame.fruit g)) /\
    Z.of_nat (length (Snake.body (SnakeGame.snake g))) + 1 =
      SnakeGame.grid_size g * SnakeGame.grid_size g;
  tidy_grid :
    4 <= SnakeGame.grid_size g ->
    SnakeGame.running g = true ->
    Forall (in_grid (SnakeGame.grid_size g))
           (Snake.body (SnakeGame.snake g))
}.

(** The games of the AI mode: built by the constructor and advanced by
    [step] only, one action for each move, while they are running. *)
Inductive stepped : SnakeGame.t -> Prop :=
| stepped_init (n cell : Z) (mode : string) (rf rd rs rw : Q)
               (rnd rnd' : draws) (g : SnakeGame.t) :
    Forall (in_grid n) rnd ->
    SnakeGame.init n cell mode rf rd rs rw rnd = Ret (g, rnd') ->
    stepped g
| stepped_step (g g' : SnakeGame.t) (rnd rnd' : draws) (a : Z)
               (out : list Q * Q * bool) :
    stepped g ->
    SnakeGame.running g = true ->
    Forall (in_grid (SnakeGame.grid_size g)) rnd ->
    SnakeGame.step rnd a g = Ret (g', rnd', out) ->
    stepped g'.

(** The second cell of the body is the cell behind the head. *)
Definition neck_behind (s : Snake.t) : Prop :=
  forall h k rest,
    Snake.body s = h :: k :: rest ->
    k = (fst h - fst (Snake.direction s), snd h - snd (Snake.direction s)).

(** A body that lies on the row [y], from the column [x] to the left. *)
Fixpoint in_a_row (x y : Z) (l : list pos) : Prop :=
  match l with
  | [] => True
  | c :: rest => c = (x, y) /\ in_a_row (x - 1) y rest
  end.

(** The number of [MOVE_EVENT]s among the events. *)
Fixpoint timer_ticks (events : list Main.event) : Z :=
  match events with
  | [] => 0
  | Main.MOVE_EVENT :: rest => 1 + timer_ticks rest
  | _ :: rest => timer_ticks rest
  end.

(** A running 12 x 12 game whose snake has gone [k] cells to the right
    of its first place without a turn. *)
Record straight (k : Z) (g : SnakeGame.t) : Prop := mk_straight {
  straight_range : 0 <= k <= 5;
  straight_size : Snake.grid_size (SnakeGame.snake g) = 12;
  straight_board : SnakeGame.grid_size g = 12;
  straight_direction : Snake.direction (SnakeGame.snake g) = (1, 0);
  straight_body : in_a_row (6 + k) 6 (Snake.body (SnakeGame.snake g));
  straight_head : Snake.head (SnakeGame.snake g) = Ret (6 + k, 6);
  straight_length :
    Z.of_nat (length (Snake.body (SnakeGame.snake g))) +
    (if Snake.grow (SnakeGame.snake g) then 1 else 0) <= 3 + k;
  straight_score : 0 <= SnakeGame.score g <= k;
  straight_running : SnakeGame.running g = true;
  straight_won : SnakeGame.won g = false
}.

(** The game after the snake has left the board on the right. *)
Record crashed (g : SnakeGame.t) : Prop := mk_crashed {
  crashed_direction : Snake.direction (SnakeGame.snake g) = (1, 0);
  crashed_head : Snake.head (SnakeGame.snake g) = Ret (12, 6);
  crashed_score : 0 <= SnakeGame.score g <= 6;
  crashed_running : SnakeGame.running g = false;
  crashed_won : SnakeGame.won g = false
}.

(** The number of calls of [sample] recorded in a log. *)
Fixpoint samples (log : list Train.event) : Z :=
  match log with
  | [] => 0
  | Train.Sampled _ _ :: rest => 1 + samples rest
  | Train.Refreshed _ :: rest => samples rest
  end.

(** The keys of a list never go down. *)
Fixpoint ascending {A : Type} (key : A -> Z) (l : list A) : Prop :=
  match l with
  | [] => True
  | x :: rest =>
      Forall (fun y => key x <= key y) rest /\ ascending key rest
  end.

(** ** Concrete inputs of the further properties *)

(** Left, against the move of the fresh 4 x 4 game: the turn is refused
    and the snake eats the fruit in front of it. *)
Definition refused_tick : tick_result :=
  Eval vm_compute in
    result no_tick (SnakeGame.step [ (0, 0) ] 2 small_game).

(** Up and then left between two moves of the fresh 4 x 4 game, and the
    move that follows. *)
Definition reversed_game : SnakeGame.t * draws :=
  Eval vm_compute in
    result (small_game, [])
           (SnakeGame.update [] (turn (-1, 0) (turn (0, -1) small_game))).

(** A network that always prefers the fourth action. *)
Definition always_right (state : list Q) : list Q :=
  [ 0%Q; 0%Q; 0%Q; 1%Q ].

(** One evaluation episode on a 4 x 4 board. *)
Definition short_episode : SnakeGame.t * draws * Z :=
  Eval vm_compute in
    result (small_game, [], 0)
           (Evaluate.run_episode always_right 4 32 10 [ (3, 2); (0, 0) ]).

(** Two evaluation episodes on a 4 x 4 board. *)
Definition short_evaluation : list Z * list Z * Z * draws :=
  Eval vm_compute in
    result ([], [], 0, [])
           (Evaluate.evaluate_episodes always_right 4 32 10 2
              [ (3, 2); (0, 0); (1, 1) ] [] [] 0).

(** The game of main.py in AI mode, its first fruit on [(0, 0)]. *)
Definition unsteered_start : Main.t * draws :=
  Eval vm_compute in
    result (Main.mk small_game true, []) (Main.start "ai" [ (0, 0) ]).

(** Six timer events, with a key in between. *)
Definition six_ticks : list Main.event :=
  [ Main.MOVE_EVENT; Main.KEYDOWN Main.K_UP; Main.MOVE_EVENT;
    Main.MOVE_EVENT; Main.MOVE_EVENT; Main.MOVE_EVENT; Main.MOVE_EVENT ].

Definition unsteered_end : Main.t * draws :=
  Eval vm_compute in
    result unsteered_start
           (Main.frame "ai" None six_ticks (snd unsteered_start)
                       (fst unsteered_start)).

(** A trainer whose 64 games have finished 3999 episodes each. *)
Definition nearly_done : @Train.t unit nat :=
  Train.mk 0%nat 0%nat (PrioritizedReplayMemory.empty Train.MEMORY_SIZE)
           0 0 0%Q (repeat 3999 64) [].

(** A tick on which every game ends an episode. *)
Definition closing_tick : @Train.tick_input unit :=
  Train.mk_input [] (repeat true 64) (fun k => k).

Definition trained : @Train.t unit nat :=
  Eval vm_compute in
    result nearly_done
           (Train.main toy_backward S [ closing_tick; idle_tick ]
                       nearly_done).

(** The trainer after two ticks of 64 transitions each. *)
Definition sampled_once : @Train.t unit nat :=
  Eval vm_compute in
    result (Train.init 0%nat)
           (Train.ticks toy_backward S [ full_tick; full_tick ]
                        (Train.init 0%nat)).

(** A reading of the decimal numerals. *)
Fixpoint decimal_from (acc : Z) (s : string) : option Z :=
  match s with
  | EmptyString => Some acc
  | String c rest =>
      let d := Z.of_nat (Ascii.nat_of_ascii c) in
      if (48 <=? d) && (d <=? 57)
      then decimal_from (10 * acc + (d - 48)) rest
      else None
  end.

Definition decimal (s : string) : option Z :=
  match s with
  | EmptyString => None
  | _ => decimal_from 0 s
  end.

Definition slash_join (d f : string) : string := (d ++ "/" ++ f)%string.

(** A directory with a checkpoint and a file of another kind. *)
Definition stray_listing : list string :=
  [ "dqn_snake_checkpoint_ep1000.pth"%string; "model.pth"%string ].

(** The figures of these two episodes. *)
Definition short_results : Evaluate.results * draws :=
  Eval vm_compute in
    result (Evaluate.mk_results 0 [] [] 0 None 0 0 None 0%Q, [])
           (Evaluate.evaluate_performance always_right 4 32 10 2
              [ (3, 2); (0, 0); (1, 1) ]).

(** * Properties *)

(** ** Cells and lists *)

Lemma pos_eqb_eq (a b : pos) : pos_eqb a b = true <-> a = b.
Proof.
  destruct a as [ax ay], b as [bx by_]; unfold pos_eqb; simpl.
  rewrite andb_true_iff, !Z.eqb_eq.
  split; [intros [-> ->]; reflexivity | intros H; inversion H; auto].
Qed.

Lemma pos_eqb_refl (a : pos) : pos_eqb a a = true.
Proof. apply pos_eqb_eq; reflexivity. Qed.

Lemma pos_eqb_neq (a b : pos) : pos_eqb a b = false <-> a <> b.
Proof.
  rewrite <- pos_eqb_eq. destruct (pos_eqb a b); split; congruence.
Qed.

Lemma pos_in_In (p : pos) (l : list pos) : pos_in p l = true <-> In p l.
Proof.
  induction l as [|q l IH]; simpl.
  - split; [discriminate | tauto].
  - rewrite orb_true_iff, IH, pos_eqb_eq. split; intros [H|H]; auto.
Qed.

Lemma pos_in_not_In (p : pos) (l : list pos) :
  pos_in p l = false <-> ~ In p l.
Proof.
  rewrite <- pos_in_In. destruct (pos_in p l); split; congruence.
Qed.

Lemma in_range_iff (x n : Z) : in_range x n = true <-> 0 <= x < n.
Proof. unfold in_range. rewrite andb_true_iff, Z.leb_le, Z.ltb_lt. tauto. Qed.

Lemma removelast_shorter {A : Type} (l : list A) :
  l <> [] -> S (length (removelast l)) = length l.
Proof.
  induction l as [|a l IH]; [congruence|]. intros _.
  destruct l as [|b l]; [reflexivity|].
  change (removelast (a :: b :: l)) with (a :: removelast (b :: l)).
  change (S (S (length (removelast (b :: l)))) = S (length (b :: l))).
  f_equal. apply IH. discriminate.
Qed.

(** ** Snake *)

(** The head after a move is the old head displaced by the direction; the
    rest is the old body, whole when a growth was pending and without its
    last cell otherwise. *)
Lemma move_ret (s s' : Snake.t) :
  Snake.move s = Ret s' ->
  exists h rest,
    Snake.body s = h :: rest /\
    Snake.body s' =
      (fst h + fst (Snake.direction s), snd h + snd (Snake.direction s))
        :: (if Snake.grow s then Snake.body s
            else removelast (Snake.body s)) /\
    Snake.grow s' = false /\
    Snake.direction s' = Snake.direction s /\
    Snake.grid_size s' = Snake.grid_size s.
Proof.
  unfold Snake.move. destruct (Snake.body s) as [|[hx hy] rest] eqn:Hb.
  - discriminate.
  - destruct (Snake.direction s) as [dx dy] eqn:Hd.
    destruct (Snake.grow s) eqn:Hg; intros H; inversion H; subst; clear H;
      exists (hx, hy), rest; simpl; rewrite ?Hg; auto.
Qed.

Lemma move_total (s : Snake.t) :
  Snake.body s <> [] -> exists s', Snake.move s = Ret s'.
Proof.
  unfold Snake.move. destruct (Snake.body s) as [|[hx hy] rest]; [congruence|].
  intros _. destruct (Snake.direction s), (Snake.grow s); eauto.
Qed.

Lemma move_length (s s' : Snake.t) :
  Snake.move s = Ret s' ->
  length (Snake.body s') =
    (length (Snake.body s) + (if Snake.grow s then 1 else 0))%nat.
Proof.
  intros H. destruct (move_ret _ _ H) as (h & rest & Hb & Hb' & _).
  rewrite Hb'. destruct (Snake.grow s); simpl.
  - lia.
  - rewrite <- (removelast_shorter (Snake.body s)) by (rewrite Hb; discriminate).
    lia.
Qed.

(** ** One call of [update], path by path *)

Lemma check_collisions_ret (g g' : SnakeGame.t) :
  SnakeGame.check_collisions g = Ret g' ->
  exists h rest,
    Snake.body (SnakeGame.snake g) = h :: rest /\
    g' = (if hits (Snake.grid_size (SnakeGame.snake g)) h rest
          then SnakeGame.set_running false g else g).
Proof.
  unfold SnakeGame.check_collisions, Snake.collided_with_self,
    Snake.collided_with_wall, hits.
  destruct (Snake.body (SnakeGame.snake g)) as [|[x y] rest]; simpl;
    [discriminate|].
  intros H. exists (x, y), rest. split; [reflexivity|]. simpl.
  destruct (pos_in (x, y) rest); simpl in *.
  - inversion H; reflexivity.
  - destruct ((x <? 0) || (y <? 0) || (x >=? _) || (y >=? _));
      inversion H; reflexivity.
Qed.

Lemma check_collisions_total (g : SnakeGame.t) :
  Snake.body (SnakeGame.snake g) <> [] ->
  exists g', SnakeGame.check_collisions g = Ret g'.
Proof.
  unfold SnakeGame.check_collisions, Snake.collided_with_self,
    Snake.collided_with_wall.
  destruct (Snake.body (SnakeGame.snake g)) as [|[x y] rest]; simpl;
    [congruence|].
  intros _. destruct (pos_in (x, y) rest); simpl; eauto.
  destruct ((x <? 0) || (y <? 0) || (x >=? _) || (y >=? _)); eauto.
Qed.

Lemma update_ret (rnd rnd' : draws) (g g' : SnakeGame.t) :
  SnakeGame.update rnd g = Ret (g', rnd') ->
  same_settings g g' /\ update_path rnd g g' rnd'.
Proof.
  unfold SnakeGame.update.
  destruct (Snake.move (SnakeGame.snake g)) as [s| |] eqn:Hm;
    cbn [bind]; try discriminate.
  destruct (move_ret _ _ Hm) as (h0 & rest0 & Hb & Hb' & Hg' & Hd' & Hn').
  assert (exists h rest, Snake.body s = h :: rest) as (h & rest & Hbs)
    by (rewrite Hb'; eauto).
  clear Hb'.
  assert (Hh : Snake.head s = Ret h)
    by (unfold Snake.head; rewrite Hbs; reflexivity).
  cbn [SnakeGame.snake SnakeGame.set_snake]. rewrite Hh. cbn [bind].
  cbn [SnakeGame.fruit SnakeGame.set_snake].
  destruct (pos_eqb h (Fruit.position (SnakeGame.fruit g))) eqn:He.
  - apply pos_eqb_eq in He.
    unfold SnakeGame.check_win_condition.
    cbn [SnakeGame.snake SnakeGame.set_snake SnakeGame.set_score
         SnakeGame.grid_size Snake.grow Snake.body Snake.grow_snake].
    destruct (Z.of_nat (length (Snake.body s)) + 1 =?
              SnakeGame.grid_size g * SnakeGame.grid_size g) eqn:Hw.
    + apply Z.eqb_eq in Hw. intros H; inversion H; subst g' rnd'; clear H.
      split; [repeat split|].
      eapply path_win; eauto.
    + apply Z.eqb_neq in Hw.
      cbn [SnakeGame.fruit SnakeGame.set_score SnakeGame.set_snake].
      destruct (Fruit.respawn (Snake.body s) rnd (SnakeGame.fruit g))
        as [[f r1]| |] eqn:Hr; cbn [bind]; try discriminate.
      match goal with
      | |- bind (SnakeGame.check_collisions ?x) _ = _ -> _ =>
          destruct (SnakeGame.check_collisions x) as [g1| |] eqn:Hc
      end; cbn [bind]; try discriminate.
      intros H; inversion H; subst g1 r1; clear H.
      apply check_collisions_ret in Hc. simpl in Hc.
      destruct Hc as (h1 & rest1 & Hb1 & ->).
      rewrite Hbs in Hb1. inversion Hb1; subst h1 rest1; clear Hb1.
      split.
      * destruct (hits _ _ _); repeat split.
      * eapply path_eat with (s := s) (h := h) (rest := rest) (f := f);
          eauto; destruct (hits (Snake.grid_size s) h rest);
          reflexivity.
  - apply pos_eqb_neq in He.
    match goal with
    | |- bind (SnakeGame.check_collisions ?x) _ = _ -> _ =>
        destruct (SnakeGame.check_collisions x) as [g1| |] eqn:Hc
    end; cbn [bind]; try discriminate.
    intros H; inversion H; subst g1 rnd'; clear H.
    apply check_collisions_ret in Hc. simpl in Hc.
    destruct Hc as (h1 & rest1 & Hb1 & ->).
    rewrite Hbs in Hb1. inversion Hb1; subst h1 rest1; clear Hb1.
    split.
    + destruct (hits _ _ _); repeat split.
    + eapply path_move with (s := s) (h := h) (rest := rest);
        eauto; destruct (hits (Snake.grid_size s) h rest); reflexivity.
Qed.

(** ** One call of [step] *)

Lemma step_unfold (rnd : draws) (a : Z) (g : SnakeGame.t) :
  SnakeGame.step rnd a g =
  if negb (in_range a 4) then Raise ValueError
  else
    '(g', rnd') <- SnakeGame.update rnd (steer a g) ;;
    next_state <- SnakeGame.get_state g' ;;
    Ret (g', rnd', (next_state, fst (payoff (SnakeGame.score g) g'),
                    snd (payoff (SnakeGame.score g) g'))).
Proof.
  unfold SnakeGame.step, steer, payoff. simpl (Z.of_nat (length ACTIONS)).
  destruct (negb (in_range a 4)); [reflexivity|].
  cbn [SnakeGame.score SnakeGame.set_snake].
  destruct (SnakeGame.update rnd _) as [[g' rnd']| |]; cbn [bind];
    try reflexivity.
  destruct (negb (SnakeGame.running g')).
  - destruct (SnakeGame.won g'); reflexivity.
  - destruct (SnakeGame.score g' >? SnakeGame.score g); reflexivity.
Qed.

Lemma step_ret (rnd rnd' : draws) (a : Z) (g g' : SnakeGame.t)
      (obs : list Q) (r : Q) (d : bool) :
  SnakeGame.step rnd a g = Ret (g', rnd', (obs, r, d)) ->
  0 <= a < 4 /\
  SnakeGame.update rnd (steer a g) = Ret (g', rnd') /\
  SnakeGame.get_state g' = Ret obs /\
  (r, d) = payoff (SnakeGame.score g) g'.
Proof.
  rewrite step_unfold.
  destruct (in_range a 4) eqn:Ha; cbn [negb]; [|discriminate].
  apply in_range_iff in Ha.
  destruct (SnakeGame.update rnd (steer a g)) as [[g1 rnd1]| |] eqn:Hu;
    cbn [bind]; try discriminate.
  destruct (SnakeGame.get_state g1) as [o| |] eqn:Hs; cbn [bind];
    try discriminate.
  intros H; inversion H; subst. repeat split; try lia; auto.
  destruct (payoff _ _); reflexivity.
Qed.

Lemma set_direction_keeps (d : pos) (s : Snake.t) :
  Snake.body (Snake.set_direction d s) = Snake.body s /\
  Snake.grow (Snake.set_direction d s) = Snake.grow s /\
  Snake.grid_size (Snake.set_direction d s) = Snake.grid_size s.
Proof.
  unfold Snake.set_direction. destruct d as [dx dy].
  destruct (pos_eqb (dx, dy) _); simpl; auto.
Qed.

Lemma steer_fields (a : Z) (g : SnakeGame.t) :
  same_settings g (steer a g) /\
  SnakeGame.fruit (steer a g) = SnakeGame.fruit g /\
  SnakeGame.score (steer a g) = SnakeGame.score g /\
  SnakeGame.running (steer a g) = SnakeGame.running g /\
  SnakeGame.won (steer a g) = SnakeGame.won g /\
  Snake.body (SnakeGame.snake (steer a g)) = Snake.body (SnakeGame.snake g) /\
  Snake.grow (SnakeGame.snake (steer a g)) = Snake.grow (SnakeGame.snake g) /\
  Snake.grid_size (SnakeGame.snake (steer a g)) =
    Snake.grid_size (SnakeGame.snake g).
Proof.
  unfold steer, same_settings.
  cbn [SnakeGame.set_snake SnakeGame.snake SnakeGame.fruit SnakeGame.score
       SnakeGame.running SnakeGame.won SnakeGame.grid_size
       SnakeGame.cell_size SnakeGame.mode SnakeGame.reward_fruit
       SnakeGame.reward_death SnakeGame.reward_step SnakeGame.reward_win].
  pose proof (set_direction_keeps (nth (Z.to_nat a) ACTIONS (0, 0))
                                  (SnakeGame.snake g)) as (Hb & Hg & Hn).
  repeat split; assumption.
Qed.

Lemma status_running (g : SnakeGame.t) :
  SnakeGame.status_of g = SnakeGame.Running <->
  SnakeGame.running g = true /\ SnakeGame.won g = false.
Proof.
  unfold SnakeGame.status_of.
  destruct (SnakeGame.won g), (SnakeGame.running g);
    split; try discriminate; intuition congruence.
Qed.

Lemma status_won (g : SnakeGame.t) :
  SnakeGame.status_of g = SnakeGame.Won <-> SnakeGame.won g = true.
Proof.
  unfold SnakeGame.status_of.
  destruct (SnakeGame.won g), (SnakeGame.running g);
    split; try discriminate; intuition congruence.
Qed.

Lemma status_died (g : SnakeGame.t) :
  SnakeGame.status_of g = SnakeGame.Died <->
  SnakeGame.running g = false /\ SnakeGame.won g = false.
Proof.
  unfold SnakeGame.status_of.
  destruct (SnakeGame.won g), (SnakeGame.running g);
    split; try discriminate; intuition congruence.
Qed.

(** ** What can go wrong in a call *)

Lemma new_position_never_raises (n : Z) (snake_body : list pos)
      (rnd : draws) (e : exn) :
  Fruit.new_position n snake_body rnd <> Raise e.
Proof.
  induction rnd as [|p rnd IH]; simpl; [discriminate|].
  destruct (negb (pos_in p snake_body)); [discriminate | exact IH].
Qed.

Lemma respawn_never_raises (snake_body : list pos) (rnd : draws)
      (f : Fruit.t) (e : exn) :
  Fruit.respawn snake_body rnd f <> Raise e.
Proof.
  unfold Fruit.respawn.
  destruct (Fruit.new_position (Fruit.grid_size f) snake_body rnd)
    as [[p r]| |] eqn:H; cbn [bind]; try discriminate.
  exfalso. eapply new_position_never_raises; eauto.
Qed.

(** [update] raises only on an empty body, which [move] cannot index. *)
Lemma update_raise (rnd : draws) (g : SnakeGame.t) (e : exn) :
  SnakeGame.update rnd g = Raise e ->
  e = IndexError /\ Snake.body (SnakeGame.snake g) = [].
Proof.
  unfold SnakeGame.update.
  destruct (Snake.move (SnakeGame.snake g)) as [s| |] eqn:Hm; cbn [bind].
  - destruct (move_ret _ _ Hm) as (h0 & rest0 & _ & Hb' & _).
    cbn [SnakeGame.snake SnakeGame.set_snake SnakeGame.fruit].
    unfold Snake.head. rewrite Hb'. cbn [bind].
    assert (Hcc : forall g1, SnakeGame.snake g1 = s \/
                             SnakeGame.snake g1 = Snake.grow_snake s ->
                  exists g2, SnakeGame.check_collisions g1 = Ret g2).
    { intros g1 Hs. apply check_collisions_total.
      destruct Hs as [-> | ->]; simpl; rewrite Hb'; discriminate. }
    match goal with
    | |- (if ?b then _ else _) = _ -> _ => destruct b
    end.
    + destruct (SnakeGame.check_win_condition _); [discriminate|].
      cbn [SnakeGame.snake SnakeGame.set_snake SnakeGame.set_score
           SnakeGame.fruit].
      match goal with
      | |- bind ?c _ = _ -> _ => destruct c as [[f r1]| |] eqn:Hr
      end; cbn [bind]; try discriminate.
      * match goal with
        | |- bind (SnakeGame.check_collisions ?x) _ = _ -> _ =>
            destruct (Hcc x) as (g2 & ->); [right; reflexivity|]
        end.
        discriminate.
      * intros _. exfalso. eapply respawn_never_raises; eauto.
    + match goal with
      | |- bind (SnakeGame.check_collisions ?x) _ = _ -> _ =>
          destruct (Hcc x) as (g2 & ->); [left; reflexivity|]
      end.
      discriminate.
  - unfold Snake.move in Hm.
    destruct (Snake.body (SnakeGame.snake g)) as [|[hx hy] rest].
    + intros H; inversion Hm; inversion H; subst; auto.
    + destruct (Snake.direction _), (Snake.grow _); discriminate.
  - discriminate.
Qed.

(** [get_state] raises in three situations only. *)
Lemma get_state_raise (g : SnakeGame.t) (e : exn) :
  SnakeGame.get_state g = Raise e ->
  (e = RuntimeError /\ SnakeGame.grid_size g < 0) \/
  (e = IndexError /\ Snake.body (SnakeGame.snake g) = []) \/
  (e = ZeroDivisionError /\ SnakeGame.grid_size g = 1).
Proof.
  unfold SnakeGame.get_state.
  destruct (SnakeGame.grid_size g <? 0) eqn:Hn.
  - intros H; inversion H. left. apply Z.ltb_lt in Hn. auto.
  - destruct (Fruit.position (SnakeGame.fruit g)) as [fx fy].
    unfold Snake.head.
    destruct (Snake.body (SnakeGame.snake g)) as [|[hx hy] rest];
      cbn [bind].
    + intros H; inversion H. right; left; auto.
    + destruct (SnakeGame.grid_size g - 1 =? 0) eqn:H1.
      * intros H; inversion H. right; right.
        apply Z.eqb_eq in H1. split; [reflexivity | lia].
      * discriminate.
Qed.

Lemma get_state_total (g : SnakeGame.t) :
  2 <= SnakeGame.grid_size g ->
  Snake.body (SnakeGame.snake g) <> [] ->
  exists obs, SnakeGame.get_state g = Ret obs.
Proof.
  intros Hn Hb.
  destruct (SnakeGame.get_state g) as [o|e|] eqn:H.
  - eauto.
  - apply get_state_raise in H. destruct H as [[_ H]|[[_ H]|[_ H]]];
      [lia | contradiction | lia].
  - exfalso. revert H. unfold SnakeGame.get_state.
    destruct (SnakeGame.grid_size g <? 0); [discriminate|].
    destruct (Fruit.position (SnakeGame.fruit g)) as [fx fy].
    unfold Snake.head.
    destruct (Snake.body (SnakeGame.snake g)) as [|[hx hy] rest];
      cbn [bind]; [discriminate|].
    destruct (SnakeGame.grid_size g - 1 =? 0); discriminate.
Qed.

(** The body is never empty after [update]. *)
Lemma update_body_nonempty (rnd rnd' : draws) (g g' : SnakeGame.t) :
  SnakeGame.update rnd g = Ret (g', rnd') ->
  Snake.body (SnakeGame.snake g') <> [].
Proof.
  intros H. apply update_ret in H. destruct H as [_ H].
  destruct H as [s h rest _ Hb _ _ Hs | s h rest f _ Hb _ _ _ Hs
                 | s h rest _ Hb _ Hs];
    rewrite Hs; simpl; rewrite Hb; discriminate.
Qed.

(** ** Reversal of the direction *)

Lemma set_snake_same (g : SnakeGame.t) :
  SnakeGame.set_snake (SnakeGame.snake g) g = g.
Proof. destruct g; reflexivity. Qed.

Lemma set_direction_opposite (s : Snake.t) :
  Snake.set_direction (opposite (Snake.direction s)) s = s.
Proof.
  unfold Snake.set_direction, opposite. rewrite pos_eqb_refl. reflexivity.
Qed.

Lemma set_direction_other (s : Snake.t) (d : pos) :
  d <> opposite (Snake.direction s) ->
  Snake.set_direction d s =
  Snake.mk (Snake.grid_size s) (Snake.body s) d (Snake.grow s).
Proof.
  intros Hd. unfold Snake.set_direction. destruct d as [dx dy].
  apply pos_eqb_neq in Hd. unfold opposite in Hd. rewrite Hd. reflexivity.
Qed.

Lemma set_direction_current (s : Snake.t) :
  Snake.set_direction (Snake.direction s) s = s.
Proof.
  unfold Snake.set_direction.
  destruct (Snake.direction s) as [dx dy] eqn:Hd.
  destruct (pos_eqb _ _); [reflexivity|].
  destruct s; simpl in *; congruence.
Qed.

(** C5.  Whatever the current and the requested direction,
    [set_direction] stores the requested direction and changes nothing
    else, unless the request is the exact opposite of the current
    direction: then the snake is left as it was.  Hence a tick played with
    the opposite of the current direction is the tick played with the
    current direction itself: same game afterwards, same draws consumed,
    same observation, reward and flag. *)
Theorem set_direction_reversal_ignored (s : Snake.t) (d : pos) :
  (d = opposite (Snake.direction s) -> Snake.set_direction d s = s) /\
  (d <> opposite (Snake.direction s) ->
   Snake.set_direction d s =
   Snake.mk (Snake.grid_size s) (Snake.body s) d (Snake.grow s)) /\
  (forall (g : SnakeGame.t) (rnd : draws) (a b : Z),
      SnakeGame.snake g = s ->
      0 <= a < 4 -> 0 <= b < 4 ->
      nth (Z.to_nat a) ACTIONS (0, 0) = opposite (Snake.direction s) ->
      nth (Z.to_nat b) ACTIONS (0, 0) = Snake.direction s ->
      SnakeGame.step rnd a g = SnakeGame.step rnd b g /\
      steer a g = g).
Proof.
  split; [|split].
  - intros ->. apply set_direction_opposite.
  - apply set_direction_other.
  - intros g rnd a b Hs Ha Hb Hopp Hcur.
    assert (Hsa : steer a g = g).
    { unfold steer. rewrite Hopp, Hs, set_direction_opposite, <- Hs.
      apply set_snake_same. }
    assert (Hsb : steer b g = g).
    { unfold steer. rewrite Hcur, Hs, set_direction_current, <- Hs.
      apply set_snake_same. }
    split; [|exact Hsa].
    rewrite !step_unfold, Hsa, Hsb.
    apply in_range_iff in Ha, Hb. rewrite Ha, Hb. reflexivity.
Qed.

(** ** Invalid actions *)

(** C7.  [step] raises the invalid-action error ([ValueError]) exactly
    when the action index is outside [0, 4); and for an index inside that
    range, on a board of side at least 2 with a non-empty body, [step]
    raises nothing at all. *)
Theorem step_raises_iff_invalid_action (rnd : draws) (a : Z)
        (g : SnakeGame.t) :
  (SnakeGame.step rnd a g = Raise ValueError <-> ~ 0 <= a < 4) /\
  (0 <= a < 4 ->
   2 <= SnakeGame.grid_size g ->
   Snake.body (SnakeGame.snake g) <> [] ->
   forall e, SnakeGame.step rnd a g <> Raise e).
Proof.
  rewrite step_unfold. split.
  - destruct (in_range a 4) eqn:Ha; cbn [negb].
    + apply in_range_iff in Ha. split; [|tauto].
      destruct (SnakeGame.update rnd (steer a g)) as [[g1 r1]|e|] eqn:Hu;
        cbn [bind]; try discriminate.
      * destruct (SnakeGame.get_state g1) as [o|e|] eqn:Hs; cbn [bind];
          try discriminate.
        intros H; inversion H; subst e.
        apply get_state_raise in Hs.
        destruct Hs as [[? _]|[[? _]|[? _]]]; discriminate.
      * intros H; inversion H; subst e.
        apply update_raise in Hu. destruct Hu; discriminate.
    + split; [intros _|reflexivity].
      intros Hr. apply in_range_iff in Hr. congruence.
  - intros Ha Hn Hb e.
    apply in_range_iff in Ha. rewrite Ha. cbn [negb].
    destruct (SnakeGame.update rnd (steer a g)) as [[g1 r1]|e1|] eqn:Hu;
      cbn [bind]; try discriminate.
    + pose proof (update_body_nonempty _ _ _ _ Hu) as Hb1.
      apply update_ret in Hu. destruct Hu as [(Hn1 & _) _].
      destruct (get_state_total g1) as (o & ->); [| assumption |].
      * rewrite Hn1. destruct (steer_fields a g) as ((-> & _) & _). exact Hn.
      * discriminate.
    + apply update_raise in Hu. destruct Hu as [_ Hu].
      destruct (steer_fields a g) as (_ & _ & _ & _ & _ & Hbs & _).
      congruence.
Qed.

(** ** Rewards *)

(** A tick that starts Running ends Won exactly on the winning path of
    [update]. *)
Lemma update_from_running (rnd rnd' : draws) (g g' : SnakeGame.t) :
  SnakeGame.status_of g = SnakeGame.Running ->
  update_path rnd g g' rnd' ->
  (SnakeGame.won g' = true -> SnakeGame.running g' = false) /\
  (SnakeGame.won g' = true <->
   exists s h rest,
     Snake.move (SnakeGame.snake g) = Ret s /\
     Snake.body s = h :: rest /\
     h = Fruit.position (SnakeGame.fruit g) /\
     Z.of_nat (length (Snake.body s)) + 1 =
       SnakeGame.grid_size g * SnakeGame.grid_size g).
Proof.
  intros Hrun Hp. apply status_running in Hrun. destruct Hrun as [Hr Hw].
  destruct Hp as [s h rest Hm Hb He Hlen Hs Hf Hsc Hr' Hw' _
                 | s h rest f Hm Hb He Hlen _ Hs Hf Hsc Hr' Hw'
                 | s h rest Hm Hb He Hs Hf Hsc Hr' Hw' _].
  - split; [auto|]. split; [intros _; eauto 8 | auto].
  - split; [congruence|]. split; [congruence|].
    intros (s1 & h1 & rest1 & Hm1 & Hb1 & He1 & Hlen1).
    rewrite Hm in Hm1. inversion Hm1; subst s1. contradiction.
  - split; [congruence|]. split; [congruence|].
    intros (s1 & h1 & rest1 & Hm1 & Hb1 & He1 & Hlen1).
    rewrite Hm in Hm1. inversion Hm1; subst s1.
    rewrite Hb in Hb1. inversion Hb1; subst. contradiction.
Qed.

Ltac other_rules :=
  let H := fresh "H" in
  intros [| | |]; try reflexivity; intros H; exfalso;
  repeat match type of H with
         | _ /\ _ => let H1 := fresh "H" in destruct H as [H1 H]
         end;
  first [discriminate | congruence | tauto].

(** C2.  On a tick played from a Running instance exactly one reward rule
    applies, and the reward returned is the one of that rule:
    [reward_win] when the instance becomes Won, [reward_death] when it
    becomes Died, [reward_fruit] when the score went up and the instance
    did not terminate, [reward_step] otherwise.  The flag [done] is set
    exactly in the first two cases. *)
Theorem step_reward_rule (rnd rnd' : draws) (a : Z) (g g' : SnakeGame.t)
        (obs : list Q) (r : Q) (d : bool) :
  SnakeGame.status_of g = SnakeGame.Running ->
  SnakeGame.step rnd a g = Ret (g', rnd', (obs, r, d)) ->
  exists rl : reward_rule,
    rule_applies g g' rl /\
    r = reward_of g rl /\
    (forall rl', rule_applies g g' rl' -> rl' = rl) /\
    (d = true <-> rl = rule_win \/ rl = rule_death).
Proof.
  intros Hrun Hstep.
  apply step_ret in Hstep. destruct Hstep as (Ha & Hu & _ & Hp).
  apply update_ret in Hu. destruct Hu as [Hset Hpath].
  destruct (steer_fields a g)
    as (Hset0 & _ & Hsc0 & Hr0 & Hw0 & _).
  assert (Hrun' : SnakeGame.status_of (steer a g) = SnakeGame.Running).
  { apply status_running. apply status_running in Hrun.
    rewrite Hr0, Hw0. exact Hrun. }
  destruct (update_from_running _ _ _ _ Hrun' Hpath) as [Hwr _].
  destruct Hset as (_ & _ & _ & Hrf & Hrd & Hrs & Hrw).
  destruct Hset0 as (_ & _ & _ & Hrf0 & Hrd0 & Hrs0 & Hrw0).
  rewrite Hrf0 in Hrf. rewrite Hrd0 in Hrd. rewrite Hrs0 in Hrs.
  rewrite Hrw0 in Hrw.
  unfold payoff in Hp. unfold rule_applies, reward_of.
  unfold SnakeGame.status_of.
  destruct (SnakeGame.won g') eqn:Hw'.
  - rewrite (Hwr eq_refl) in *. cbn [negb] in Hp. inversion Hp; subst.
    exists rule_win.
    split; [reflexivity|]. split; [assumption|]. split; [other_rules|].
    split; auto.
  - destruct (SnakeGame.running g') eqn:Hr'; cbn [negb] in Hp.
    + destruct (SnakeGame.score g' >? SnakeGame.score g) eqn:Hs;
        inversion Hp; subst.
      * apply Z.gtb_lt in Hs. exists rule_fruit.
        split; [auto|]. split; [assumption|]. split; [other_rules|].
        split; [discriminate | intros [H|H]; discriminate].
      * assert (Hle : ~ SnakeGame.score g < SnakeGame.score g').
        { intros Hlt. apply Z.gtb_lt in Hlt. congruence. }
        exists rule_step.
        split; [repeat split; try discriminate; tauto|].
        split; [assumption|]. split; [other_rules|].
        split; [discriminate | intros [H|H]; discriminate].
    + inversion Hp; subst. exists rule_death.
      split; [reflexivity|]. split; [assumption|]. split; [other_rules|].
      split; auto.
Qed.

(** ** Death *)

Lemma hits_collided (s : Snake.t) (h : pos) (rest : list pos) :
  Snake.body s = h :: rest ->
  (hits (Snake.grid_size s) h rest = true <->
   Snake.collided_with_self s = Ret true \/
   Snake.collided_with_wall s = Ret true).
Proof.
  intros Hb. unfold hits, Snake.collided_with_self, Snake.collided_with_wall.
  rewrite Hb. destruct h as [x y]. cbn [fst snd].
  destruct (pos_in (x, y) rest);
    destruct ((x <? 0) || (y <? 0) || (x >=? Snake.grid_size s)
              || (y >=? Snake.grid_size s));
    cbn [orb];
    (split;
     [ intros H; first [left; reflexivity | right; reflexivity | discriminate]
     | intros [H|H]; first [reflexivity | discriminate] ]).
Qed.

(** The two collision tests, on a body whose head is [h]: the head is one
    of the other cells, or it is off the board. *)
Lemma collided_spec (s : Snake.t) (h : pos) (rest : list pos) :
  Snake.body s = h :: rest ->
  (Snake.collided_with_self s = Ret true \/
   Snake.collided_with_wall s = Ret true <->
   In h rest \/ ~ in_grid (Snake.grid_size s) h).
Proof.
  intros Hb. rewrite <- (hits_collided s h rest Hb). unfold hits, in_grid.
  rewrite !orb_true_iff, pos_in_In, !Z.ltb_lt, !Z.geb_le.
  split; intros [H|H]; auto; right; lia.
Qed.

(** The state of the instance after a tick played from Running, in terms
    of the two collision tests. *)
Lemma died_iff_collided (rnd rnd' : draws) (a : Z) (g g' : SnakeGame.t)
      (obs : list Q) (r : Q) (d : bool) :
  SnakeGame.status_of g = SnakeGame.Running ->
  SnakeGame.step rnd a g = Ret (g', rnd', (obs, r, d)) ->
  (exists s,
      Snake.move (SnakeGame.snake (steer a g)) = Ret s /\
      Snake.body (SnakeGame.snake g') = Snake.body s /\
      Snake.grid_size (SnakeGame.snake g') = Snake.grid_size s) /\
  (SnakeGame.status_of g' <> SnakeGame.Won ->
   (SnakeGame.status_of g' = SnakeGame.Died <->
    Snake.collided_with_self (SnakeGame.snake g') = Ret true \/
    Snake.collided_with_wall (SnakeGame.snake g') = Ret true)) /\
  (SnakeGame.status_of g' = SnakeGame.Won ->
   SnakeGame.running g' = false /\ d = true /\
   SnakeGame.status_of g' <> SnakeGame.Died).
Proof.
  intros Hrun Hstep.
  apply step_ret in Hstep. destruct Hstep as (Ha & Hu & _ & Hp).
  apply update_ret in Hu. destruct Hu as [_ Hpath].
  destruct (steer_fields a g) as (_ & _ & _ & Hr0 & Hw0 & _).
  apply status_running in Hrun. destruct Hrun as [Hr Hw].
  rewrite <- Hr0 in Hr. rewrite <- Hw0 in Hw.
  destruct Hpath as [s h rest Hm Hb He Hlen Hs Hf Hsc Hr' Hw' _
                    | s h rest f Hm Hb He Hlen _ Hs Hf Hsc Hr' Hw'
                    | s h rest Hm Hb He Hs Hf Hsc Hr' Hw' _].
  - split; [exists s; rewrite Hs; auto|].
    unfold SnakeGame.status_of. rewrite Hw'.
    split; [congruence|]. intros _.
    unfold payoff in Hp. rewrite Hr' in Hp. cbn [negb] in Hp.
    inversion Hp. repeat split; auto. discriminate.
  - split; [exists s; rewrite Hs; auto|].
    unfold SnakeGame.status_of. rewrite Hw', Hw.
    split; [|destruct (SnakeGame.running g'); discriminate].
    intros _.
    assert (Hb1 : Snake.body (SnakeGame.snake g') = h :: rest)
      by (rewrite Hs; exact Hb).
    rewrite <- (hits_collided _ _ _ Hb1).
    replace (Snake.grid_size (SnakeGame.snake g')) with (Snake.grid_size s)
      by (rewrite Hs; reflexivity).
    rewrite Hr', Hr.
    destruct (hits (Snake.grid_size s) h rest); split; congruence.
  - split; [exists s; rewrite Hs; auto|].
    unfold SnakeGame.status_of. rewrite Hw', Hw.
    split; [|destruct (SnakeGame.running g'); discriminate].
    intros _.
    assert (Hb1 : Snake.body (SnakeGame.snake g') = h :: rest)
      by (rewrite Hs; exact Hb).
    rewrite <- (hits_collided _ _ _ Hb1).
    replace (Snake.grid_size (SnakeGame.snake g')) with (Snake.grid_size s)
      by (rewrite Hs; reflexivity).
    rewrite Hr', Hr.
    destruct (hits (Snake.grid_size s) h rest); split; congruence.
Qed.

(** C6.  On a tick played from a Running instance, the snake of the
    result carries the body that [move] produced (growth or tail drop
    applied).  If the instance did not become Won, it is Died exactly when
    the head of that body is outside the grid or is one of the other body
    cells, which is what the two collision tests of the source compute.
    If it became Won it is terminal without being Died, whatever the
    collision tests would say. *)
Theorem died_iff_collision (rnd rnd' : draws) (a : Z) (g g' : SnakeGame.t)
        (obs : list Q) (r : Q) (d : bool) :
  SnakeGame.status_of g = SnakeGame.Running ->
  SnakeGame.step rnd a g = Ret (g', rnd', (obs, r, d)) ->
  exists (s : Snake.t) (h : pos) (rest : list pos),
    Snake.move (SnakeGame.snake (steer a g)) = Ret s /\
    Snake.body s = h :: rest /\
    Snake.body (SnakeGame.snake g') = h :: rest /\
    Snake.grid_size (SnakeGame.snake g') = Snake.grid_size s /\
    (SnakeGame.status_of g' <> SnakeGame.Won ->
     (SnakeGame.status_of g' = SnakeGame.Died <->
      In h rest \/ ~ in_grid (Snake.grid_size s) h) /\
     (SnakeGame.status_of g' = SnakeGame.Died <->
      Snake.collided_with_self (SnakeGame.snake g') = Ret true \/
      Snake.collided_with_wall (SnakeGame.snake g') = Ret true)) /\
    (SnakeGame.status_of g' = SnakeGame.Won ->
     SnakeGame.running g' = false /\ d = true /\
     SnakeGame.status_of g' <> SnakeGame.Died).
Proof.
  intros Hrun Hstep.
  destruct (died_iff_collided _ _ _ _ _ _ _ _ Hrun Hstep)
    as ((s & Hm & Hb & Hn) & Hdied & Hwon).
  destruct (move_ret _ _ Hm) as (h0 & rest0 & _ & Hbs & _).
  match type of Hbs with
  | _ = ?x :: ?l => exists s, x, l
  end.
  split; [exact Hm|]. split; [exact Hbs|].
  assert (Hb' := Hb). rewrite Hbs in Hb'.
  split; [exact Hb'|]. split; [exact Hn|]. split; [|exact Hwon].
  intros Hnot. split; [|exact (Hdied Hnot)].
  rewrite (Hdied Hnot), <- Hn. apply collided_spec. exact Hb'.
Qed.

(** ** Growth and score *)

Lemma outcome_pos_dec (x y : outcome pos) : {x = y} + {x <> y}.
Proof.
  repeat decide equality; apply Z.eq_dec.
Qed.

(** What one tick does to the length of the body, to the pending growth
    and to the score, whatever the state of the instance. *)
Lemma step_growth (rnd rnd' : draws) (a : Z) (g g' : SnakeGame.t)
      (obs : list Q) (r : Q) (d : bool) :
  SnakeGame.step rnd a g = Ret (g', rnd', (obs, r, d)) ->
  length (Snake.body (SnakeGame.snake g')) =
    (length (Snake.body (SnakeGame.snake g)) +
     (if Snake.grow (SnakeGame.snake g) then 1 else 0))%nat /\
  (Snake.head (SnakeGame.snake g') =
     Ret (Fruit.position (SnakeGame.fruit g)) ->
   Snake.grow (SnakeGame.snake g') = true /\
   SnakeGame.score g' = SnakeGame.score g + 1) /\
  (Snake.head (SnakeGame.snake g') <>
     Ret (Fruit.position (SnakeGame.fruit g)) ->
   Snake.grow (SnakeGame.snake g') = false /\
   SnakeGame.score g' = SnakeGame.score g).
Proof.
  intros Hstep.
  apply step_ret in Hstep. destruct Hstep as (Ha & Hu & _ & _).
  apply update_ret in Hu. destruct Hu as [_ Hpath].
  destruct (steer_fields a g) as (_ & Hf0 & Hsc0 & _ & _ & Hb0 & Hg0 & _).
  rewrite <- Hb0, <- Hg0, <- Hf0, <- Hsc0.
  destruct Hpath as [s h rest Hm Hb He Hlen Hs Hf Hsc Hr' Hw' _
                    | s h rest f Hm Hb He Hlen _ Hs Hf Hsc Hr' Hw'
                    | s h rest Hm Hb He Hs Hf Hsc Hr' Hw' _];
    pose proof (move_length _ _ Hm) as Hl;
    destruct (move_ret _ _ Hm) as (_ & _ & _ & _ & Hgs & _);
    rewrite Hs; unfold Snake.head; cbn [Snake.body Snake.grow_snake Snake.grow];
    rewrite Hb; rewrite Hb in Hl;
    (split; [exact Hl|]); split; intros Hh;
    try (split; [reflexivity || assumption | assumption]);
    exfalso; congruence.
Qed.

(** C1 (as amended).  On a tick whose new head lands on the fruit cell
    the score goes up by one and a growth is left pending, but the body
    keeps the length it had unless a growth was already pending: the tail
    is dropped on that tick.  The body gains its cell on the following
    tick.  Over two consecutive ticks played from Running instances the
    length never decreases, and the second tick lengthens the body by
    exactly one cell exactly when the first one ate the fruit, which is
    when the first one returned by the fruit rule. *)
Theorem growth_follows_fruit
        (rnd0 rnd1 rnd1' rnd2 : draws) (a0 a1 : Z)
        (g0 g1 g2 : SnakeGame.t) (o1 o2 : list Q) (r1 r2 : Q)
        (d1 d2 : bool) :
  SnakeGame.status_of g0 = SnakeGame.Running ->
  SnakeGame.step rnd0 a0 g0 = Ret (g1, rnd1, (o1, r1, d1)) ->
  SnakeGame.status_of g1 = SnakeGame.Running ->
  SnakeGame.step rnd1' a1 g1 = Ret (g2, rnd2, (o2, r2, d2)) ->
  let ate :=
    Snake.head (SnakeGame.snake g1) =
    Ret (Fruit.position (SnakeGame.fruit g0)) in
  (ate ->
   SnakeGame.score g1 = SnakeGame.score g0 + 1 /\
   Snake.grow (SnakeGame.snake g1) = true /\
   r1 = SnakeGame.reward_fruit g0) /\
  (~ ate ->
   SnakeGame.score g1 = SnakeGame.score g0 /\
   Snake.grow (SnakeGame.snake g1) = false /\
   r1 = SnakeGame.reward_step g0) /\
  length (Snake.body (SnakeGame.snake g1)) =
    (length (Snake.body (SnakeGame.snake g0)) +
     (if Snake.grow (SnakeGame.snake g0) then 1 else 0))%nat /\
  (length (Snake.body (SnakeGame.snake g0)) <=
   length (Snake.body (SnakeGame.snake g1)) <=
   length (Snake.body (SnakeGame.snake g2)))%nat /\
  (length (Snake.body (SnakeGame.snake g2)) =
     S (length (Snake.body (SnakeGame.snake g1))) <-> ate).
Proof.
  intros Hrun0 Hstep0 Hrun1 Hstep1 ate.
  destruct (step_growth _ _ _ _ _ _ _ _ Hstep0) as (Hl0 & Heat0 & Hno0).
  destruct (step_growth _ _ _ _ _ _ _ _ Hstep1) as (Hl1 & _ & _).
  pose proof Hstep0 as Hs0.
  apply step_ret in Hs0. destruct Hs0 as (_ & Hu0 & _ & Hp0).
  apply update_ret in Hu0. destruct Hu0 as [Hset _].
  destruct (steer_fields a0 g0) as (Hset0 & _).
  destruct Hset as (_ & _ & _ & Hrf & _ & Hrs & _).
  destruct Hset0 as (_ & _ & _ & Hrf0 & _ & Hrs0 & _).
  rewrite Hrf0 in Hrf. rewrite Hrs0 in Hrs.
  apply status_running in Hrun1. destruct Hrun1 as [Hr1 Hw1].
  unfold payoff in Hp0. rewrite Hr1 in Hp0. cbn [negb] in Hp0.
  split; [|split; [|split; [|split]]].
  - intros Hate. destruct (Heat0 Hate) as [Hg Hsc].
    repeat split; auto.
    replace (SnakeGame.score g1 >? SnakeGame.score g0) with true in Hp0
      by (symmetry; apply Z.gtb_lt; lia).
    inversion Hp0; congruence.
  - intros Hate. destruct (Hno0 Hate) as [Hg Hsc].
    repeat split; auto.
    replace (SnakeGame.score g1 >? SnakeGame.score g0) with false in Hp0.
    + inversion Hp0; congruence.
    + symmetry. rewrite Hsc. unfold Z.gtb. rewrite Z.compare_refl.
      reflexivity.
  - exact Hl0.
  - rewrite Hl1, Hl0. lia.
  - rewrite Hl1. split.
    + intros Hlen.
      destruct (Snake.grow (SnakeGame.snake g1)) eqn:Hg; [|lia].
      destruct (outcome_pos_dec (Snake.head (SnakeGame.snake g1))
                  (Ret (Fruit.position (SnakeGame.fruit g0))))
        as [Heq|Hne]; [exact Heq|].
      destruct (Hno0 Hne) as [Hg' _]. congruence.
    + intros Hate. destruct (Heat0 Hate) as [-> _]. lia.
Qed.

(** ** Winning *)

(** The reward of a tick played from a Running instance, according to
    whether the instance became Won. *)
Lemma step_payoff (rnd rnd' : draws) (a : Z) (g g' : SnakeGame.t)
      (obs : list Q) (r : Q) (d : bool) :
  SnakeGame.status_of g = SnakeGame.Running ->
  SnakeGame.step rnd a g = Ret (g', rnd', (obs, r, d)) ->
  (SnakeGame.status_of g' = SnakeGame.Won ->
   r = SnakeGame.reward_win g /\ d = true) /\
  (SnakeGame.status_of g' <> SnakeGame.Won ->
   r = SnakeGame.reward_death g \/
   r = SnakeGame.reward_fruit g \/
   r = SnakeGame.reward_step g).
Proof.
  intros Hrun Hstep.
  apply step_ret in Hstep. destruct Hstep as (Ha & Hu & _ & Hp).
  apply update_ret in Hu. destruct Hu as [Hset Hpath].
  destruct (steer_fields a g) as (Hset0 & _ & _ & Hr0 & Hw0 & _).
  assert (Hrun' : SnakeGame.status_of (steer a g) = SnakeGame.Running).
  { apply status_running. apply status_running in Hrun.
    rewrite Hr0, Hw0. exact Hrun. }
  destruct (update_from_running _ _ _ _ Hrun' Hpath) as [Hwr _].
  destruct Hset as (_ & _ & _ & Hrf & Hrd & Hrs & Hrw).
  destruct Hset0 as (_ & _ & _ & Hrf0 & Hrd0 & Hrs0 & Hrw0).
  rewrite Hrf0 in Hrf. rewrite Hrd0 in Hrd. rewrite Hrs0 in Hrs.
  rewrite Hrw0 in Hrw.
  unfold payoff in Hp. rewrite !status_won.
  destruct (SnakeGame.won g') eqn:Hw'.
  - rewrite (Hwr eq_refl) in Hp. cbn [negb] in Hp. inversion Hp; subst.
    split; [auto | congruence].
  - split; [discriminate|]. intros _.
    destruct (SnakeGame.running g'); cbn [negb] in Hp.
    + destruct (SnakeGame.score g' >? SnakeGame.score g);
        inversion Hp; subst; auto.
    + inversion Hp; subst; auto.
Qed.

(** C3 (as amended).  A tick played from a Running instance makes it Won
    exactly when the new head lands on the fruit and the length of the
    body after the move, plus the one cell of growth that the fruit leaves
    pending, equals [grid_size * grid_size].  The body itself then holds
    [grid_size * grid_size - 1] cells.  On that tick the fruit is not
    placed again (no draw is consumed), [reward_win] is returned and [done]
    is set; on any other tick the reward is one of the three other
    constants. *)
Theorem won_iff_board_filled (rnd rnd' : draws) (a : Z)
        (g g' : SnakeGame.t) (obs : list Q) (r : Q) (d : bool) :
  SnakeGame.status_of g = SnakeGame.Running ->
  SnakeGame.step rnd a g = Ret (g', rnd', (obs, r, d)) ->
  let n := SnakeGame.grid_size g in
  let len := Z.of_nat (length (Snake.body (SnakeGame.snake g'))) in
  (SnakeGame.status_of g' = SnakeGame.Won <->
   Snake.head (SnakeGame.snake g') =
     Ret (Fruit.position (SnakeGame.fruit g)) /\
   len + 1 = n * n) /\
  (SnakeGame.status_of g' = SnakeGame.Won ->
   len = n * n - 1 /\
   Snake.grow (SnakeGame.snake g') = true /\
   SnakeGame.fruit g' = SnakeGame.fruit g /\
   rnd' = rnd /\
   r = SnakeGame.reward_win g /\
   d = true) /\
  (SnakeGame.status_of g' <> SnakeGame.Won ->
   r = SnakeGame.reward_death g \/
   r = SnakeGame.reward_fruit g \/
   r = SnakeGame.reward_step g).
Proof.
  intros Hrun Hstep n len.
  destruct (step_payoff _ _ _ _ _ _ _ _ Hrun Hstep) as [Hpay Hother].
  apply step_ret in Hstep. destruct Hstep as (Ha & Hu & _ & _).
  apply update_ret in Hu. destruct Hu as [_ Hpath].
  destruct (steer_fields a g)
    as ((Hn0 & _) & Hf0 & _ & Hr0 & Hw0 & _).
  apply status_running in Hrun. destruct Hrun as [Hrn Hwn].
  rewrite <- Hw0 in Hwn.
  assert (Hwin : SnakeGame.status_of g' = SnakeGame.Won <->
                 Snake.head (SnakeGame.snake g') =
                   Ret (Fruit.position (SnakeGame.fruit g)) /\
                 len + 1 = n * n).
  { rewrite status_won. subst n len. rewrite <- Hn0, <- Hf0.
    destruct Hpath as [s h rest Hm Hb He Hlen Hs Hf Hsc Hr' Hw' _
                      | s h rest f Hm Hb He Hlen _ Hs Hf Hsc Hr' Hw'
                      | s h rest Hm Hb He Hs Hf Hsc Hr' Hw' _];
      rewrite Hs; unfold Snake.head;
      cbn [Snake.body Snake.grow_snake]; rewrite Hb;
      try rewrite Hb in Hlen.
    - split; [intros _; split; [congruence | exact Hlen] | auto].
    - split; [congruence | intros [_ H]; contradiction].
    - split; [congruence | intros [H _]; congruence]. }
  split; [exact Hwin|]. split; [|exact Hother].
  intros Hwon. destruct (proj1 Hwin Hwon) as [_ Hlen].
  destruct (Hpay Hwon) as [Hr Hd].
  split; [lia|].
  apply status_won in Hwon.
  destruct Hpath as [s h rest Hm Hb He Hlen' Hs Hf Hsc Hr' Hw' Hrnd
                    | s h rest f Hm Hb He Hlen' _ Hs Hf Hsc Hr' Hw'
                    | s h rest Hm Hb He Hs Hf Hsc Hr' Hw' _];
    try congruence.
  rewrite Hs, Hf, Hf0. repeat split; auto.
Qed.

(** ** Concrete games *)

(** C3, as it was stated, fails: playing Left on that board makes the
    instance Won and returns [reward_win], with a body of fifteen cells,
    not sixteen. *)
Lemma won_with_fifteen_cells :
  SnakeGame.status_of fifteen_of_sixteen = SnakeGame.Running /\
  match SnakeGame.step [] 2 fifteen_of_sixteen with
  | Ret (g', _, (_, r, d)) =>
      SnakeGame.status_of g' = SnakeGame.Won /\
      r = SnakeGame.reward_win fifteen_of_sixteen /\
      d = true /\
      length (Snake.body (SnakeGame.snake g')) = 15%nat /\
      Z.of_nat (length (Snake.body (SnakeGame.snake g'))) <>
        SnakeGame.grid_size g' * SnakeGame.grid_size g'
  | _ => False
  end.
Proof.
  split; [reflexivity|]. vm_compute.
  repeat split; discriminate.
Qed.

(** C1, as it was stated, fails: one tick to the right eats the fruit and
    returns [reward_fruit] without terminating, and the body has three
    cells after the tick as it had before; the tail cell [(4, 6)] is
    gone. *)
Lemma fruit_tick_keeps_length :
  match fruit_ahead with
  | Ret (g, _) =>
      SnakeGame.status_of g = SnakeGame.Running /\
      match SnakeGame.step [ (0, 0) ] 3 g with
      | Ret (g', _, (_, r, d)) =>
          Snake.head (SnakeGame.snake g') =
            Ret (Fruit.position (SnakeGame.fruit g)) /\
          SnakeGame.status_of g' = SnakeGame.Running /\
          r = SnakeGame.reward_fruit g /\
          SnakeGame.score g' = SnakeGame.score g + 1 /\
          Snake.body (SnakeGame.snake g) = [ (6, 6); (5, 6); (4, 6) ] /\
          Snake.body (SnakeGame.snake g') = [ (7, 6); (6, 6); (5, 6) ] /\
          length (Snake.body (SnakeGame.snake g')) <>
            S (length (Snake.body (SnakeGame.snake g)))
      | _ => False
      end
  | _ => False
  end.
Proof.
  vm_compute. repeat split; discriminate.
Qed.

(** ** The cells of the board *)

Lemma cells_length (n : Z) : length (cells n) = Z.to_nat (n * n).
Proof. unfold cells. rewrite length_map, length_seq. reflexivity. Qed.

Lemma cells_in_grid (n : Z) (c : pos) :
  0 < n -> In c (cells n) -> in_grid n c.
Proof.
  intros Hn Hc. unfold cells in Hc. apply in_map_iff in Hc.
  destruct Hc as (k & <- & Hk). apply in_seq in Hk.
  unfold in_grid, cell_of; cbn [fst snd].
  assert (Hk' : 0 <= Z.of_nat k < n * n) by lia.
  pose proof (Z.mod_pos_bound (Z.of_nat k) n Hn).
  pose proof (Z.div_pos (Z.of_nat k) n ltac:(lia) Hn).
  assert (Z.of_nat k / n < n) by (apply Z.div_lt_upper_bound; lia).
  lia.
Qed.

Lemma cells_NoDup (n : Z) : 0 < n -> NoDup (cells n).
Proof.
  intros Hn. unfold cells. apply Injective_map_NoDup_in.
  - intros j k _ _ H. unfold cell_of in H. inversion H as [[Hq Hr]].
    pose proof (Z.div_mod (Z.of_nat j) n ltac:(lia)).
    pose proof (Z.div_mod (Z.of_nat k) n ltac:(lia)).
    apply Nat2Z.inj. congruence.
  - apply seq_NoDup.
Qed.

(** A body with fewer cells than the board leaves a cell of the board
    free. *)
Lemma free_cell (n : Z) (snake_body : list pos) :
  0 < n ->
  Z.of_nat (length snake_body) < n * n ->
  exists c, in_grid n c /\ ~ In c snake_body.
Proof.
  intros Hn Hlen.
  destruct (find (fun c => negb (pos_in c snake_body)) (cells n))
    as [c|] eqn:Hf.
  - apply find_some in Hf. destruct Hf as [Hc Hfree].
    exists c. split; [eapply cells_in_grid; eauto|].
    apply pos_in_not_In. apply negb_true_iff. exact Hfree.
  - exfalso.
    assert (Hincl : incl (cells n) snake_body).
    { intros c Hc. pose proof (find_none _ _ Hf c Hc) as H.
      apply negb_false_iff in H. apply pos_in_In. exact H. }
    pose proof (NoDup_incl_length (cells_NoDup n Hn) Hincl) as Hle.
    rewrite cells_length in Hle. lia.
Qed.

Lemma filter_all {A : Type} (f : A -> bool) (l : list A) :
  (forall x, In x l -> f x = true) -> filter f l = l.
Proof.
  induction l as [|a l IH]; intros H; simpl; [reflexivity|].
  rewrite (H a (or_introl eq_refl)), IH; [reflexivity|].
  intros x Hx. apply H. right. exact Hx.
Qed.

(** A body that occupies fewer cells than the board has leaves a cell of
    the board free, however long the body is. *)
Lemma free_cell_of_occupied (n : Z) (snake_body : list pos) :
  0 < n ->
  Z.of_nat (length (occupied n snake_body)) < n * n ->
  exists c, in_grid n c /\ ~ In c snake_body.
Proof.
  intros Hn Hlen.
  destruct (find (fun c => negb (pos_in c snake_body)) (cells n))
    as [c|] eqn:Hf.
  - apply find_some in Hf. destruct Hf as [Hc Hfree].
    exists c. split; [eapply cells_in_grid; eauto|].
    apply pos_in_not_In. apply negb_true_iff. exact Hfree.
  - exfalso. unfold occupied in Hlen. rewrite filter_all in Hlen.
    + rewrite cells_length in Hlen. lia.
    + intros c Hc. pose proof (find_none _ _ Hf c Hc) as H.
      apply negb_false_iff in H. exact H.
Qed.

(** ** The placement loop *)

(** When the loop returns, it returns the first draw that is not a cell
    of the body, and it has consumed the draws up to it. *)
Lemma new_position_ret (n : Z) (snake_body : list pos) (rnd rnd' : draws)
      (p : pos) :
  Fruit.new_position n snake_body rnd = Ret (p, rnd') ->
  ~ In p snake_body /\
  exists skipped,
    rnd = skipped ++ p :: rnd' /\
    Forall (fun q => In q snake_body) skipped.
Proof.
  induction rnd as [|q rnd IH]; simpl; [discriminate|].
  destruct (pos_in q snake_body) eqn:Hq; cbn [negb].
  - intros H. destruct (IH H) as (Hp & skipped & -> & Hsk).
    split; [exact Hp|]. exists (q :: skipped). split; [reflexivity|].
    constructor; [apply pos_in_In; exact Hq | exact Hsk].
  - intros H; inversion H; subst q rnd'.
    split; [apply pos_in_not_In; exact Hq|].
    exists []. split; [reflexivity | constructor].
Qed.

(** The loop leaves as soon as a free cell is drawn, whatever was drawn
    before. *)
Lemma new_position_exits (n : Z) (snake_body : list pos) (c : pos)
      (before after : draws) :
  ~ In c snake_body ->
  exists p rnd',
    Fruit.new_position n snake_body (before ++ c :: after) = Ret (p, rnd').
Proof.
  intros Hc. induction before as [|q before IH]; simpl.
  - apply pos_in_not_In in Hc. rewrite Hc. cbn [negb]. eauto.
  - destruct (negb (pos_in q snake_body)); eauto.
Qed.

(** The loop is still running at the end of the draws exactly when all of
    them were cells of the body. *)
Lemma new_position_spins (n : Z) (snake_body : list pos) (rnd : draws) :
  Fruit.new_position n snake_body rnd = Spin <->
  Forall (fun q => In q snake_body) rnd.
Proof.
  induction rnd as [|q rnd IH]; simpl.
  - split; [constructor | reflexivity].
  - destruct (pos_in q snake_body) eqn:Hq; cbn [negb].
    + rewrite IH. split.
      * intros H. constructor; [apply pos_in_In; exact Hq | exact H].
      * intros H. inversion H; assumption.
    + split; [discriminate|].
      intros H. inversion H as [|? ? Hin _]; subst.
      apply pos_in_In in Hin. congruence.
Qed.

(** ** Games that can be reached *)

Lemma init_ret (n cell : Z) (mode : string) (rf rd rs rw : Q)
      (rnd rnd' : draws) (g : SnakeGame.t) :
  SnakeGame.init n cell mode rf rd rs rw rnd = Ret (g, rnd') ->
  exists p,
    Fruit.new_position n (Snake.body (Snake.init n)) rnd = Ret (p, rnd') /\
    g = SnakeGame.mk n cell (Snake.init n) (Fruit.mk n p) 0 true false
                     mode rf rd rs rw.
Proof.
  unfold SnakeGame.init, Fruit.init.
  destruct (Fruit.new_position n (Snake.body (Snake.init n)) rnd)
    as [[p r]| |]; cbn [bind]; try discriminate.
  intros H; inversion H; subst. eauto.
Qed.

Lemma respawn_ret (snake_body : list pos) (rnd rnd' : draws)
      (f f' : Fruit.t) :
  Fruit.respawn snake_body rnd f = Ret (f', rnd') ->
  Fruit.grid_size f' = Fruit.grid_size f /\
  Fruit.new_position (Fruit.grid_size f) snake_body rnd =
    Ret (Fruit.position f', rnd').
Proof.
  unfold Fruit.respawn.
  destruct (Fruit.new_position (Fruit.grid_size f) snake_body rnd)
    as [[p r]| |]; cbn [bind]; try discriminate.
  intros H; inversion H; subst. auto.
Qed.

Lemma new_position_drawn (n m : Z) (snake_body : list pos)
      (rnd rnd' : draws) (p : pos) :
  Forall (in_grid m) rnd ->
  Fruit.new_position n snake_body rnd = Ret (p, rnd') ->
  in_grid m p /\ ~ In p snake_body.
Proof.
  intros Hall H. apply new_position_ret in H.
  destruct H as (Hp & skipped & -> & _). split; [|exact Hp].
  rewrite Forall_forall in Hall. apply Hall.
  apply in_or_app. right. left. reflexivity.
Qed.

Lemma init_sound (n cell : Z) (mode : string) (rf rd rs rw : Q)
      (rnd rnd' : draws) (g : SnakeGame.t) :
  Forall (in_grid n) rnd ->
  SnakeGame.init n cell mode rf rd rs rw rnd = Ret (g, rnd') ->
  sound g.
Proof.
  intros Hall H. apply init_ret in H. destruct H as (p & Hp & ->).
  destruct (new_position_drawn _ _ _ _ _ _ Hall Hp) as [Hg Hfree].
  assert (Hn : 2 <= n).
  { destruct (Z.eq_dec n 1) as [-> | Hne].
    - exfalso. apply Hfree. destruct p as [x y].
      unfold in_grid in Hg; cbn [fst snd] in Hg.
      assert (x = 0) by lia. assert (y = 0) by lia. subst.
      left. reflexivity.
    - unfold in_grid in Hg. lia. }
  constructor; cbn; auto; try discriminate.
  intros _. nia.
Qed.

Lemma update_sound (rnd rnd' : draws) (g g' : SnakeGame.t) :
  sound g ->
  SnakeGame.running g = true ->
  Forall (in_grid (SnakeGame.grid_size g)) rnd ->
  SnakeGame.update rnd g = Ret (g', rnd') ->
  sound g'.
Proof.
  intros [Hss Hfs Hn Hb Hf Hroom Hwon] Hrun Hall Hu.
  assert (Hw : SnakeGame.won g = false).
  { destruct (SnakeGame.won g); [|reflexivity].
    rewrite (Hwon eq_refl) in Hrun. discriminate. }
  specialize (Hroom Hw).
  pose proof (update_body_nonempty _ _ _ _ Hu) as Hb'.
  apply update_ret in Hu. destruct Hu as [(Hn' & _) Hpath].
  destruct Hpath as [s h rest Hm Hbs He Hlen Hs Hfr Hsc Hr' Hw' _
                    | s h rest f Hm Hbs He Hlen Hre Hs Hfr Hsc Hr' Hw'
                    | s h rest Hm Hbs He Hs Hfr Hsc Hr' Hw' _];
    pose proof (move_length _ _ Hm) as Hl;
    destruct (move_ret _ _ Hm) as (_ & _ & _ & _ & Hgs & _ & Hsn);
    constructor; rewrite ?Hn'; auto;
    try (rewrite Hs; cbn [Snake.grow_snake Snake.grid_size]; congruence);
    try congruence.
  - apply respawn_ret in Hre. destruct Hre as [Hre _]. congruence.
  - apply respawn_ret in Hre. destruct Hre as [_ Hre].
    rewrite <- Hfr in Hre.
    eapply new_position_drawn in Hre; eauto. tauto.
  - intros _. rewrite Hs. cbn [Snake.grow_snake Snake.body Snake.grow].
    rewrite Hl. destruct (Snake.grow (SnakeGame.snake g)); lia.
  - intros _. rewrite Hs, Hl, Hgs.
    destruct (Snake.grow (SnakeGame.snake g)); lia.
Qed.

Lemma reachable_sound (g : SnakeGame.t) : reachable g -> sound g.
Proof.
  induction 1 as [n cell mode rf rd rs rw rnd rnd' g Hall Hinit
                 | g d _ IH Hd
                 | g g' rnd rnd' _ IH Hrun Hall Hu].
  - eapply init_sound; eauto.
  - destruct IH as [Hss Hfs Hn Hb Hf Hroom Hwon].
    destruct (set_direction_keeps d (SnakeGame.snake g)) as (Hb1 & Hg1 & Hn1).
    constructor; cbn [SnakeGame.set_snake SnakeGame.snake SnakeGame.fruit
                      SnakeGame.grid_size SnakeGame.won SnakeGame.running];
      rewrite ?Hb1, ?Hg1, ?Hn1; auto.
  - eapply update_sound; eauto.
Qed.

(** A tick of [step] from a reachable, running game leads to a reachable
    game. *)
Lemma reachable_step (rnd rnd' : draws) (a : Z) (g g' : SnakeGame.t)
      (out : list Q * Q * bool) :
  reachable g ->
  SnakeGame.running g = true ->
  Forall (in_grid (SnakeGame.grid_size g)) rnd ->
  SnakeGame.step rnd a g = Ret (g', rnd', out) ->
  reachable g'.
Proof.
  intros Hg Hrun Hall Hstep. destruct out as [[obs r] d].
  apply step_ret in Hstep. destruct Hstep as (Ha & Hu & _).
  destruct (steer_fields a g) as ((Hn & _) & _ & _ & Hr & _).
  eapply reach_update with (g := steer a g) (rnd := rnd).
  - unfold steer. apply reach_turn; [exact Hg|].
    assert (Hcases : a = 0 \/ a = 1 \/ a = 2 \/ a = 3) by lia.
    destruct Hcases as [-> | [-> | [-> | ->]]]; simpl; auto.
  - congruence.
  - rewrite Hn. exact Hall.
  - exact Hu.
Qed.

(** In a game the callers can hold, a tick with an action in range raises
    nothing. *)
Lemma step_never_raises_when_reachable (rnd : draws) (a : Z)
      (g : SnakeGame.t) (e : exn) :
  reachable g -> 0 <= a < 4 -> SnakeGame.step rnd a g <> Raise e.
Proof.
  intros Hg Ha. destruct (reachable_sound _ Hg) as [_ _ Hn Hb _ _ _].
  rewrite step_unfold. apply in_range_iff in Ha. rewrite Ha. cbn [negb].
  destruct (SnakeGame.update rnd (steer a g)) as [[g1 r1]|e1|] eqn:Hu;
    cbn [bind]; try discriminate.
  - pose proof (update_body_nonempty _ _ _ _ Hu) as Hb1.
    apply update_ret in Hu. destruct Hu as [(Hn1 & _) _].
    destruct (steer_fields a g) as ((Hn0 & _) & _).
    destruct (get_state_total g1) as (o & ->);
      [congruence | assumption | discriminate].
  - apply update_raise in Hu. destruct Hu as [_ Hu].
    destruct (steer_fields a g) as (_ & _ & _ & _ & _ & Hbs & _).
    congruence.
Qed.

(** ** The placement loop inside the game *)

(** On the path of [update] that eats without winning, the loop runs on
    the body that [move] produced: [update] returns with the cell the loop
    returns, and is still looping when the loop is. *)
Lemma update_eating (rnd : draws) (g : SnakeGame.t) (s : Snake.t) :
  Snake.move (SnakeGame.snake g) = Ret s ->
  Snake.head s = Ret (Fruit.position (SnakeGame.fruit g)) ->
  Z.of_nat (length (Snake.body s)) + 1 <>
    SnakeGame.grid_size g * SnakeGame.grid_size g ->
  match Fruit.new_position (Fruit.grid_size (SnakeGame.fruit g))
                           (Snake.body s) rnd with
  | Ret (p, rnd') =>
      exists g', SnakeGame.update rnd g = Ret (g', rnd') /\
                 Fruit.position (SnakeGame.fruit g') = p
  | Raise _ => False
  | Spin => SnakeGame.update rnd g = Spin
  end.
Proof.
  intros Hm Hh Hlen. unfold SnakeGame.update. rewrite Hm. cbn [bind].
  cbn [SnakeGame.snake SnakeGame.set_snake SnakeGame.fruit]. rewrite Hh.
  cbn [bind]. rewrite pos_eqb_refl.
  unfold SnakeGame.check_win_condition.
  cbn [SnakeGame.snake SnakeGame.set_snake SnakeGame.set_score
       SnakeGame.grid_size Snake.grow Snake.body Snake.grow_snake
       SnakeGame.fruit].
  apply Z.eqb_neq in Hlen. rewrite Hlen.
  unfold Fruit.respawn.
  destruct (Fruit.new_position (Fruit.grid_size (SnakeGame.fruit g))
                               (Snake.body s) rnd)
    as [[p rnd']|e|] eqn:Hp; cbn [bind].
  - match goal with
    | |- exists g', bind (SnakeGame.check_collisions ?x) _ = _ /\ _ =>
        destruct (check_collisions_total x) as (g1 & Hc)
    end.
    { cbn. unfold Snake.head in Hh.
      destruct (Snake.body s); [discriminate | discriminate]. }
    rewrite Hc. cbn [bind]. exists g1. split; [reflexivity|].
    apply check_collisions_ret in Hc. destruct Hc as (h1 & rest1 & _ & ->).
    destruct (hits _ _ _); reflexivity.
  - eapply new_position_never_raises; eauto.
  - reflexivity.
Qed.

(** From a reachable game that is running, [update] returns as soon as
    the draws contain a suitable free cell of the board, and there is
    one. *)
Lemma update_returns (g : SnakeGame.t) :
  reachable g ->
  SnakeGame.running g = true ->
  exists s c,
    Snake.move (SnakeGame.snake g) = Ret s /\
    in_grid (SnakeGame.grid_size g) c /\
    ~ In c (Snake.body s) /\
    forall before after,
    exists g' rnd',
      SnakeGame.update (before ++ c :: after) g = Ret (g', rnd').
Proof.
  intros Hreach Hrun.
  destruct (reachable_sound _ Hreach) as [Hss Hfs Hn Hb Hf Hroom Hwon].
  assert (Hw : SnakeGame.won g = false).
  { destruct (SnakeGame.won g); [|reflexivity].
    rewrite (Hwon eq_refl) in Hrun. discriminate. }
  specialize (Hroom Hw).
  destruct (move_total _ Hb) as (s & Hm).
  pose proof (move_length _ _ Hm) as Hl.
  destruct (free_cell (SnakeGame.grid_size g) (Snake.body s))
    as (c & Hc & Hfree); [lia | |].
  { rewrite Hl. destruct (Snake.grow (SnakeGame.snake g)); lia. }
  exists s, c.
  split; [exact Hm|]. split; [exact Hc|]. split; [exact Hfree|].
  intros before after.
  destruct (move_ret _ _ Hm) as (h0 & rest0 & _ & Hbs & _).
  remember (before ++ c :: after) as rnd.
  destruct (outcome_pos_dec (Snake.head s)
              (Ret (Fruit.position (SnakeGame.fruit g)))) as [Hh|Hh].
  - destruct (Z.eq_dec (Z.of_nat (length (Snake.body s)) + 1)
                       (SnakeGame.grid_size g * SnakeGame.grid_size g))
      as [Hlen|Hlen].
    + unfold SnakeGame.update. rewrite Hm. cbn [bind].
      cbn [SnakeGame.snake SnakeGame.set_snake SnakeGame.fruit].
      rewrite Hh. cbn [bind]. rewrite pos_eqb_refl.
      unfold SnakeGame.check_win_condition.
      cbn [SnakeGame.snake SnakeGame.set_snake SnakeGame.set_score
           SnakeGame.grid_size Snake.grow Snake.body Snake.grow_snake].
      apply Z.eqb_eq in Hlen. rewrite Hlen. eauto.
    + pose proof (update_eating rnd g s Hm Hh Hlen) as Hu.
      destruct (new_position_exits (Fruit.grid_size (SnakeGame.fruit g))
                  (Snake.body s) c before after Hfree) as (p & rnd' & Hp).
      rewrite <- Heqrnd in Hp. rewrite Hp in Hu.
      destruct Hu as (g' & Hu & _). eauto.
  - unfold SnakeGame.update. rewrite Hm. cbn [bind].
    cbn [SnakeGame.snake SnakeGame.set_snake SnakeGame.fruit].
    unfold Snake.head in *. rewrite Hbs in *. cbn [bind].
    match goal with
    | |- context [pos_eqb ?a ?b] => destruct (pos_eqb a b) eqn:He
    end.
    + apply pos_eqb_eq in He. congruence.
    + match goal with
      | |- context [SnakeGame.check_collisions ?x] =>
          destruct (check_collisions_total x) as (g1 & Hcc)
      end.
      { cbn. rewrite Hbs. discriminate. }
      rewrite Hcc. cbn [bind]. eauto.
Qed.

(** On a board of one cell the constructor never returns: the start body
    covers the only cell. *)
Lemma one_cell_board_never_starts (cell : Z) (mode : string)
      (rf rd rs rw : Q) (rnd : draws) :
  Forall (in_grid 1) rnd ->
  SnakeGame.init 1 cell mode rf rd rs rw rnd = Spin.
Proof.
  intros Hall. unfold SnakeGame.init, Fruit.init.
  replace (Fruit.new_position 1 (Snake.body (Snake.init 1)) rnd)
    with (@Spin (pos * draws)); [reflexivity|].
  symmetry. apply new_position_spins.
  eapply Forall_impl; [|exact Hall].
  intros [x y] [Hx Hy]; cbn [fst snd] in *.
  assert (x = 0) by lia. assert (y = 0) by lia. subst.
  left. reflexivity.
Qed.

(** C10, as it was stated, fails: on [SnakeGame(grid_size=1)], which the
    constructor accepts, the placement loop runs on the start body
    [(0, 0)], [(-1, 0)], [(-2, 0)], which covers the only cell of the
    board.  No cell is free, every draw is rejected and the constructor
    does not return. *)
Lemma one_cell_board_has_no_free_cell :
  Snake.body (Snake.init 1) = [ (0, 0); (-1, 0); (-2, 0) ] /\
  (forall c, in_grid 1 c -> In c (Snake.body (Snake.init 1))) /\
  ~ (exists c, in_grid 1 c /\ ~ In c (Snake.body (Snake.init 1))) /\
  new_game 1 [ (0, 0); (0, 0); (0, 0) ] = Spin /\
  (forall cell mode rf rd rs rw rnd,
      Forall (in_grid 1) rnd ->
      SnakeGame.init 1 cell mode rf rd rs rw rnd = Spin).
Proof.
  assert (Hall : forall c, in_grid 1 c -> In c (Snake.body (Snake.init 1))).
  { intros [x y] [Hx Hy]. cbn [fst snd] in Hx, Hy.
    assert (x = 0) by lia. assert (y = 0) by lia. subst.
    left. reflexivity. }
  split; [reflexivity|]. split; [exact Hall|]. split.
  - intros (c & Hc & Hfree). apply Hfree. apply Hall. exact Hc.
  - split; [reflexivity|].
    intros cell mode rf rd rs rw rnd Hrnd.
    apply one_cell_board_never_starts. exact Hrnd.
Qed.

(** C10 (as amended).  Whenever the placement loop runs on a board of
    side at least 2, a cell of the board is free of the body, so that the
    loop can leave.
    - At construction, on a board of side at least 2: the start body
      leaves a cell free, and the constructor returns as soon as such a
      cell is drawn.
    - At respawn: in a reachable, running game whose move lands on the
      fruit without filling the board (the win test comes first), the body
      the loop runs on leaves a cell free, [update] keeps looping only
      while the loop does, and it returns as soon as a free cell is
      drawn.
    - The loop itself: for a body that occupies fewer cells than the
      board has, a free cell exists, the loop returns whenever one is
      drawn, and what it returns is never a cell of the body. *)
Theorem placement_loop_can_exit :
  (forall n : Z,
      2 <= n ->
      exists c,
        in_grid n c /\ ~ In c (Snake.body (Snake.init n)) /\
        forall cell mode rf rd rs rw before after,
        exists g rnd',
          SnakeGame.init n cell mode rf rd rs rw (before ++ c :: after)
          = Ret (g, rnd')) /\
  (forall (g : SnakeGame.t) (s : Snake.t),
      reachable g ->
      SnakeGame.running g = true ->
      Snake.move (SnakeGame.snake g) = Ret s ->
      Snake.head s = Ret (Fruit.position (SnakeGame.fruit g)) ->
      Z.of_nat (length (Snake.body s)) + 1 <>
        SnakeGame.grid_size g * SnakeGame.grid_size g ->
      (forall rnd,
          SnakeGame.update rnd g = Spin <->
          Fruit.new_position (Fruit.grid_size (SnakeGame.fruit g))
                             (Snake.body s) rnd = Spin) /\
      exists c,
        in_grid (SnakeGame.grid_size g) c /\ ~ In c (Snake.body s) /\
        forall before after,
        exists g' rnd',
          SnakeGame.update (before ++ c :: after) g = Ret (g', rnd')) /\
  (forall (n : Z) (snake_body : list pos),
      0 < n ->
      Z.of_nat (length (occupied n snake_body)) < n * n ->
      (exists c,
          in_grid n c /\ ~ In c snake_body /\
          forall before after,
          exists p rnd',
            Fruit.new_position n snake_body (before ++ c :: after)
            = Ret (p, rnd')) /\
      (forall rnd p rnd',
          Fruit.new_position n snake_body rnd = Ret (p, rnd') ->
          ~ In p snake_body /\ In p rnd)).
Proof.
  split; [|split].
  - intros n Hn.
    destruct (free_cell n (Snake.body (Snake.init n))) as (c & Hc & Hfree);
      [lia | cbn; nia |].
    exists c. split; [exact Hc|]. split; [exact Hfree|].
    intros cell mode rf rd rs rw before after.
    unfold SnakeGame.init, Fruit.init.
    destruct (new_position_exits n (Snake.body (Snake.init n)) c
                before after Hfree) as (p & rnd' & ->).
    cbn [bind]. eauto.
  - intros g s Hreach Hrun Hm Hh Hlen. split.
    + intros rnd. pose proof (update_eating rnd g s Hm Hh Hlen) as Hu.
      destruct (Fruit.new_position _ _ rnd) as [[p rnd']|e|].
      * destruct Hu as (g' & -> & _). split; discriminate.
      * contradiction.
      * tauto.
    + destruct (update_returns g Hreach Hrun)
        as (s' & c & Hm' & Hc & Hfree & Hret).
      rewrite Hm in Hm'. inversion Hm'; subst s'.
      exists c. auto.
  - intros n snake_body Hn Hlen. split.
    + destruct (free_cell_of_occupied n snake_body Hn Hlen)
        as (c & Hc & Hfree).
      exists c. split; [exact Hc|]. split; [exact Hfree|].
      intros before after. apply new_position_exits. exact Hfree.
    + intros rnd p rnd' H. apply new_position_ret in H.
      destruct H as (Hp & skipped & -> & _). split; [exact Hp|].
      apply in_or_app. right. left. reflexivity.
Qed.

(** ** The replay memory and [optimize_model] *)

Lemma set_nth_length {A : Type} (n : nat) (v : A) (l : list A) :
  length (set_nth n v l) = length l.
Proof.
  revert n. induction l as [|a l IH]; intros [|n]; simpl; auto.
Qed.

Section MemoryFacts.

Context {transition : Type}.

(** [sample] fails for want of data exactly when fewer than [batch_size]
    entries are stored. *)
Lemma sample_insufficient (picks : nat -> nat) (batch_size : Z)
      (m : @PrioritizedReplayMemory.t transition) :
  PrioritizedReplayMemory.sample picks batch_size m
    = Raise InsufficientDataError <->
  PrioritizedReplayMemory.len m < batch_size.
Proof.
  unfold PrioritizedReplayMemory.sample.
  destruct (PrioritizedReplayMemory.len m <? batch_size) eqn:H.
  - apply Z.ltb_lt in H. tauto.
  - apply Z.ltb_ge in H. split; [discriminate | lia].
Qed.

Lemma sample_ret (picks : nat -> nat) (batch_size : Z) (m : @PrioritizedReplayMemory.t transition)
      (batch : list transition) (idxs : list nat) :
  PrioritizedReplayMemory.sample picks batch_size m = Ret (batch, idxs) ->
  0 < batch_size ->
  Forall (fun i => (i < length (PrioritizedReplayMemory.slots m))%nat) idxs.
Proof.
  unfold PrioritizedReplayMemory.sample, PrioritizedReplayMemory.len.
  destruct (_ <? batch_size) eqn:H; [discriminate|].
  apply Z.ltb_ge in H. intros Hr Hb. inversion Hr; subst.
  apply Forall_forall. intros i Hi. apply in_map_iff in Hi.
  destruct Hi as (k & <- & _). apply Nat.mod_upper_bound. lia.
Qed.

Lemma update_priorities_returns (idxs : list nat) (priorities : list Q)
      (m : @PrioritizedReplayMemory.t transition) :
  Forall (fun i => (i < length (PrioritizedReplayMemory.slots m))%nat) idxs ->
  exists m',
    PrioritizedReplayMemory.update_priorities idxs priorities m = Ret m' /\
    PrioritizedReplayMemory.len m' = PrioritizedReplayMemory.len m.
Proof.
  revert priorities m.
  induction idxs as [|i idxs IH]; intros priorities m Hall.
  - simpl. eauto.
  - destruct priorities as [|p priorities]; [simpl; eauto|].
    inversion Hall as [|? ? Hi Hrest]; subst.
    cbn [PrioritizedReplayMemory.update_priorities].
    destruct (nth_error (PrioritizedReplayMemory.slots m) i)
      as [[tr q]|] eqn:Hn.
    + match goal with
      | |- context [PrioritizedReplayMemory.update_priorities _ _ ?m1] =>
          destruct (IH priorities m1) as (m' & Hm' & Hlen)
      end.
      * cbn [PrioritizedReplayMemory.slots]. rewrite set_nth_length.
        exact Hrest.
      * exists m'. split; [exact Hm'|]. rewrite Hlen.
        unfold PrioritizedReplayMemory.len.
        cbn [PrioritizedReplayMemory.slots]. rewrite set_nth_length.
        reflexivity.
    + apply nth_error_None in Hn. lia.
Qed.

End MemoryFacts.

(** ** The training loop *)

Lemma refreshes_app (l1 l2 : list Train.event) :
  refreshes (l1 ++ l2) = refreshes l1 ++ refreshes l2.
Proof.
  induction l1 as [|[v b|c] l1 IH]; simpl; auto. rewrite IH. reflexivity.
Qed.

Section TrainerFacts.

Context {observation net : Type}.
Variable backward :
  net -> net -> list (@Train.transition observation) -> net * Q * list Q.
Variable optimizer_step : net -> net.

(** What a call of [optimize_model] does to the trainer. *)
Lemma optimize_model_cases (picks : nat -> nat)
      (st : @Train.t observation net) :
  (PrioritizedReplayMemory.len (Train.memory st) < Train.BATCH_SIZE /\
   Train.optimize_model backward optimizer_step picks st = Ret (None, st)) \/
  (Train.BATCH_SIZE <= PrioritizedReplayMemory.len (Train.memory st) /\
   exists res st',
     Train.optimize_model backward optimizer_step picks st = Ret (res, st') /\
     Train.log st' =
       Train.log st ++
       [Train.Sampled (PrioritizedReplayMemory.len (Train.memory st))
                      Train.BATCH_SIZE] /\
     Train.step_count st' = Train.step_count st /\
     Train.target_net st' = Train.target_net st /\
     Train.episode_counts st' = Train.episode_counts st /\
     PrioritizedReplayMemory.len (Train.memory st') =
       PrioritizedReplayMemory.len (Train.memory st)).
Proof.
  unfold Train.optimize_model.
  destruct (PrioritizedReplayMemory.len (Train.memory st) <? Train.BATCH_SIZE)
    eqn:Hlen.
  - left. apply Z.ltb_lt in Hlen. auto.
  - right. pose proof Hlen as Hlen'. apply Z.ltb_ge in Hlen.
    split; [exact Hlen|].
    destruct (PrioritizedReplayMemory.sample picks Train.BATCH_SIZE
                (Train.memory st)) as [[batch idxs]|e|] eqn:Hs.
    + cbn [bind].
      destruct (backward (Train.policy_net st) (Train.target_net st) batch)
        as [[policy loss] td_errors].
      apply sample_ret in Hs; [|reflexivity].
      destruct (update_priorities_returns idxs td_errors (Train.memory st) Hs)
        as (m' & Hm' & Hl).
      destruct ((Train.accum_step st + 1) mod Train.GRAD_ACCUM_STEPS =? 0);
        rewrite Hm'; cbn [bind]; eexists; eexists;
        (split; [reflexivity|]); cbn; auto.
    + exfalso. unfold PrioritizedReplayMemory.sample in Hs.
      rewrite Hlen' in Hs. discriminate.
    + exfalso. unfold PrioritizedReplayMemory.sample in Hs.
      rewrite Hlen' in Hs. discriminate.
Qed.

(** What one pass through the loop body does to the counter, to the
    target network and to the log. *)
Lemma tick_cases (inp : @Train.tick_input observation)
      (st : @Train.t observation net) :
  exists st' sampled,
    Train.tick backward optimizer_step inp st = Ret st' /\
    Train.step_count st' = Train.step_count st + Train.NUM_ENVS /\
    Train.log st' =
      Train.log st ++ sampled ++
      (if due (Train.step_count st)
       then [Train.Refreshed (Train.step_count st)] else []) /\
    Forall sample_guarded sampled /\
    refreshes sampled = [] /\
    (if due (Train.step_count st)
     then Train.target_net st' = Train.policy_net st'
     else Train.target_net st' = Train.target_net st).
Proof.
  unfold Train.tick.
  match goal with
  | |- context [Train.optimize_model _ _ (Train.picks inp) ?s] =>
      destruct (optimize_model_cases (Train.picks inp) s)
        as [[Hlen Ho] | (Hlen & res & st1 & Ho & Hlog & Hsc & Htg & _)];
      rewrite Ho; cbn [bind]
  end.
  - cbn [Train.step_count Train.log Train.target_net Train.policy_net].
    unfold due.
    destruct (Train.step_count st mod Train.TARGET_UPDATE_FREQ =? 0);
      eexists; exists []; cbn; rewrite ?app_nil_r; repeat split; auto.
  - cbn [Train.step_count Train.log Train.target_net] in Hlog, Hsc, Htg.
    unfold due.
    match type of Hlog with
    | _ = _ ++ ?l =>
        destruct (Train.step_count st mod Train.TARGET_UPDATE_FREQ =? 0)
          eqn:Hdue;
        eexists; exists l;
        cbn [Train.step_count Train.log Train.target_net Train.policy_net];
        rewrite Hsc, Hlog, ?Hdue, <- ?app_assoc, ?app_nil_r
    end;
      (split; [reflexivity|]);
      (split; [reflexivity|]); (split; [reflexivity|]);
      (split; [repeat constructor; auto|]); auto.
Qed.

Lemma ticks_cases (inputs : list (@Train.tick_input observation))
      (st : @Train.t observation net) :
  exists st',
    Train.ticks backward optimizer_step inputs st = Ret st' /\
    Train.step_count st' =
      Train.step_count st + Train.NUM_ENVS * Z.of_nat (length inputs) /\
    refreshes (Train.log st') =
      refreshes (Train.log st) ++
      filter due (counts_from (Train.step_count st) (length inputs)) /\
    (Forall sample_guarded (Train.log st) ->
     Forall sample_guarded (Train.log st')).
Proof.
  revert st. induction inputs as [|inp inputs IH]; intros st.
  - exists st. cbn. rewrite app_nil_r. repeat split; auto. lia.
  - destruct (tick_cases inp st)
      as (st1 & sampled & Ht & Hsc & Hlog & Hguard & Hnone & _).
    destruct (IH st1) as (st' & Hts & Hsc' & Hlog' & Hguard').
    exists st'. cbn [Train.ticks]. rewrite Ht. cbn [bind].
    split; [exact Hts|]. split; [|split].
    + rewrite Hsc', Hsc. cbn [length]. lia.
    + rewrite Hlog', Hlog, Hsc, !refreshes_app, Hnone.
      cbn [length counts_from filter].
      destruct (due (Train.step_count st)); cbn [refreshes app];
        rewrite <- ?app_assoc, ?app_nil_r; reflexivity.
    + intros Hall. apply Hguard'. rewrite Hlog.
      apply Forall_app. split; [exact Hall|].
      apply Forall_app. split; [exact Hguard|].
      destruct (due (Train.step_count st)); repeat constructor.
Qed.

(** The loop of [main] is a prefix of its ticks. *)
Lemma main_ticks (inputs : list (@Train.tick_input observation))
      (st st' : @Train.t observation net) :
  Train.main backward optimizer_step inputs st = Ret st' ->
  exists k,
    (k <= length inputs)%nat /\
    Train.ticks backward optimizer_step (firstn k inputs) st = Ret st'.
Proof.
  revert st. induction inputs as [|inp inputs IH]; intros st; cbn [Train.main].
  - destruct (_ <? _); [discriminate|].
    intros H; inversion H; subst. exists 0%nat. auto.
  - destruct (_ <? _).
    + destruct (Train.tick backward optimizer_step inp st) as [st1| |] eqn:Ht;
        cbn [bind]; try discriminate.
      intros H. destruct (IH _ H) as (k & Hk & Hts).
      exists (S k). split; [cbn [length]; lia|].
      cbn [firstn Train.ticks]. rewrite Ht. exact Hts.
    + intros H; inversion H; subst. exists 0%nat.
      split; [lia | reflexivity].
Qed.

(** C8.  Every pass through the loop body adds [NUM_ENVS] to the step
    counter, and the target network is refreshed on exactly those passes
    that find the counter a multiple of [TARGET_UPDATE_FREQ]: after any
    number of passes the refreshes recorded are the multiples met by the
    counter on its way, whatever the games returned and however many
    episodes were completed.  The loop of [main] is a prefix of these
    passes. *)
Theorem target_refresh_cadence
        (inputs : list (@Train.tick_input observation))
        (st : @Train.t observation net) :
  (forall inp,
      exists st1,
        Train.tick backward optimizer_step inp st = Ret st1 /\
        Train.step_count st1 = Train.step_count st + Train.NUM_ENVS /\
        (if Train.step_count st mod Train.TARGET_UPDATE_FREQ =? 0
         then Train.target_net st1 = Train.policy_net st1 /\
              refreshes (Train.log st1) =
                refreshes (Train.log st) ++ [Train.step_count st]
         else Train.target_net st1 = Train.target_net st /\
              refreshes (Train.log st1) = refreshes (Train.log st))) /\
  (exists st',
      Train.ticks backward optimizer_step inputs st = Ret st' /\
      Train.step_count st' =
        Train.step_count st + Train.NUM_ENVS * Z.of_nat (length inputs) /\
      refreshes (Train.log st') =
        refreshes (Train.log st) ++
        filter (fun c => c mod Train.TARGET_UPDATE_FREQ =? 0)
               (counts_from (Train.step_count st) (length inputs)) /\
      forall inputs',
        length inputs' = length inputs ->
        exists st'',
          Train.ticks backward optimizer_step inputs' st = Ret st'' /\
          Train.step_count st'' = Train.step_count st' /\
          refreshes (Train.log st'') = refreshes (Train.log st')) /\
  (forall st_end,
      Train.main backward optimizer_step inputs st = Ret st_end ->
      exists k,
        (k <= length inputs)%nat /\
        Train.step_count st_end =
          Train.step_count st + Train.NUM_ENVS * Z.of_nat k /\
        refreshes (Train.log st_end) =
          refreshes (Train.log st) ++
          filter (fun c => c mod Train.TARGET_UPDATE_FREQ =? 0)
                 (counts_from (Train.step_count st) k)).
Proof.
  split; [|split].
  - intros inp.
    destruct (tick_cases inp st)
      as (st1 & sampled & Ht & Hsc & Hlog & _ & Hnone & Htg).
    exists st1. split; [exact Ht|]. split; [exact Hsc|].
    unfold due in *. rewrite Hlog, !refreshes_app, Hnone.
    destruct (Train.step_count st mod Train.TARGET_UPDATE_FREQ =? 0);
      cbn [refreshes app]; rewrite ?app_nil_r; auto.
  - destruct (ticks_cases inputs st) as (st' & Hts & Hsc & Hlog & _).
    exists st'. split; [exact Hts|]. split; [exact Hsc|].
    split; [exact Hlog|].
    intros inputs' Hlen.
    destruct (ticks_cases inputs' st) as (st'' & Hts' & Hsc' & Hlog' & _).
    exists st''. split; [exact Hts'|].
    rewrite Hsc', Hsc, Hlog', Hlog, Hlen. auto.
  - intros st_end Hmain.
    destruct (main_ticks _ _ _ Hmain) as (k & Hk & Hts).
    destruct (ticks_cases (firstn k inputs) st)
      as (st' & Hts' & Hsc & Hlog & _).
    rewrite Hts in Hts'. inversion Hts'; subst st'.
    rewrite length_firstn, Nat.min_l in Hsc, Hlog by exact Hk.
    exists k. auto.
Qed.

(** C9.  [optimize_model] returns [None] and touches nothing, the memory
    included, whenever fewer than [BATCH_SIZE] entries are stored; when it
    does call [sample], at least [BATCH_SIZE] entries are stored, so that
    the call cannot fail for want of data and [optimize_model] raises
    nothing.  Hence every call of [sample] made by the passes of the
    training loop finds at least [BATCH_SIZE] entries. *)
Theorem optimize_model_guards_sample (picks : nat -> nat)
        (st : @Train.t observation net) :
  (PrioritizedReplayMemory.len (Train.memory st) < Train.BATCH_SIZE ->
   Train.optimize_model backward optimizer_step picks st = Ret (None, st)) /\
  (forall res st',
      Train.optimize_model backward optimizer_step picks st
        = Ret (res, st') ->
      (PrioritizedReplayMemory.len (Train.memory st) < Train.BATCH_SIZE /\
       st' = st /\ res = None) \/
      (Train.BATCH_SIZE <= PrioritizedReplayMemory.len (Train.memory st) /\
       Train.log st' =
         Train.log st ++
         [Train.Sampled (PrioritizedReplayMemory.len (Train.memory st))
                        Train.BATCH_SIZE] /\
       exists out,
         PrioritizedReplayMemory.sample picks Train.BATCH_SIZE
                                        (Train.memory st) = Ret out)) /\
  (forall e,
      Train.optimize_model backward optimizer_step picks st <> Raise e) /\
  (forall (picks' : nat -> nat) (batch_size : Z),
      PrioritizedReplayMemory.sample picks' batch_size (Train.memory st)
        = Raise InsufficientDataError <->
      PrioritizedReplayMemory.len (Train.memory st) < batch_size) /\
  (forall inputs st_end,
      Forall sample_guarded (Train.log st) ->
      Train.ticks backward optimizer_step inputs st = Ret st_end ->
      Forall sample_guarded (Train.log st_end)).
Proof.
  pose proof (optimize_model_cases picks st) as Hcases.
  split; [|split; [|split; [|split]]].
  - intros Hlen. destruct Hcases as [[_ H]|[Hge _]]; [exact H | lia].
  - intros res st' Ho.
    destruct Hcases as [[Hlen H]|(Hge & res1 & st1 & H & Hlog & _)];
      rewrite H in Ho; inversion Ho; subst.
    + left. auto.
    + right. split; [exact Hge|]. split; [exact Hlog|].
      destruct (PrioritizedReplayMemory.sample picks Train.BATCH_SIZE
                  (Train.memory st)) as [out|e|] eqn:Hs.
      * eauto.
      * exfalso. unfold PrioritizedReplayMemory.sample in Hs.
        apply Z.ltb_ge in Hge. rewrite Hge in Hs. discriminate.
      * exfalso. unfold PrioritizedReplayMemory.sample in Hs.
        apply Z.ltb_ge in Hge. rewrite Hge in Hs. discriminate.
  - intros e He.
    destruct Hcases as [[_ H]|(_ & res1 & st1 & H & _)];
      rewrite H in He; discriminate.
  - intros picks' batch_size. apply sample_insufficient.
  - intros inputs st_end Hall Hts.
    destruct (ticks_cases inputs st) as (st' & Hts' & _ & _ & Hguard).
    rewrite Hts in Hts'. inversion Hts'; subst st'. auto.
Qed.

End TrainerFacts.

(** With 64 games and a refresh every 1000 steps, the counter is a
    multiple of 1000 on one pass in 125: the target is refreshed every
    8000 environment steps. *)
Lemma refresh_every_125_ticks (i : Z) :
  (Train.NUM_ENVS * i) mod Train.TARGET_UPDATE_FREQ = 0 <-> i mod 125 = 0.
Proof.
  unfold Train.NUM_ENVS, Train.TARGET_UPDATE_FREQ.
  rewrite !Z.mod_divide by lia. split.
  - intros [k Hk]. apply Z.gauss with (m := 8); [|reflexivity].
    exists k. lia.
  - intros [k Hk]. exists (8 * k). lia.
Qed.

(** ** The observation *)

Lemma get_state_ret (g : SnakeGame.t) (obs : list Q) :
  SnakeGame.get_state g = Ret obs ->
  exists hx hy,
    Snake.head (SnakeGame.snake g) = Ret (hx, hy) /\
    0 <= SnakeGame.grid_size g /\
    SnakeGame.grid_size g <> 1 /\
    obs =
      concat (board g) ++ one_hot g ++
      [ (inject_Z (fst (Fruit.position (SnakeGame.fruit g)) - hx)
         / inject_Z (SnakeGame.grid_size g - 1))%Q;
        (inject_Z (snd (Fruit.position (SnakeGame.fruit g)) - hy)
         / inject_Z (SnakeGame.grid_size g - 1))%Q ].
Proof.
  unfold SnakeGame.get_state, board, one_hot.
  destruct (SnakeGame.grid_size g <? 0) eqn:Hn; [discriminate|].
  apply Z.ltb_ge in Hn.
  destruct (Fruit.position (SnakeGame.fruit g)) as [fx fy].
  destruct (Snake.head (SnakeGame.snake g)) as [[hx hy]| |]; cbn [bind];
    try discriminate.
  destruct (SnakeGame.grid_size g - 1 =? 0) eqn:H1; [discriminate|].
  apply Z.eqb_neq in H1.
  intros H; inversion H; subst. exists hx, hy.
  repeat split; auto; lia.
Qed.

Lemma set_nth_nth {A : Type} (n k : nat) (v d : A) (l : list A) :
  (n < length l)%nat ->
  nth k (set_nth n v l) d = if (n =? k)%nat then v else nth k l d.
Proof.
  revert n k. induction l as [|a l IH]; intros [|n] [|k] Hn;
    simpl in *; try lia; auto.
  apply IH. lia.
Qed.

Lemma zeros2_shaped (rows cols : nat) : shaped rows cols (zeros2 rows cols).
Proof.
  unfold shaped, zeros2, zeros. split.
  - apply repeat_length.
  - apply Forall_forall. intros row Hrow. apply repeat_spec in Hrow.
    subst. apply repeat_length.
Qed.

Lemma set_nth_In {A : Type} (n : nat) (v r : A) (l : list A) :
  In r (set_nth n v l) -> r = v \/ In r l.
Proof.
  revert n. induction l as [|a l IH]; intros [|n]; simpl; auto.
  - intros [<-|H]; auto.
  - intros [<-|H]; auto. destruct (IH _ H); auto.
Qed.

Lemma set2_shaped (rows cols x y : nat) (v : Q) (state : list (list Q)) :
  shaped rows cols state -> shaped rows cols (set2 x y v state).
Proof.
  intros [Hr Hc]. unfold set2.
  destruct (nth_error state x) as [row|] eqn:Hx; [|split; assumption].
  split; [rewrite set_nth_length; exact Hr|].
  rewrite Forall_forall in Hc. apply Forall_forall. intros r Hin.
  apply set_nth_In in Hin. destruct Hin as [->|Hin].
  - rewrite set_nth_length. apply Hc. eapply nth_error_In; eauto.
  - apply Hc. exact Hin.
Qed.

Lemma get2_set2 (rows cols x y x' y' : nat) (v : Q)
      (state : list (list Q)) :
  shaped rows cols state ->
  (x < rows)%nat -> (y < cols)%nat ->
  get2 (set2 x y v state) x' y' =
  if ((x =? x') && (y =? y'))%nat then v else get2 state x' y'.
Proof.
  intros [Hr Hc] Hx Hy. unfold set2, get2.
  destruct (nth_error state x) as [row|] eqn:Hrow.
  - assert (Hlen : length row = cols).
    { rewrite Forall_forall in Hc. apply Hc. eapply nth_error_In; eauto. }
    rewrite set_nth_nth by lia.
    destruct (x =? x')%nat eqn:Hxx; cbn [andb]; [|reflexivity].
    apply Nat.eqb_eq in Hxx. subst x'.
    rewrite set_nth_nth by lia.
    destruct (y =? y')%nat; [reflexivity|].
    rewrite (nth_error_nth _ _ _ Hrow). reflexivity.
  - apply nth_error_None in Hrow. lia.
Qed.

Lemma draw_body_shaped (n : Z) (snake_body : list pos)
      (state : list (list Q)) :
  shaped (Z.to_nat n) (Z.to_nat n) state ->
  shaped (Z.to_nat n) (Z.to_nat n) (draw_body n snake_body state).
Proof.
  revert state. unfold draw_body.
  induction snake_body as [|[x y] l IH]; intros state Hs; simpl; auto.
  apply IH. destruct (in_range x n && in_range y n); auto.
  apply set2_shaped. exact Hs.
Qed.

Lemma draw_body_get2 (n : Z) (snake_body : list pos)
      (state : list (list Q)) (x y : Z) :
  shaped (Z.to_nat n) (Z.to_nat n) state ->
  0 <= x < n -> 0 <= y < n ->
  get2 (draw_body n snake_body state) (Z.to_nat x) (Z.to_nat y) =
  if pos_in (x, y) snake_body then 1%Q
  else get2 state (Z.to_nat x) (Z.to_nat y).
Proof.
  revert state. unfold draw_body.
  induction snake_body as [|[bx by_] l IH]; intros state Hs Hx Hy;
    simpl; auto.
  rewrite IH by
    (auto; destruct (in_range bx n && in_range by_ n); auto;
     apply set2_shaped; exact Hs).
  destruct (pos_in (x, y) l) eqn:Hin.
  - rewrite orb_true_r. reflexivity.
  - rewrite orb_false_r.
    destruct (in_range bx n && in_range by_ n) eqn:Hb.
    + apply andb_true_iff in Hb. destruct Hb as [Hbx Hby].
      apply in_range_iff in Hbx, Hby.
      rewrite (get2_set2 (Z.to_nat n) (Z.to_nat n)) by (auto; lia).
      unfold pos_eqb; cbn [fst snd].
      destruct (x =? bx) eqn:E1; destruct (y =? by_) eqn:E2;
        rewrite ?Z.eqb_eq, ?Z.eqb_neq in *; subst;
        rewrite ?Nat.eqb_refl; cbn [andb]; try reflexivity.
      * replace (Z.to_nat by_ =? Z.to_nat y)%nat with false
          by (symmetry; apply Nat.eqb_neq; lia).
        reflexivity.
      * replace (Z.to_nat bx =? Z.to_nat x)%nat with false
          by (symmetry; apply Nat.eqb_neq; lia).
        reflexivity.
      * replace (Z.to_nat bx =? Z.to_nat x)%nat with false
          by (symmetry; apply Nat.eqb_neq; lia).
        reflexivity.
    + replace (pos_eqb (x, y) (bx, by_)) with false; [reflexivity|].
      symmetry. apply pos_eqb_neq. intros H; inversion H; subst.
      apply andb_false_iff in Hb.
      destruct Hb as [Hb|Hb]; apply not_true_iff_false in Hb;
        apply Hb; apply in_range_iff; lia.
Qed.

Lemma zeros2_get2 (rows cols x y : nat) : get2 (zeros2 rows cols) x y = 0%Q.
Proof.
  unfold get2, zeros2, zeros.
  destruct (Nat.lt_ge_cases x rows) as [Hx|Hx].
  - rewrite nth_repeat_lt by exact Hx. apply nth_repeat.
  - rewrite (nth_overflow (repeat (repeat 0%Q cols) rows))
      by (rewrite repeat_length; exact Hx).
    destruct y; reflexivity.
Qed.

(** The cells of the grid tensor: 2 on the fruit, 1 on the other cells of
    the body, 0 elsewhere. *)
Lemma board_cell (g : SnakeGame.t) (x y : Z) :
  0 <= x < SnakeGame.grid_size g ->
  0 <= y < SnakeGame.grid_size g ->
  get2 (board g) (Z.to_nat x) (Z.to_nat y) =
  if pos_eqb (x, y) (Fruit.position (SnakeGame.fruit g)) then 2%Q
  else if pos_in (x, y) (Snake.body (SnakeGame.snake g)) then 1%Q
  else 0%Q.
Proof.
  intros Hx Hy. unfold board.
  set (n := SnakeGame.grid_size g) in *.
  change (fold_left _ (Snake.body (SnakeGame.snake g))
                    (zeros2 (Z.to_nat n) (Z.to_nat n)))
    with (draw_body n (Snake.body (SnakeGame.snake g))
                    (zeros2 (Z.to_nat n) (Z.to_nat n))).
  pose proof (draw_body_shaped n (Snake.body (SnakeGame.snake g)) _
                (zeros2_shaped (Z.to_nat n) (Z.to_nat n))) as Hs.
  pose proof (draw_body_get2 n (Snake.body (SnakeGame.snake g)) _ x y
                (zeros2_shaped (Z.to_nat n) (Z.to_nat n)) Hx Hy) as Hd.
  rewrite zeros2_get2 in Hd.
  destruct (Fruit.position (SnakeGame.fruit g)) as [fx fy].
  destruct (in_range fx n && in_range fy n) eqn:Hf.
  - apply andb_true_iff in Hf. destruct Hf as [Hfx Hfy].
    apply in_range_iff in Hfx, Hfy.
    rewrite (get2_set2 (Z.to_nat n) (Z.to_nat n)) by (auto; lia).
    rewrite Hd. unfold pos_eqb; cbn [fst snd].
    destruct (x =? fx) eqn:E1; destruct (y =? fy) eqn:E2;
      rewrite ?Z.eqb_eq, ?Z.eqb_neq in *; subst;
      rewrite ?Nat.eqb_refl; cbn [andb]; try reflexivity.
    + replace (Z.to_nat fy =? Z.to_nat y)%nat with false
        by (symmetry; apply Nat.eqb_neq; lia).
      reflexivity.
    + replace (Z.to_nat fx =? Z.to_nat x)%nat with false
        by (symmetry; apply Nat.eqb_neq; lia).
      reflexivity.
    + replace (Z.to_nat fx =? Z.to_nat x)%nat with false
        by (symmetry; apply Nat.eqb_neq; lia).
      reflexivity.
  - rewrite Hd.
    replace (pos_eqb (x, y) (fx, fy)) with false; [reflexivity|].
    symmetry. apply pos_eqb_neq. intros H; inversion H; subst.
    apply andb_false_iff in Hf.
    destruct Hf as [Hf|Hf]; apply not_true_iff_false in Hf;
      apply Hf; apply in_range_iff; lia.
Qed.

Lemma concat_shaped_length (rows cols : nat) (state : list (list Q)) :
  shaped rows cols state -> length (concat state) = (rows * cols)%nat.
Proof.
  revert rows. induction state as [|row state IH]; intros rows [Hr Hc].
  - simpl in *. subst. reflexivity.
  - inversion Hc as [|? ? Hrow Hrest]; subst. simpl.
    rewrite length_app, (IH (length state)) by (split; auto). lia.
Qed.

(** [flatten] lays the rows end to end: entry [x * cols + y] of the flat
    tensor is [state[x, y]]. *)
Lemma concat_shaped_nth (rows cols x y : nat) (state : list (list Q)) :
  shaped rows cols state ->
  (x < rows)%nat -> (y < cols)%nat ->
  nth (x * cols + y) (concat state) 0%Q = get2 state x y.
Proof.
  unfold get2. revert rows x.
  induction state as [|row state IH]; intros rows x [Hr Hc] Hx Hy.
  - simpl in Hr. lia.
  - apply Forall_cons_iff in Hc. destruct Hc as [Hrow Hrest].
    simpl in Hr. simpl concat.
    destruct x as [|x].
    + simpl. rewrite app_nth1 by lia. reflexivity.
    + rewrite app_nth2 by (rewrite Hrow; simpl; lia).
      replace (S x * cols + y - length row)%nat
        with (x * cols + y)%nat by (rewrite Hrow; simpl; lia).
      simpl nth at 2.
      apply (IH (length state)); [split; auto | lia | exact Hy].
Qed.

Lemma board_shaped (g : SnakeGame.t) :
  shaped (Z.to_nat (SnakeGame.grid_size g)) (Z.to_nat (SnakeGame.grid_size g))
         (board g).
Proof.
  unfold board. set (n := SnakeGame.grid_size g).
  change (fold_left _ (Snake.body (SnakeGame.snake g))
                    (zeros2 (Z.to_nat n) (Z.to_nat n)))
    with (draw_body n (Snake.body (SnakeGame.snake g))
                    (zeros2 (Z.to_nat n) (Z.to_nat n))).
  pose proof (draw_body_shaped n (Snake.body (SnakeGame.snake g)) _
                (zeros2_shaped (Z.to_nat n) (Z.to_nat n))) as Hs.
  destruct (Fruit.position (SnakeGame.fruit g)) as [fx fy].
  destruct (in_range fx n && in_range fy n); auto.
  apply set2_shaped. exact Hs.
Qed.

(** The direction tensor is the one-hot vector of the index of the
    direction in the order Up, Down, Left, Right. *)
Lemma one_hot_of_action (g : SnakeGame.t) (i : nat) :
  nth_error ACTIONS i = Some (Snake.direction (SnakeGame.snake g)) ->
  one_hot g = set_nth i 1%Q [0%Q; 0%Q; 0%Q; 0%Q] /\
  ACTIONS = [ (0, -1); (0, 1); (-1, 0); (1, 0) ].
Proof.
  unfold one_hot. intros H. split; [|reflexivity].
  destruct i as [|[|[|[|i]]]]; simpl in H;
    [ | | | | destruct i; discriminate ];
    injection H as Hd; rewrite <- Hd; reflexivity.
Qed.

(** The relative position of the fruit is within [-1, 1] when the head
    and the fruit are both on the board. *)
Lemma rel_fruit_bounded (n f h : Z) :
  2 <= n -> 0 <= f < n -> 0 <= h < n ->
  (-1 <= inject_Z (f - h) / inject_Z (n - 1) /\
   inject_Z (f - h) / inject_Z (n - 1) <= 1)%Q.
Proof.
  intros Hn Hf Hh.
  assert (Hpos : (0 < inject_Z (n - 1))%Q).
  { change 0%Q with (inject_Z 0). rewrite <- Zlt_Qlt. lia. }
  split.
  - apply Qle_shift_div_l; [exact Hpos|].
    change (-1)%Q with (inject_Z (-1)).
    rewrite <- inject_Z_mult, <- Zle_Qle. lia.
  - apply Qle_shift_div_r; [exact Hpos|].
    change 1%Q with (inject_Z 1).
    rewrite <- inject_Z_mult, <- Zle_Qle. lia.
Qed.

(** The part of C4 that holds: the observation has [n * n + 4 + 2]
    entries; entry [x * n + y] is 2 on the fruit, 1 on the other body
    cells, 0 elsewhere; then comes the direction tensor, then the two
    relative coordinates of the fruit, which lie within [-1, 1] as long
    as the head is on the board. *)
Lemma observation_layout (g : SnakeGame.t) (obs : list Q) :
  SnakeGame.get_state g = Ret obs ->
  let n := SnakeGame.grid_size g in
  exists hx hy,
    Snake.head (SnakeGame.snake g) = Ret (hx, hy) /\
    obs =
      concat (board g) ++ one_hot g ++
      [ (inject_Z (fst (Fruit.position (SnakeGame.fruit g)) - hx)
         / inject_Z (n - 1))%Q;
        (inject_Z (snd (Fruit.position (SnakeGame.fruit g)) - hy)
         / inject_Z (n - 1))%Q ] /\
    length obs = (Z.to_nat (n * n) + 4 + 2)%nat /\
    (forall x y,
        0 <= x < n -> 0 <= y < n ->
        nth (Z.to_nat (x * n + y)) obs 0%Q =
        if pos_eqb (x, y) (Fruit.position (SnakeGame.fruit g)) then 2%Q
        else if pos_in (x, y) (Snake.body (SnakeGame.snake g)) then 1%Q
        else 0%Q) /\
    (2 <= n ->
     in_grid n (hx, hy) ->
     in_grid n (Fruit.position (SnakeGame.fruit g)) ->
     Forall (fun v => -1 <= v /\ v <= 1)%Q (skipn (Z.to_nat (n * n) + 4) obs)).
Proof.
  intros Hs n. apply get_state_ret in Hs.
  destruct Hs as (hx & hy & Hh & Hn & Hn1 & ->). fold n in Hn, Hn1 |- *.
  exists hx, hy. split; [exact Hh|]. split; [reflexivity|].
  pose proof (board_shaped g) as Hshape. fold n in Hshape.
  pose proof (concat_shaped_length _ _ _ Hshape) as Hlen.
  assert (Hnn : (Z.to_nat n * Z.to_nat n)%nat = Z.to_nat (n * n))
    by (rewrite Z2Nat.inj_mul by lia; reflexivity).
  rewrite Hnn in Hlen.
  assert (Hhot : length (one_hot g) = 4%nat)
    by (unfold one_hot; rewrite set_nth_length; reflexivity).
  split; [|split].
  - rewrite !length_app, Hlen, Hhot. simpl. lia.
  - intros x y Hx Hy.
    rewrite app_nth1 by (rewrite Hlen; nia).
    replace (Z.to_nat (x * n + y))
      with (Z.to_nat x * Z.to_nat n + Z.to_nat y)%nat
      by (rewrite Z2Nat.inj_add, Z2Nat.inj_mul by nia; reflexivity).
    rewrite (concat_shaped_nth _ _ _ _ _ Hshape) by lia.
    apply board_cell; assumption.
  - intros H2 [Hhx Hhy] [Hfx Hfy]. cbn [fst snd] in Hhx, Hhy.
    rewrite app_assoc, skipn_app.
    replace (skipn (Z.to_nat (n * n) + 4) (concat (board g) ++ one_hot g))
      with (@nil Q)
      by (symmetry; apply skipn_all2; rewrite length_app, Hlen, Hhot; lia).
    rewrite length_app, Hlen, Hhot, Nat.sub_diag. cbn [skipn app].
    repeat constructor; apply rel_fruit_bounded; assumption.
Qed.

(** While a reachable game is running, the head is on the board. *)
Lemma reachable_head_on_board (g : SnakeGame.t) :
  reachable g ->
  SnakeGame.running g = true ->
  exists h,
    Snake.head (SnakeGame.snake g) = Ret h /\
    in_grid (SnakeGame.grid_size g) h.
Proof.
  induction 1 as [n cell mode rf rd rs rw rnd rnd' g Hall Hinit
                 | g d Hg IH Hd
                 | g g' rnd rnd' Hg IH Hrun Hall Hu]; intros Hr.
  - pose proof (init_sound _ _ _ _ _ _ _ _ _ _ Hall Hinit) as Hs.
    destruct Hs as [_ _ Hn _ _ _ _].
    apply init_ret in Hinit. destruct Hinit as (p & _ & ->).
    cbn in Hn |- *. eexists. split; [reflexivity|].
    unfold in_grid; cbn [fst snd].
    pose proof (Z.div_pos n 2 ltac:(lia) ltac:(lia)).
    assert (n / 2 < n) by (apply Z.div_lt_upper_bound; lia).
    lia.
  - destruct (IH Hr) as (h & Hh & Hin).
    destruct (set_direction_keeps d (SnakeGame.snake g)) as (Hb & _ & _).
    exists h. split; [|exact Hin].
    unfold Snake.head in *. cbn [SnakeGame.snake SnakeGame.set_snake].
    rewrite Hb. exact Hh.
  - pose proof (reachable_sound _ Hg) as [Hss _ _ _ _ _ _].
    apply update_ret in Hu. destruct Hu as [(Hn & _) Hpath].
    destruct Hpath as [s h rest Hm Hbs He Hlen Hs Hfr Hsc Hr' Hw' _
                      | s h rest f Hm Hbs He Hlen Hre Hs Hfr Hsc Hr' Hw'
                      | s h rest Hm Hbs He Hs Hfr Hsc Hr' Hw' _];
      [congruence | |];
      destruct (move_ret _ _ Hm) as (_ & _ & _ & _ & _ & _ & Hsn);
      (exists h; split;
       [ rewrite Hs; unfold Snake.head; cbn [Snake.grow_snake Snake.body];
         rewrite Hbs; reflexivity |]);
      rewrite Hr in Hr';
      destruct (hits (Snake.grid_size s) h rest) eqn:Hh;
        try discriminate;
      unfold hits in Hh; apply orb_false_iff in Hh; destruct Hh as [_ Hh];
      rewrite !orb_false_iff in Hh;
      destruct Hh as [[[H1 H2] H3] H4];
      rewrite Hn, <- Hss, <- Hsn; unfold in_grid; lia.
Qed.

(** Where the bound of C4 does hold: while a reachable game is running,
    the two relative coordinates of the fruit lie within [-1, 1]. *)
Lemma rel_fruit_bounded_while_running (g : SnakeGame.t) (obs : list Q) :
  reachable g ->
  SnakeGame.running g = true ->
  SnakeGame.get_state g = Ret obs ->
  Forall (fun v => -1 <= v /\ v <= 1)%Q
         (skipn (Z.to_nat (SnakeGame.grid_size g * SnakeGame.grid_size g) + 4)
                obs).
Proof.
  intros Hg Hr Hs.
  destruct (reachable_head_on_board g Hg Hr) as (h & Hh & Hin).
  destruct (reachable_sound _ Hg) as [_ _ Hn _ Hf _ _].
  destruct (observation_layout g obs Hs)
    as (hx & hy & Hh' & _ & _ & _ & Hbound).
  rewrite Hh in Hh'. inversion Hh'; subst h.
  apply Hbound; assumption.
Qed.

(** ** Playing several ticks *)

Lemma update_draws (rnd rnd' : draws) (g g' : SnakeGame.t) :
  SnakeGame.update rnd g = Ret (g', rnd') ->
  exists used, rnd = used ++ rnd'.
Proof.
  intros H. apply update_ret in H. destruct H as [_ H].
  destruct H as [s h rest _ _ _ _ _ _ _ _ _ ->
                | s h rest f _ _ _ _ Hre _ _ _ _ _
                | s h rest _ _ _ _ _ _ _ _ ->];
    try (exists []; reflexivity).
  apply respawn_ret in Hre. destruct Hre as [_ Hre].
  apply new_position_ret in Hre. destruct Hre as (_ & skipped & -> & _).
  exists (skipped ++ [Fruit.position f]).
  rewrite <- app_assoc. reflexivity.
Qed.

Lemma play_reachable (actions : list Z) (rnd rnd' : draws)
      (g g' : SnakeGame.t) (outs : list (list Q * Q * bool)) :
  reachable g ->
  Forall (in_grid (SnakeGame.grid_size g)) rnd ->
  play rnd actions g = Ret (g', rnd', outs) ->
  reachable g'.
Proof.
  revert rnd g outs.
  induction actions as [|a actions IH]; intros rnd g outs Hg Hall; simpl.
  - intros H; inversion H; subst; exact Hg.
  - destruct (SnakeGame.running g) eqn:Hrun.
    + destruct (SnakeGame.step rnd a g) as [[[g1 rnd1] out]| |] eqn:Hs;
        cbn [bind]; try discriminate.
      destruct (play rnd1 actions g1) as [[[g2 rnd2] outs2]| |] eqn:Hp;
        cbn [bind]; try discriminate.
      intros H; inversion H; subst.
      pose proof (reachable_step _ _ _ _ _ _ Hg Hrun Hall Hs) as Hg1.
      eapply IH; [exact Hg1 | | exact Hp].
      destruct out as [[obs r] d].
      apply step_ret in Hs. destruct Hs as (_ & Hu & _).
      pose proof (update_draws _ _ _ _ Hu) as (used & ->).
      apply update_ret in Hu. destruct Hu as [(Hn & _) _].
      destruct (steer_fields a g) as ((Hn0 & _) & _).
      rewrite Hn, Hn0. apply Forall_app in Hall. tauto.
    + intros H; inversion H; subst; exact Hg.
Qed.

(** ** The observation after a death against the wall *)

(** C4 fails on the code.  From that game, six ticks to the right: the
    sixth takes the head to [(12, 6)], outside the board; the instance is
    Died, and the observation returned with [reward_death] and [done] has
    the 150 entries expected, but its entry 148, the first relative
    coordinate of the fruit, is [(0 - 12) / 11], below -1. *)
Theorem observation_after_wall_death :
  match fruit_behind with
  | Ret (g0, rnd) =>
      match play rnd [3; 3; 3; 3; 3; 3] g0 with
      | Ret (g, _, outs) =>
          SnakeGame.status_of g = SnakeGame.Died /\
          Snake.head (SnakeGame.snake g) = Ret (12, 6) /\
          Fruit.position (SnakeGame.fruit g) = (0, 6) /\
          length outs = 6%nat /\
          match last outs ([], 0%Q, false) with
          | (obs, r, d) =>
              d = true /\
              r = SnakeGame.reward_death g /\
              SnakeGame.get_state g = Ret obs /\
              length obs = 150%nat /\
              (nth 148 obs 0 == -12 # 11)%Q /\
              (nth 148 obs 0 < -1)%Q /\
              ~ (-1 <= nth 148 obs 0)%Q
          end
      | _ => False
      end
  | _ => False
  end.
Proof.
  vm_compute. repeat split; try discriminate.
  intros H. apply H. reflexivity.
Qed.

(** That game is one the callers can hold. *)
Lemma wall_death_reachable :
  match fruit_behind with
  | Ret (g0, rnd) =>
      match play rnd [3; 3; 3; 3; 3; 3] g0 with
      | Ret (g, _, _) => reachable g
      | _ => False
      end
  | _ => False
  end.
Proof.
  destruct fruit_behind as [[g0 rnd]| |] eqn:H0; try discriminate.
  destruct (play rnd [3; 3; 3; 3; 3; 3] g0) as [[[g r] outs]| |] eqn:Hp;
    try (vm_compute in H0; inversion H0; subst; vm_compute in Hp;
         discriminate).
  assert (Hn : SnakeGame.grid_size g0 = 12 /\ rnd = [])
    by (vm_compute in H0; inversion H0; subst; split; reflexivity).
  destruct Hn as [Hn ->].
  eapply play_reachable; [| |exact Hp].
  - eapply reach_init with (rnd := [ (0, 6) ]); [|exact H0].
    repeat constructor; cbn; lia.
  - constructor.
Qed.

(** * Concrete runs *)

Lemma small_game_constructed :
  new_game 4 [ (3, 2) ] = Ret (small_game, []).
Proof. reflexivity. Qed.

Lemma small_game_reachable : reachable small_game.
Proof.
  apply (reach_init 4 32 "ai" 5 (-10) (-1 # 100) 100 [ (3, 2) ] []
                    small_game); [|reflexivity].
  constructor; [unfold in_grid; cbn; lia | constructor].
Qed.

Lemma step_reward_rule_witness :
  exists rl : reward_rule,
    rule_applies small_game (game_of first_tick) rl /\
    reward_got first_tick = reward_of small_game rl /\
    (forall rl', rule_applies small_game (game_of first_tick) rl' ->
                 rl' = rl) /\
    (done_of first_tick = true <-> rl = rule_win \/ rl = rule_death).
Proof.
  apply (step_reward_rule [ (0, 0) ] (draws_of first_tick) 3 small_game
           (game_of first_tick) (obs_of first_tick)
           (reward_got first_tick) (done_of first_tick));
    reflexivity.
Defined.

Lemma growth_follows_fruit_witness :
  SnakeGame.score (game_of first_tick) = SnakeGame.score small_game + 1 /\
  Snake.grow (SnakeGame.snake (game_of first_tick)) = true /\
  reward_got first_tick = SnakeGame.reward_fruit small_game /\
  length (Snake.body (SnakeGame.snake (game_of first_tick))) = 3%nat /\
  length (Snake.body (SnakeGame.snake (game_of second_tick))) = 4%nat.
Proof.
  pose proof
    (growth_follows_fruit
       [ (0, 0) ] (draws_of first_tick) [] (draws_of second_tick) 3 0
       small_game (game_of first_tick) (game_of second_tick)
       (obs_of first_tick) (obs_of second_tick)
       (reward_got first_tick) (reward_got second_tick)
       (done_of first_tick) (done_of second_tick)
       eq_refl eq_refl eq_refl eq_refl) as (Hate & _ & Hlen & _ & Hgrow).
  destruct (Hate eq_refl) as (Hscore & Hflag & Hreward).
  split; [exact Hscore|]. split; [exact Hflag|]. split; [exact Hreward|].
  split; [exact Hlen|]. apply (proj2 Hgrow). reflexivity.
Defined.

Lemma won_iff_board_filled_witness :
  SnakeGame.status_of (game_of winning_tick) = SnakeGame.Won /\
  Z.of_nat (length (Snake.body (SnakeGame.snake (game_of winning_tick))))
    = 4 * 4 - 1 /\
  SnakeGame.fruit (game_of winning_tick) = SnakeGame.fruit fifteen_of_sixteen /\
  reward_got winning_tick = SnakeGame.reward_win fifteen_of_sixteen /\
  done_of winning_tick = true.
Proof.
  pose proof
    (won_iff_board_filled
       [] (draws_of winning_tick) 2 fifteen_of_sixteen
       (game_of winning_tick) (obs_of winning_tick)
       (reward_got winning_tick) (done_of winning_tick)
       eq_refl eq_refl) as (Hiff & Hwon & _).
  assert (Hw : SnakeGame.status_of (game_of winning_tick) = SnakeGame.Won)
    by (apply (proj2 Hiff); split; reflexivity).
  destruct (Hwon Hw) as (Hlen & _ & Hfruit & _ & Hr & Hd).
  split; [exact Hw|]. split; [exact Hlen|]. split; [exact Hfruit|].
  split; [exact Hr | exact Hd].
Defined.

Lemma set_direction_reversal_ignored_witness :
  Snake.set_direction (-1, 0) (Snake.init 4) = Snake.init 4 /\
  Snake.set_direction (0, 1) (Snake.init 4) =
    Snake.mk 4 (Snake.body (Snake.init 4)) (0, 1) false /\
  SnakeGame.step [ (0, 0) ] 2 small_game =
    SnakeGame.step [ (0, 0) ] 3 small_game.
Proof.
  split; [|split].
  - apply (proj1 (set_direction_reversal_ignored (Snake.init 4) (-1, 0))).
    reflexivity.
  - apply (proj1 (proj2 (set_direction_reversal_ignored (Snake.init 4)
                           (0, 1)))).
    discriminate.
  - apply (proj2 (proj2 (set_direction_reversal_ignored (Snake.init 4)
                           (-1, 0)))
             small_game [ (0, 0) ] 2 3);
      first [reflexivity | lia].
Defined.

Lemma died_iff_collision_witness :
  exists (s : Snake.t) (h : pos) (rest : list pos),
    Snake.move (SnakeGame.snake (steer 3 (game_of first_tick))) = Ret s /\
    Snake.body s = h :: rest /\
    Snake.body (SnakeGame.snake (game_of fatal_tick)) = h :: rest /\
    SnakeGame.status_of (game_of fatal_tick) = SnakeGame.Died /\
    ~ in_grid (Snake.grid_size s) h.
Proof.
  destruct
    (died_iff_collision
       [] (draws_of fatal_tick) 3 (game_of first_tick) (game_of fatal_tick)
       (obs_of fatal_tick) (reward_got fatal_tick) (done_of fatal_tick)
       eq_refl eq_refl)
    as (s & h & rest & Hm & Hbs & Hb & Hn & Hdied & _).
  exists s, h, rest.
  split; [exact Hm|]. split; [exact Hbs|]. split; [exact Hb|].
  split; [reflexivity|].
  assert (Hh : h = (4, 2)) by (cbv in Hb; congruence).
  assert (Hsz : Snake.grid_size s = 4) by (rewrite <- Hn; reflexivity).
  rewrite Hh, Hsz. unfold in_grid. cbn [fst snd]. lia.
Defined.

Lemma step_raises_iff_invalid_action_witness :
  SnakeGame.step [] 4 small_game = Raise ValueError /\
  SnakeGame.step [] (-1) small_game = Raise ValueError /\
  forall e, SnakeGame.step [ (0, 0) ] 3 small_game <> Raise e.
Proof.
  split; [|split].
  - apply (proj1 (step_raises_iff_invalid_action [] 4 small_game)). lia.
  - apply (proj1 (step_raises_iff_invalid_action [] (-1) small_game)). lia.
  - apply (proj2 (step_raises_iff_invalid_action [ (0, 0) ] 3 small_game));
      [lia | simpl; lia | discriminate].
Defined.

Lemma placement_loop_can_exit_witness :
  (exists c,
      in_grid 4 c /\ ~ In c (Snake.body (Snake.init 4)) /\
      forall cell mode rf rd rs rw before after,
      exists g rnd',
        SnakeGame.init 4 cell mode rf rd rs rw (before ++ c :: after)
        = Ret (g, rnd')) /\
  ((forall rnd,
       SnakeGame.update rnd small_game = Spin <->
       Fruit.new_position 4 [ (3, 2); (2, 2); (1, 2) ] rnd = Spin) /\
   exists c,
     in_grid 4 c /\ ~ In c [ (3, 2); (2, 2); (1, 2) ] /\
     forall before after,
     exists g' rnd',
       SnakeGame.update (before ++ c :: after) small_game
       = Ret (g', rnd')) /\
  ((exists c,
       in_grid 4 c /\ ~ In c (Snake.body (Snake.init 4)) /\
       forall before after,
       exists p rnd',
         Fruit.new_position 4 (Snake.body (Snake.init 4))
                            (before ++ c :: after)
         = Ret (p, rnd')) /\
   (forall rnd p rnd',
       Fruit.new_position 4 (Snake.body (Snake.init 4)) rnd
         = Ret (p, rnd') ->
       ~ In p (Snake.body (Snake.init 4)) /\ In p rnd)).
Proof.
  split; [|split].
  - apply (proj1 placement_loop_can_exit 4). lia.
  - apply (proj1 (proj2 placement_loop_can_exit) small_game
             (Snake.mk 4 [ (3, 2); (2, 2); (1, 2) ] (1, 0) false)
             small_game_reachable);
      [reflexivity | reflexivity | reflexivity | discriminate].
  - apply (proj2 (proj2 placement_loop_can_exit) 4
             (Snake.body (Snake.init 4))); [lia | reflexivity].
Defined.

Lemma target_refresh_cadence_witness :
  exists st',
    Train.ticks toy_backward S [idle_tick; idle_tick] (Train.init 0%nat)
      = Ret st' /\
    Train.step_count st' = 128 /\
    refreshes (Train.log st') = [0].
Proof.
  destruct (proj1 (proj2 (target_refresh_cadence toy_backward S
                            [idle_tick; idle_tick] (Train.init 0%nat))))
    as (st' & Hticks & Hcount & Hlog & _).
  exists st'. split; [exact Hticks|]. split; [exact Hcount | exact Hlog].
Defined.

Lemma optimize_model_guards_sample_witness :
  Train.optimize_model toy_backward S (fun k => k) (Train.init 0%nat)
    = Ret (None, Train.init 0%nat).
Proof.
  apply (proj1 (optimize_model_guards_sample toy_backward S (fun k => k)
                  (Train.init 0%nat))).
  reflexivity.
Defined.

(** Two ticks that store 64 transitions each: the first leaves the memory
    short of a batch and only refreshes the target; the second finds 128
    entries and samples. *)
Lemma sampling_waits_for_a_batch :
  match Train.ticks toy_backward S [full_tick] (Train.init 0%nat) with
  | Ret st1 =>
      Train.log st1 = [Train.Refreshed 0] /\
      PrioritizedReplayMemory.len (Train.memory st1) = 64 /\
      match Train.tick toy_backward S full_tick st1 with
      | Ret st2 =>
          Train.log st2 = [Train.Refreshed 0; Train.Sampled 128 128] /\
          Train.step_count st2 = 128
      | _ => False
      end
  | _ => False
  end.
Proof.
  vm_compute. repeat split.
Qed.

(** * Further properties of the code *)

(** ** The shape of the body *)

Lemma In_removelast {A : Type} (x : A) (l : list A) :
  In x (removelast l) -> In x l.
Proof.
  induction l as [|a l IH]; [auto|].
  destruct l as [|b l]; [intros []|].
  change (removelast (a :: b :: l)) with (a :: removelast (b :: l)).
  intros [<-|H]; [left; reflexivity | right; apply IH; exact H].
Qed.

Lemma NoDup_removelast {A : Type} (l : list A) :
  NoDup l -> NoDup (removelast l).
Proof.
  induction l as [|a l IH]; [auto|].
  destruct l as [|b l]; [intros _; constructor|].
  change (removelast (a :: b :: l)) with (a :: removelast (b :: l)).
  intros H. inversion H as [|? ? Ha Hl]; subst.
  constructor; [|apply IH; exact Hl].
  intros Hin. apply Ha. apply In_removelast. exact Hin.
Qed.

Lemma chain_removelast (l : list pos) : chain l -> chain (removelast l).
Proof.
  induction l as [|a l IH]; [auto|].
  destruct l as [|b l]; [intros _; exact I|].
  change (removelast (a :: b :: l)) with (a :: removelast (b :: l)).
  intros [Hab Hc]. specialize (IH Hc).
  destruct l as [|c l]; [exact I|].
  change (removelast (b :: c :: l)) with (b :: removelast (c :: l)) in *.
  split; assumption.
Qed.

Lemma removelast_head {A : Type} (a : A) (l : list A) :
  removelast (a :: l) = [] \/ exists t, removelast (a :: l) = a :: t.
Proof.
  destruct l as [|b l]; [left; reflexivity|].
  right. exists (removelast (b :: l)). reflexivity.
Qed.

Lemma action_is_a_unit_step (d : pos) :
  In d ACTIONS -> Z.abs (fst d) + Z.abs (snd d) = 1.
Proof.
  intros [<-|[<-|[<-|[<-|[]]]]]; reflexivity.
Qed.

(** The cells of the body after a move, from those before. *)
Lemma move_cells (s s' : Snake.t) :
  Snake.move s = Ret s' ->
  exists h rest kept,
    Snake.body s = h :: rest /\
    Snake.body s' =
      (fst h + fst (Snake.direction s), snd h + snd (Snake.direction s))
        :: kept /\
    (kept = [] \/ exists t, kept = h :: t) /\
    (forall x, In x kept -> In x (Snake.body s)) /\
    (NoDup (Snake.body s) -> NoDup kept) /\
    (chain (Snake.body s) -> chain kept).
Proof.
  intros Hm. destruct (move_ret _ _ Hm) as (h & rest & Hb & Hb' & _).
  exists h, rest,
    (if Snake.grow s then Snake.body s else removelast (Snake.body s)).
  split; [exact Hb|]. split; [exact Hb'|].
  destruct (Snake.grow s).
  - rewrite Hb. split; [right; eauto|]. repeat split; auto.
  - split; [rewrite Hb; apply removelast_head|].
    split; [intros x; apply In_removelast|].
    split; [apply NoDup_removelast | apply chain_removelast].
Qed.

Lemma chain_after_move (s s' : Snake.t) :
  Snake.move s = Ret s' ->
  In (Snake.direction s) ACTIONS ->
  chain (Snake.body s) ->
  chain (Snake.body s').
Proof.
  intros Hm Hd Hc.
  destruct (move_cells _ _ Hm)
    as (h & rest & kept & Hb & Hb' & Hk & _ & _ & Hck).
  rewrite Hb'. specialize (Hck Hc).
  destruct Hk as [->|(t & ->)]; [exact I|].
  split; [|exact Hck].
  pose proof (action_is_a_unit_step _ Hd) as Hu.
  unfold adjacent; cbn [fst snd].
  replace (fst h + fst (Snake.direction s) - fst h)
    with (fst (Snake.direction s)) by lia.
  replace (snd h + snd (Snake.direction s) - snd h)
    with (snd (Snake.direction s)) by lia.
  exact Hu.
Qed.

Lemma hits_false (n : Z) (h : pos) (rest : list pos) :
  hits n h rest = false -> ~ In h rest /\ in_grid n h.
Proof.
  unfold hits, in_grid. rewrite !orb_false_iff.
  intros (Hin & ((Hx & Hy) & Hx') & Hy').
  apply pos_in_not_In in Hin.
  apply Z.ltb_ge in Hx, Hy.
  rewrite Z.geb_leb in Hx', Hy'. apply Z.leb_gt in Hx', Hy'.
  split; [exact Hin | lia].
Qed.

Lemma init_tidy (n cell : Z) (mode : string) (rf rd rs rw : Q)
      (rnd rnd' : draws) (g : SnakeGame.t) :
  SnakeGame.init n cell mode rf rd rs rw rnd = Ret (g, rnd') ->
  tidy g.
Proof.
  intros H. apply init_ret in H. destruct H as (p & Hp & ->).
  apply new_position_ret in Hp. destruct Hp as [Hfree _].
  constructor; cbn [SnakeGame.snake SnakeGame.score SnakeGame.running
                    SnakeGame.won SnakeGame.fruit SnakeGame.grid_size
                    Snake.init Snake.direction Snake.body Snake.grow
                    Fruit.position length].
  - right. right. right. left. reflexivity.
  - lia.
  - cbn [chain]. unfold adjacent. cbn [fst snd]. repeat split; lia.
  - intros _. repeat constructor; cbn [In];
      intros H; repeat destruct H as [H|H]; try inversion H; lia.
  - intros _. exact Hfree.
  - discriminate.
  - intros Hn _.
    pose proof (Z.div_le_lower_bound n 2 2 ltac:(lia) ltac:(lia)).
    assert (n / 2 < n) by (apply Z.div_lt_upper_bound; lia).
    repeat constructor; cbn [fst snd]; lia.
Qed.

Lemma update_tidy (rnd rnd' : draws) (g g' : SnakeGame.t) :
  sound g ->
  tidy g ->
  SnakeGame.running g = true ->
  SnakeGame.update rnd g = Ret (g', rnd') ->
  tidy g'.
Proof.
  intros [Hss _ _ _ _ _ Hwon] [Hdir Hscore Hchain Hnd Hfruit _ Hgrid]
         Hrun Hu.
  assert (Hw : SnakeGame.won g = false).
  { destruct (SnakeGame.won g); [|reflexivity].
    rewrite (Hwon eq_refl) in Hrun. discriminate. }
  specialize (Hnd Hrun). specialize (Hfruit Hw).
  apply update_ret in Hu. destruct Hu as [(Hn' & _) Hpath].
  assert (Hshape :
    forall s h rest,
      Snake.move (SnakeGame.snake g) = Ret s ->
      Snake.body s = h :: rest ->
      In (Snake.direction s) ACTIONS /\
      Z.of_nat (length (Snake.body s)) = 3 + SnakeGame.score g /\
      Snake.grow s = false /\
      chain (Snake.body s) /\
      Snake.grid_size s = SnakeGame.grid_size g /\
      NoDup rest /\
      (forall x, In x rest -> In x (Snake.body (SnakeGame.snake g)))).
  { intros s h rest Hm Hb.
    destruct (move_ret _ _ Hm) as (_ & _ & _ & _ & Hg & Hd & Hsn).
    pose proof (move_length _ _ Hm) as Hl.
    pose proof (chain_after_move _ _ Hm Hdir Hchain) as Hc.
    destruct (move_cells _ _ Hm)
      as (h0 & rest0 & kept & _ & Hb' & _ & Hincl & Hndk & _).
    rewrite Hb in Hb'. inversion Hb'; subst kept.
    rewrite Hd. repeat split; auto; try congruence.
    rewrite Hl, Nat2Z.inj_add.
    destruct (Snake.grow (SnakeGame.snake g)); lia. }
  destruct Hpath as [s h rest Hm Hbs He Hlen Hs Hfr Hsc Hr' Hw' _
                    | s h rest f Hm Hbs He Hlen Hre Hs Hfr Hsc Hr' Hw'
                    | s h rest Hm Hbs He Hs Hfr Hsc Hr' Hw' _];
    destruct (Hshape s h rest Hm Hbs)
      as (Hd & Hl & Hg & Hc & Hsn & Hndr & Hincl);
    constructor; rewrite ?Hn', ?Hs, ?Hsc, ?Hfr;
    cbn [Snake.grow_snake Snake.direction Snake.body Snake.grow];
    rewrite ?Hg; auto; try lia; try congruence.
  - (* win: the flags *)
    intros _. split; [reflexivity|]. split; [|exact Hlen].
    unfold Snake.head. cbn [Snake.body Snake.grow_snake].
    rewrite Hbs, He. reflexivity.
  - (* eat: no cell twice *)
    intros Hrun'. rewrite Hr', Hrun in Hrun'.
    destruct (hits (Snake.grid_size s) h rest) eqn:Hh; [discriminate|].
    apply hits_false in Hh. rewrite Hbs. constructor; tauto.
  - (* eat: the new fruit *)
    intros _. apply respawn_ret in Hre. destruct Hre as [_ Hre].
    apply new_position_ret in Hre. tauto.
  - (* eat: on the board *)
    intros H4 Hrun'. rewrite Hr', Hrun in Hrun'.
    destruct (hits (Snake.grid_size s) h rest) eqn:Hh; [discriminate|].
    apply hits_false in Hh. rewrite Hsn in Hh. rewrite Hbs.
    constructor; [tauto|].
    specialize (Hgrid H4 Hrun). rewrite Forall_forall in Hgrid.
    apply Forall_forall. intros x Hx. apply Hgrid. apply Hincl. exact Hx.
  - (* move: no cell twice *)
    intros Hrun'. rewrite Hr', Hrun in Hrun'.
    destruct (hits (Snake.grid_size s) h rest) eqn:Hh; [discriminate|].
    apply hits_false in Hh. rewrite Hbs. constructor; tauto.
  - (* move: the fruit *)
    intros _. rewrite Hbs. intros [Hin|Hin]; [congruence|].
    apply Hfruit. apply Hincl. exact Hin.
  - (* move: on the board *)
    intros H4 Hrun'. rewrite Hr', Hrun in Hrun'.
    destruct (hits (Snake.grid_size s) h rest) eqn:Hh; [discriminate|].
    apply hits_false in Hh. rewrite Hsn in Hh. rewrite Hbs.
    constructor; [tauto|].
    specialize (Hgrid H4 Hrun). rewrite Forall_forall in Hgrid.
    apply Forall_forall. intros x Hx. apply Hgrid. apply Hincl. exact Hx.
Qed.

Lemma reachable_tidy (g : SnakeGame.t) : reachable g -> tidy g.
Proof.
  induction 1 as [n cell mode rf rd rs rw rnd rnd' g Hall Hinit
                 | g d Hg IH Hd
                 | g g' rnd rnd' Hg IH Hrun Hall Hu].
  - eapply init_tidy; eauto.
  - destruct IH as [Hdir Hscore Hchain Hnd Hfruit Hwon Hgrid].
    destruct (set_direction_keeps d (SnakeGame.snake g)) as (Hb & Hgr & Hn).
    assert (Hdir' : In (Snake.direction
                          (Snake.set_direction d (SnakeGame.snake g)))
                       ACTIONS).
    { unfold Snake.set_direction. destruct d as [dx dy].
      destruct (pos_eqb _ _); [exact Hdir | exact Hd]. }
    constructor;
      cbn [SnakeGame.set_snake SnakeGame.snake SnakeGame.fruit
           SnakeGame.grid_size SnakeGame.won SnakeGame.running
           SnakeGame.score];
      unfold Snake.head in *; rewrite ?Hb, ?Hgr; auto.
  - eapply update_tidy; eauto. apply reachable_sound. exact Hg.
Qed.

Lemma reachable_score_nonneg (g : SnakeGame.t) :
  reachable g -> 0 <= SnakeGame.score g.
Proof.
  induction 1 as [n cell mode rf rd rs rw rnd rnd' g Hall Hinit
                 | g d Hg IH Hd
                 | g g' rnd rnd' Hg IH Hrun Hall Hu].
  - apply init_ret in Hinit. destruct Hinit as (p & _ & ->). cbn. lia.
  - exact IH.
  - apply update_ret in Hu. destruct Hu as [_ Hpath].
    destruct Hpath as [s h rest _ _ _ _ _ _ Hsc _ _ _
                      | s h rest f _ _ _ _ _ _ _ Hsc _ _
                      | s h rest _ _ _ _ _ Hsc _ _ _]; lia.
Qed.

(** X1.  What the constructor builds when it returns: a snake of three
    cells in a row at the middle of the board, head to the right and
    heading right, nothing pending, score 0, Running, with the rewards it
    was given; a fruit on a cell of the board that is not a cell of the
    snake.  It only returns on boards of side at least 2, and the whole
    snake is on the board exactly when the side is at least 4: on boards
    of side 2 or 3 the tail starts off the board. *)
Theorem fresh_game_layout (n cell : Z) (mode : string) (rf rd rs rw : Q)
        (rnd rnd' : draws) (g : SnakeGame.t) :
  Forall (in_grid n) rnd ->
  SnakeGame.init n cell mode rf rd rs rw rnd = Ret (g, rnd') ->
  Snake.body (SnakeGame.snake g) =
    [ (n / 2, n / 2); (n / 2 - 1, n / 2); (n / 2 - 2, n / 2) ] /\
  Snake.direction (SnakeGame.snake g) = (1, 0) /\
  Snake.grow (SnakeGame.snake g) = false /\
  SnakeGame.score g = 0 /\
  SnakeGame.status_of g = SnakeGame.Running /\
  (SnakeGame.reward_fruit g, SnakeGame.reward_death g,
   SnakeGame.reward_step g, SnakeGame.reward_win g) = (rf, rd, rs, rw) /\
  in_grid n (Fruit.position (SnakeGame.fruit g)) /\
  ~ In (Fruit.position (SnakeGame.fruit g))
       (Snake.body (SnakeGame.snake g)) /\
  2 <= n /\
  (Forall (in_grid n) (Snake.body (SnakeGame.snake g)) <-> 4 <= n).
Proof.
  intros Hall Hinit.
  pose proof (init_sound _ _ _ _ _ _ _ _ _ _ Hall Hinit)
    as [_ _ Hn _ Hf _ _].
  pose proof (init_tidy _ _ _ _ _ _ _ _ _ _ Hinit)
    as [_ _ _ _ Hfree _ Hgrid].
  apply init_ret in Hinit. destruct Hinit as (p & _ & ->).
  cbn [SnakeGame.snake SnakeGame.score SnakeGame.fruit SnakeGame.grid_size
       SnakeGame.reward_fruit SnakeGame.reward_death SnakeGame.reward_step
       SnakeGame.reward_win SnakeGame.running SnakeGame.won
       Snake.init Snake.body Snake.direction Snake.grow Fruit.position] in *.
  repeat (split; [reflexivity|]).
  split; [exact Hf|]. split; [apply Hfree; reflexivity|].
  split; [exact Hn|]. split.
  - intros Hb. inversion Hb as [|? ? _ Hb1]; subst.
    inversion Hb1 as [|? ? _ Hb2]; subst.
    inversion Hb2 as [|? ? [Hx _] _]; subst. cbn [fst] in Hx.
    destruct (Z_lt_le_dec n 4) as [Hlt|Hge]; [|exact Hge].
    assert (n / 2 < 2) by (apply Z.div_lt_upper_bound; lia). lia.
  - intros H4. apply Hgrid; [exact H4 | reflexivity].
Qed.

(** X2.  In every game the callers can hold, the length of the body plus
    the growth still pending is 3 plus the score: each fruit counted in
    the score is one cell gained.  Hence the score lies between 0 and
    [grid_size * grid_size - 3], and the game is Won exactly when the
    score is [grid_size * grid_size - 3]. *)
Theorem score_counts_growth (g : SnakeGame.t) :
  reachable g ->
  Z.of_nat (length (Snake.body (SnakeGame.snake g))) +
  (if Snake.grow (SnakeGame.snake g) then 1 else 0) =
  3 + SnakeGame.score g /\
  0 <= SnakeGame.score g <=
    SnakeGame.grid_size g * SnakeGame.grid_size g - 3 /\
  (SnakeGame.status_of g = SnakeGame.Won <->
   SnakeGame.score g = SnakeGame.grid_size g * SnakeGame.grid_size g - 3).
Proof.
  intros Hg.
  pose proof (reachable_score_nonneg g Hg) as H0.
  destruct (reachable_sound g Hg) as [_ _ _ _ _ Hroom _].
  destruct (reachable_tidy g Hg) as [_ Hscore _ _ _ Hwon _].
  split; [exact Hscore|].
  rewrite status_won.
  destruct (SnakeGame.won g) eqn:Hw.
  - destruct (Hwon eq_refl) as (Hgrow & _ & Hlen).
    rewrite Hgrow in Hscore.
    split; [lia|]. split; [intros _; lia | reflexivity].
  - specialize (Hroom eq_refl).
    split; [lia|]. split; [discriminate | lia].
Qed.

(** X3.  While a game the callers can hold is running, its body is a
    path that never crosses itself: no cell occurs twice, each cell
    touches the next by a side, and the head is on the board; on boards
    of side at least 4 every cell of the body is on the board. *)
Theorem running_body_is_a_simple_path (g : SnakeGame.t) :
  reachable g ->
  SnakeGame.running g = true ->
  NoDup (Snake.body (SnakeGame.snake g)) /\
  chain (Snake.body (SnakeGame.snake g)) /\
  (exists h rest,
      Snake.body (SnakeGame.snake g) = h :: rest /\
      in_grid (SnakeGame.grid_size g) h /\ ~ In h rest) /\
  (4 <= SnakeGame.grid_size g ->
   Forall (in_grid (SnakeGame.grid_size g))
          (Snake.body (SnakeGame.snake g))).
Proof.
  intros Hg Hrun.
  destruct (reachable_tidy g Hg) as [_ _ Hchain Hnd _ _ Hgrid].
  specialize (Hnd Hrun).
  destruct (reachable_head_on_board g Hg Hrun) as (h & Hh & Hin).
  split; [exact Hnd|]. split; [exact Hchain|]. split.
  - unfold Snake.head in Hh.
    destruct (Snake.body (SnakeGame.snake g)) as [|h' rest] eqn:Hb;
      [discriminate|].
    inversion Hh; subst h'. exists h, rest.
    split; [reflexivity|]. split; [exact Hin|].
    inversion Hnd; assumption.
  - intros H4. apply Hgrid; assumption.
Qed.

(** X4.  In every game the callers can hold the fruit is on a cell of
    the board.  Unless the game is Won the fruit is not on a cell of the
    body, so that a running snake never covers it; in a Won game the
    fruit was not placed again and lies under the head. *)
Theorem fruit_is_off_the_body (g : SnakeGame.t) :
  reachable g ->
  in_grid (SnakeGame.grid_size g) (Fruit.position (SnakeGame.fruit g)) /\
  (SnakeGame.status_of g <> SnakeGame.Won ->
   ~ In (Fruit.position (SnakeGame.fruit g))
        (Snake.body (SnakeGame.snake g))) /\
  (SnakeGame.status_of g = SnakeGame.Won ->
   Snake.head (SnakeGame.snake g) =
     Ret (Fruit.position (SnakeGame.fruit g))).
Proof.
  intros Hg.
  destruct (reachable_sound g Hg) as [_ _ _ _ Hf _ _].
  destruct (reachable_tidy g Hg) as [_ _ _ _ Hfruit Hwon _].
  split; [exact Hf|]. rewrite status_won. split.
  - intros Hnot. apply Hfruit.
    destruct (SnakeGame.won g); [contradiction | reflexivity].
  - intros Hw. apply Hwon. exact Hw.
Qed.

(** ** Turning twice between two moves *)

Lemma kept_has_neck (s s' : Snake.t) (h k : pos) (rest : list pos) :
  Snake.move s = Ret s' ->
  Snake.body s = h :: k :: rest ->
  rest <> [] \/ Snake.grow s = true ->
  exists tail,
    Snake.body s' =
      (fst h + fst (Snake.direction s), snd h + snd (Snake.direction s))
        :: h :: k :: tail.
Proof.
  intros Hm Hb Hlong.
  destruct (move_ret _ _ Hm) as (h0 & rest0 & Hb0 & Hb' & _).
  rewrite Hb in Hb0. inversion Hb0; subst h0 rest0.
  rewrite Hb'. destruct (Snake.grow s) eqn:Hg.
  - rewrite Hb. eauto.
  - destruct Hlong as [Hrest|Hgrow]; [|discriminate].
    rewrite Hb. destruct rest as [|c rest]; [congruence|].
    exists (removelast (c :: rest)). reflexivity.
Qed.

(** X5.  The guard of [set_direction] compares the request with the
    direction stored, not with the direction of the last move: two turns
    between two moves (a side turn, then the direction opposite to the
    last move) are both accepted.  The next [update] then moves the head
    onto the cell behind it, and a snake of at least three cells (or with
    a growth pending) dies of it. *)
Theorem two_turns_reverse (g g' : SnakeGame.t) (p h k : pos)
        (rest : list pos) (rnd rnd' : draws) :
  let d := Snake.direction (SnakeGame.snake g) in
  Snake.body (SnakeGame.snake g) = h :: k :: rest ->
  k = (fst h - fst d, snd h - snd d) ->
  rest <> [] \/ Snake.grow (SnakeGame.snake g) = true ->
  p <> d ->
  p <> opposite d ->
  Fruit.position (SnakeGame.fruit g) <> k ->
  SnakeGame.won g = false ->
  SnakeGame.update rnd (turn (opposite d) (turn p g)) = Ret (g', rnd') ->
  Snake.direction (SnakeGame.snake (turn (opposite d) (turn p g)))
    = opposite d /\
  Snake.head (SnakeGame.snake g') = Ret k /\
  Snake.collided_with_self (SnakeGame.snake g') = Ret true /\
  SnakeGame.status_of g' = SnakeGame.Died.
Proof.
  intros d Hb Hk Hlong Hpd Hpo Hfruit Hw Hu.
  assert (Hturned :
    Snake.set_direction (opposite d)
      (Snake.set_direction p (SnakeGame.snake g)) =
    Snake.mk (Snake.grid_size (SnakeGame.snake g))
             (Snake.body (SnakeGame.snake g)) (opposite d)
             (Snake.grow (SnakeGame.snake g))).
  { rewrite (set_direction_other _ p Hpo).
    rewrite set_direction_other; [reflexivity|].
    cbn [Snake.direction]. unfold opposite. destruct p as [px py].
    subst d. destruct (Snake.direction (SnakeGame.snake g)) as [dx dy].
    cbn [fst snd] in *. intros H. inversion H. apply Hpd. f_equal; lia. }
  unfold turn in *. cbn [SnakeGame.snake SnakeGame.set_snake] in *.
  rewrite Hturned in *. split; [reflexivity|].
  apply update_ret in Hu. destruct Hu as [_ Hpath].
  cbn [SnakeGame.snake SnakeGame.fruit SnakeGame.won SnakeGame.running
       SnakeGame.score SnakeGame.grid_size] in Hpath.
  assert (Hmoved :
    forall s h' rest',
      Snake.move
        (Snake.mk (Snake.grid_size (SnakeGame.snake g))
                  (Snake.body (SnakeGame.snake g)) (opposite d)
                  (Snake.grow (SnakeGame.snake g))) = Ret s ->
      Snake.body s = h' :: rest' ->
      h' = k /\ In k rest').
  { intros s h' rest' Hm Hbs.
    destruct (kept_has_neck _ _ h k rest Hm Hb Hlong) as (tail & Hbs').
    cbn [Snake.direction opposite fst snd] in Hbs'.
    rewrite Hbs in Hbs'. inversion Hbs'; subst.
    split; [|right; left; reflexivity].
    unfold opposite. cbn [fst snd]. f_equal; lia. }
  destruct Hpath
    as [s h' rest' Hm Hbs He _ _ _ _ _ _ _
       | s h' rest' f Hm Hbs He _ _ _ _ _ _ _
       | s h' rest' Hm Hbs He Hs Hfr Hsc Hr' Hw' _];
    destruct (Hmoved s h' rest' Hm Hbs) as [-> Hin];
    cbn [SnakeGame.fruit SnakeGame.set_snake SnakeGame.won
         SnakeGame.running SnakeGame.snake] in *;
    try congruence.
  assert (Hhit : hits (Snake.grid_size s) k rest' = true).
  { unfold hits. apply pos_in_In in Hin. rewrite Hin. reflexivity. }
  rewrite Hhit in Hr'.
  split; [rewrite Hs; unfold Snake.head; rewrite Hbs; reflexivity|].
  split.
  - rewrite Hs. unfold Snake.collided_with_self. rewrite Hbs.
    apply pos_in_In in Hin. rewrite Hin. reflexivity.
  - apply status_died. split; [exact Hr' | congruence].
Qed.

Lemma stepped_reachable (g : SnakeGame.t) : stepped g -> reachable g.
Proof.
  induction 1 as [n cell mode rf rd rs rw rnd rnd' g Hall Hinit
                 | g g' rnd rnd' a out _ IH Hrun Hall Hstep].
  - eapply reach_init; eauto.
  - eapply reachable_step; eauto.
Qed.

(** After [update] the second cell of the body is the cell behind the
    head, for the direction of the move. *)
Lemma update_neck_behind (rnd rnd' : draws) (g g' : SnakeGame.t) :
  SnakeGame.update rnd g = Ret (g', rnd') ->
  neck_behind (SnakeGame.snake g').
Proof.
  intros Hu. apply update_ret in Hu. destruct Hu as [_ Hpath].
  assert (Hmoved : forall s, Snake.move (SnakeGame.snake g) = Ret s ->
                             neck_behind s).
  { intros s Hm h k rest Hb.
    destruct (move_cells _ _ Hm)
      as (h0 & rest0 & kept & _ & Hb' & Hk & _).
    destruct (move_ret _ _ Hm) as (_ & _ & _ & _ & _ & Hd & _).
    rewrite Hb in Hb'. inversion Hb' as [[Hh Hkept]].
    destruct Hk as [Hnil|(t & Hcons)]; [congruence|].
    rewrite Hcons in Hkept. inversion Hkept; subst.
    rewrite Hd. cbn [fst snd]. destruct h0 as [x y]. cbn [fst snd].
    f_equal; lia. }
  destruct Hpath as [s h rest Hm _ _ _ Hs _ _ _ _ _
                    | s h rest f Hm _ _ _ _ Hs _ _ _ _
                    | s h rest Hm _ _ Hs _ _ _ _ _];
    rewrite Hs; try exact (Hmoved s Hm);
    intros h1 k1 rest1 Hb1; exact (Hmoved s Hm h1 k1 rest1 Hb1).
Qed.

Lemma stepped_neck_behind (g : SnakeGame.t) :
  stepped g -> neck_behind (SnakeGame.snake g).
Proof.
  induction 1 as [n cell mode rf rd rs rw rnd rnd' g Hall Hinit
                 | g g' rnd rnd' a out _ IH Hrun Hall Hstep].
  - apply init_ret in Hinit. destruct Hinit as (p & _ & ->).
    intros h k rest Hb. cbn in Hb. inversion Hb; subst.
    cbn. f_equal; lia.
  - destruct out as [[obs r] d].
    apply step_ret in Hstep. destruct Hstep as (_ & Hu & _).
    eapply update_neck_behind; eauto.
Qed.

(** X6.  In the AI mode, where [step] sets the direction once for each
    move, the reversal guard does protect the snake: a tick never stores
    the direction opposite to the one of the previous move, and never
    moves the head onto the cell just behind it. *)
Theorem step_never_turns_back (rnd rnd' : draws) (a : Z)
        (g g' : SnakeGame.t) (out : list Q * Q * bool)
        (h k : pos) (rest : list pos) :
  stepped g ->
  SnakeGame.running g = true ->
  SnakeGame.step rnd a g = Ret (g', rnd', out) ->
  Snake.body (SnakeGame.snake g) = h :: k :: rest ->
  Snake.direction (SnakeGame.snake g') <>
    opposite (Snake.direction (SnakeGame.snake g)) /\
  Snake.head (SnakeGame.snake g') =
    Ret (fst h + fst (Snake.direction (SnakeGame.snake g')),
         snd h + snd (Snake.direction (SnakeGame.snake g'))) /\
  Snake.head (SnakeGame.snake g') <> Ret k.
Proof.
  intros Hst Hrun Hstep Hb.
  pose proof (stepped_neck_behind g Hst h k rest Hb) as Hk.
  destruct (reachable_tidy g (stepped_reachable g Hst))
    as [Hdir _ _ _ _ _ _].
  apply action_is_a_unit_step in Hdir.
  destruct out as [[obs r] d].
  apply step_ret in Hstep. destruct Hstep as (_ & Hu & _).
  destruct (steer_fields a g) as (_ & _ & _ & _ & _ & Hbs & _).
  set (d0 := Snake.direction (SnakeGame.snake g)) in *.
  set (d1 := Snake.direction (SnakeGame.snake (steer a g))).
  assert (Hd1 : d1 <> opposite d0).
  { subst d1 d0. unfold steer. cbn [SnakeGame.snake SnakeGame.set_snake].
    unfold Snake.set_direction.
    destruct (nth (Z.to_nat a) ACTIONS (0, 0)) as [rx ry].
    destruct (pos_eqb (rx, ry) _) eqn:He.
    - unfold opposite. intros H.
      destruct (Snake.direction (SnakeGame.snake g)) as [dx dy].
      cbn [fst snd] in *. inversion H. lia.
    - apply pos_eqb_neq in He. exact He. }
  apply update_ret in Hu. destruct Hu as [_ Hpath].
  assert (Hmoved :
    forall s, Snake.move (SnakeGame.snake (steer a g)) = Ret s ->
      Snake.direction s = d1 /\
      Snake.head s = Ret (fst h + fst d1, snd h + snd d1)).
  { intros s Hm.
    destruct (move_ret _ _ Hm) as (h0 & rest0 & Hb0 & Hb' & _ & Hd & _).
    rewrite Hbs, Hb in Hb0. inversion Hb0; subst h0 rest0.
    split; [exact Hd|]. unfold Snake.head. rewrite Hb'. reflexivity. }
  assert (Hgoal :
    forall s, Snake.move (SnakeGame.snake (steer a g)) = Ret s ->
      Snake.direction s <> opposite d0 /\
      Snake.head s =
        Ret (fst h + fst (Snake.direction s),
             snd h + snd (Snake.direction s)) /\
      Snake.head s <> Ret k).
  { intros s Hm. destruct (Hmoved s Hm) as [Hd Hh].
    rewrite Hd. split; [exact Hd1|]. split; [exact Hh|].
    rewrite Hh, Hk. intros H. inversion H. apply Hd1.
    unfold opposite. destruct d1 as [x1 y1]. cbn [fst snd] in *.
    f_equal; lia. }
  destruct Hpath as [s h' rest' Hm _ _ _ Hs _ _ _ _ _
                    | s h' rest' f Hm _ _ _ _ Hs _ _ _ _
                    | s h' rest' Hm _ _ Hs _ _ _ _ _];
    rewrite Hs; exact (Hgoal s Hm).
Qed.

(** ** Reading the state back from the observation *)

Lemma reachable_observed (g : SnakeGame.t) :
  reachable g -> exists obs, SnakeGame.get_state g = Ret obs.
Proof.
  intros Hg. destruct (reachable_sound g Hg) as [_ _ Hn Hb _ _ _].
  apply get_state_total; assumption.
Qed.

(** X7.  [get_state] returns for every game the callers can hold, and
    unless the game is Won the grid part of the observation shows the
    whole state: entry [x * grid_size + y] is 2 exactly on the cell of the
    fruit, 1 exactly on the cells of the body and 0 exactly on the others,
    so that the fruit never hides a cell of the body. *)
Theorem observation_shows_the_board (g : SnakeGame.t) :
  reachable g ->
  SnakeGame.status_of g <> SnakeGame.Won ->
  exists obs,
    SnakeGame.get_state g = Ret obs /\
    forall x y,
      0 <= x < SnakeGame.grid_size g ->
      0 <= y < SnakeGame.grid_size g ->
      let v := nth (Z.to_nat (x * SnakeGame.grid_size g + y)) obs 0%Q in
      (v = 2%Q <-> (x, y) = Fruit.position (SnakeGame.fruit g)) /\
      (v = 1%Q <-> In (x, y) (Snake.body (SnakeGame.snake g))) /\
      (v = 0%Q <->
       (x, y) <> Fruit.position (SnakeGame.fruit g) /\
       ~ In (x, y) (Snake.body (SnakeGame.snake g))).
Proof.
  intros Hg Hnot.
  destruct (reachable_observed g Hg) as (obs & Hobs).
  exists obs. split; [exact Hobs|].
  destruct (reachable_tidy g Hg) as [_ _ _ _ Hfruit _ _].
  assert (Hfree : ~ In (Fruit.position (SnakeGame.fruit g))
                       (Snake.body (SnakeGame.snake g))).
  { apply Hfruit. rewrite status_won in Hnot.
    destruct (SnakeGame.won g); [contradiction | reflexivity]. }
  destruct (observation_layout g obs Hobs)
    as (hx & hy & _ & _ & _ & Hcell & _).
  intros x y Hx Hy v. subst v. rewrite (Hcell x y Hx Hy).
  destruct (pos_eqb (x, y) (Fruit.position (SnakeGame.fruit g))) eqn:He.
  - apply pos_eqb_eq in He. rewrite <- He in Hfree.
    split; [tauto|]. split; [split; [discriminate | contradiction]|].
    split; [discriminate | tauto].
  - apply pos_eqb_neq in He.
    destruct (pos_in (x, y) (Snake.body (SnakeGame.snake g))) eqn:Hin.
    + apply pos_in_In in Hin.
      split; [split; [discriminate | contradiction]|].
      split; [tauto|]. split; [discriminate | tauto].
    + apply pos_in_not_In in Hin.
      split; [split; [discriminate | contradiction]|].
      split; [split; [discriminate | contradiction]|]. tauto.
Qed.

(** X8.  The four entries that follow the grid are the one-hot code of
    the direction in the order Up, Down, Left, Right: the direction of a
    game the callers can hold is always one of the four actions, the entry
    of its index is 1 and the three others are 0, so that the default
    index of the dictionary lookup is never used. *)
Theorem observation_shows_the_direction (g : SnakeGame.t) (obs : list Q) :
  reachable g ->
  SnakeGame.get_state g = Ret obs ->
  exists i,
    (i < 4)%nat /\
    nth_error ACTIONS i = Some (Snake.direction (SnakeGame.snake g)) /\
    dict_get dir_map (Snake.direction (SnakeGame.snake g)) 7%nat = i /\
    forall j,
      (j < 4)%nat ->
      nth (Z.to_nat (SnakeGame.grid_size g * SnakeGame.grid_size g) + j)
          obs 0%Q
      = if (j =? i)%nat then 1%Q else 0%Q.
Proof.
  intros Hg Hobs.
  destruct (reachable_tidy g Hg) as [Hdir _ _ _ _ _ _].
  destruct (In_nth_error _ _ Hdir) as (i & Hi).
  assert (Hlt : (i < 4)%nat).
  { change 4%nat with (length ACTIONS). apply nth_error_Some.
    rewrite Hi. discriminate. }
  destruct (one_hot_of_action g i Hi) as [Hhot _].
  destruct (observation_layout g obs Hobs)
    as (hx & hy & _ & -> & Hlen & _ & _).
  exists i. split; [exact Hlt|]. split; [exact Hi|]. split.
  - destruct i as [|[|[|[|i]]]]; try lia;
      cbn in Hi; inversion Hi as [Hd]; reflexivity.
  - intros j Hj.
    pose proof (board_shaped g) as Hshape.
    pose proof (concat_shaped_length _ _ _ Hshape) as Hflat.
    assert (Hn : 0 <= SnakeGame.grid_size g).
    { destruct (reachable_sound g Hg) as [_ _ Hn _ _ _ _]. lia. }
    rewrite <- Z2Nat.inj_mul in Hflat by lia.
    rewrite app_nth2 by lia.
    rewrite Hflat, Nat.add_comm, Nat.add_sub.
    rewrite app_nth1 by (rewrite Hhot, set_nth_length; exact Hj).
    rewrite Hhot, set_nth_nth by (cbn; exact Hlt).
    rewrite Nat.eqb_sym.
    destruct (j =? i)%nat; [reflexivity|].
    destruct j as [|[|[|[|j]]]]; try lia; reflexivity.
Qed.

(** The two relative coordinates as the observation holds them: the
    offsets of the fruit from the head, divided by [grid_size - 1]. *)
Lemma rel_fruit_entries (g : SnakeGame.t) (obs : list Q) :
  reachable g ->
  SnakeGame.running g = true ->
  SnakeGame.get_state g = Ret obs ->
  let n := SnakeGame.grid_size g in
  exists hx hy,
    Snake.head (SnakeGame.snake g) = Ret (hx, hy) /\
    2 <= n /\
    in_grid n (hx, hy) /\
    in_grid n (Fruit.position (SnakeGame.fruit g)) /\
    nth (Z.to_nat (n * n) + 4) obs 0%Q =
      (inject_Z (fst (Fruit.position (SnakeGame.fruit g)) - hx)
       / inject_Z (n - 1))%Q /\
    nth (Z.to_nat (n * n) + 5) obs 0%Q =
      (inject_Z (snd (Fruit.position (SnakeGame.fruit g)) - hy)
       / inject_Z (n - 1))%Q.
Proof.
  intros Hg Hrun Hobs n.
  destruct (reachable_head_on_board g Hg Hrun) as ([hx hy] & Hh & Hin).
  destruct (reachable_sound g Hg) as [_ _ Hn _ Hf _ _]. fold n in Hn, Hf, Hin.
  destruct (observation_layout g obs Hobs)
    as (hx' & hy' & Hh' & Hobs' & _ & _ & _).
  rewrite Hh in Hh'. inversion Hh'; subst hx' hy'. fold n in Hobs'.
  pose proof (board_shaped g) as Hshape.
  pose proof (concat_shaped_length _ _ _ Hshape) as Hflat.
  fold n in Hflat. rewrite <- Z2Nat.inj_mul in Hflat by lia.
  assert (Hhot : length (one_hot g) = 4%nat)
    by (unfold one_hot; rewrite set_nth_length; reflexivity).
  exists hx, hy. split; [exact Hh|]. split; [exact Hn|].
  split; [exact Hin|]. split; [exact Hf|]. split.
  - rewrite Hobs', app_assoc.
    rewrite app_nth2 by (rewrite length_app, Hflat, Hhot; lia).
    rewrite length_app, Hflat, Hhot, Nat.sub_diag. reflexivity.
  - rewrite Hobs', app_assoc.
    rewrite app_nth2 by (rewrite length_app, Hflat, Hhot; lia).
    rewrite length_app, Hflat, Hhot.
    replace (Z.to_nat (n * n) + 5 - (Z.to_nat (n * n) + 4))%nat
      with 1%nat by lia.
    reflexivity.
Qed.

(** A quotient [k / d] with [|k| <= d]: its bounds, its sign, and how far
    it stays from 0. *)
Lemma quotient_sign (k d : Z) :
  0 < d -> - d <= k <= d ->
  let q := (inject_Z k / inject_Z d)%Q in
  (-1 <= q)%Q /\ (q <= 1)%Q /\
  (0 <= k -> (0 <= q)%Q) /\
  (k <= 0 -> (q <= 0)%Q) /\
  (0 < k -> (1 / inject_Z d <= q)%Q) /\
  (k < 0 -> (q <= - (1 / inject_Z d))%Q).
Proof.
  intros Hd Hk q. subst q.
  assert (Hq : (0 < inject_Z d)%Q).
  { change 0%Q with (inject_Z 0). rewrite <- Zlt_Qlt. exact Hd. }
  assert (Hdiv : forall a b : Z,
             a <= b -> (inject_Z a / inject_Z d <= inject_Z b / inject_Z d)%Q).
  { intros a b Hab. unfold Qdiv. apply Qmult_le_compat_r.
    - rewrite <- Zle_Qle. exact Hab.
    - apply Qlt_le_weak. apply Qinv_lt_0_compat. exact Hq. }
  assert (Hone : (inject_Z d / inject_Z d == 1)%Q).
  { apply Qmult_inv_r. intros E. rewrite E in Hq. discriminate. }
  assert (Hmone : (inject_Z (- d) / inject_Z d == -1)%Q).
  { rewrite inject_Z_opp. unfold Qdiv.
    setoid_replace (- inject_Z d * / inject_Z d)%Q
      with (- (inject_Z d * / inject_Z d))%Q by ring.
    fold (Qdiv (inject_Z d) (inject_Z d)). rewrite Hone. reflexivity. }
  assert (Hzero : (inject_Z 0 / inject_Z d == 0)%Q).
  { unfold Qdiv. change (inject_Z 0) with 0%Q. ring. }
  assert (Hunit : (inject_Z 1 / inject_Z d == 1 / inject_Z d)%Q)
    by reflexivity.
  assert (Hmunit : (inject_Z (-1) / inject_Z d == - (1 / inject_Z d))%Q).
  { change (inject_Z (-1)) with (- (1))%Q. unfold Qdiv. ring. }
  split; [rewrite <- Hmone; apply Hdiv; lia|].
  split; [rewrite <- Hone; apply Hdiv; lia|].
  split; [intros H; rewrite <- Hzero; apply Hdiv; exact H|].
  split; [intros H; rewrite <- Hzero; apply Hdiv; exact H|].
  split; [intros H; rewrite <- Hunit; apply Hdiv; lia|].
  intros H. rewrite <- Hmunit. apply Hdiv. lia.
Qed.

(** What a rounding that never reverses an order, and keeps [-1], [0] and
    [1], leaves of such a quotient. *)
Lemma rounded_quotient_sign (r : Q -> Q) (k d : Z) :
  (forall a b, (a <= b)%Q -> (r a <= r b)%Q) ->
  (r 0 == 0)%Q -> (r 1 == 1)%Q -> (r (-1) == -1)%Q ->
  0 < d -> - d <= k <= d ->
  let q := (inject_Z k / inject_Z d)%Q in
  (-1 <= r q /\ r q <= 1)%Q /\
  (0 <= k -> (0 <= r q)%Q) /\
  (k <= 0 -> (r q <= 0)%Q) /\
  ((0 < r q)%Q -> 0 < k) /\
  ((r q < 0)%Q -> k < 0) /\
  ((0 < r (1 / inject_Z d))%Q -> 0 < k -> (0 < r q)%Q) /\
  ((r (- (1 / inject_Z d)) < 0)%Q -> k < 0 -> (r q < 0)%Q).
Proof.
  intros Hmono H0 H1 Hm1 Hd Hk q.
  destruct (quotient_sign k d Hd Hk) as (Hlo & Hhi & Hpos & Hneg & Hup & Hdown).
  fold q in Hlo, Hhi, Hpos, Hneg, Hup, Hdown.
  assert (Hge : 0 <= k -> (0 <= r q)%Q).
  { intros H. rewrite <- H0. apply Hmono. apply Hpos. exact H. }
  assert (Hle : k <= 0 -> (r q <= 0)%Q).
  { intros H. rewrite <- H0. apply Hmono. apply Hneg. exact H. }
  split; [split|].
  - rewrite <- Hm1. apply Hmono. exact Hlo.
  - rewrite <- H1. apply Hmono. exact Hhi.
  - split; [exact Hge|]. split; [exact Hle|]. split; [|split; [|split]].
    + intros H. destruct (Z_lt_le_dec 0 k) as [Hk0|Hk0]; [exact Hk0|].
      exfalso. apply (Qlt_not_le _ _ H). apply Hle. exact Hk0.
    + intros H. destruct (Z_lt_le_dec k 0) as [Hk0|Hk0]; [exact Hk0|].
      exfalso. apply (Qlt_not_le _ _ H). apply Hge. exact Hk0.
    + intros Hr Hk0. eapply Qlt_le_trans; [exact Hr|].
      apply Hmono. apply Hup. exact Hk0.
    + intros Hr Hk0. eapply Qle_lt_trans; [|exact Hr].
      apply Hmono. apply Hdown. exact Hk0.
Qed.

(** X9.  While a game the callers can hold is running, the last two
    entries of the observation point from the head to the fruit, and they
    still do after rounding.  For every rounding [r] that never reverses
    an order and keeps [-1], [0] and [1] (as the rounding to float32
    does), the rounded entries lie within [-1, 1]; the first is not
    negative when the fruit is not left of the head and not positive when
    it is not right of it, hence 0 when both are in one column; and a
    positive (negative) entry is only found when the fruit is right
    (left) of the head.  It is positive (negative) whenever the fruit is
    right (left) of the head, provided [r] does not take the smallest
    quotient [1 / (grid_size - 1)] to 0.  The second entry does the same
    for the rows. *)
Theorem observation_locates_the_fruit (g : SnakeGame.t) (obs : list Q) :
  reachable g ->
  SnakeGame.running g = true ->
  SnakeGame.get_state g = Ret obs ->
  let n := SnakeGame.grid_size g in
  let dx := nth (Z.to_nat (n * n) + 4) obs 0%Q in
  let dy := nth (Z.to_nat (n * n) + 5) obs 0%Q in
  let fx := fst (Fruit.position (SnakeGame.fruit g)) in
  let fy := snd (Fruit.position (SnakeGame.fruit g)) in
  exists hx hy,
    Snake.head (SnakeGame.snake g) = Ret (hx, hy) /\
    forall r : Q -> Q,
      (forall a b, (a <= b)%Q -> (r a <= r b)%Q) ->
      (r 0 == 0)%Q -> (r 1 == 1)%Q -> (r (-1) == -1)%Q ->
      ((-1 <= r dx /\ r dx <= 1)%Q /\
       (hx <= fx -> (0 <= r dx)%Q) /\
       (fx <= hx -> (r dx <= 0)%Q) /\
       ((0 < r dx)%Q -> hx < fx) /\
       ((r dx < 0)%Q -> fx < hx) /\
       ((0 < r (1 / inject_Z (n - 1)))%Q -> hx < fx -> (0 < r dx)%Q) /\
       ((r (- (1 / inject_Z (n - 1))) < 0)%Q -> fx < hx -> (r dx < 0)%Q)) /\
      ((-1 <= r dy /\ r dy <= 1)%Q /\
       (hy <= fy -> (0 <= r dy)%Q) /\
       (fy <= hy -> (r dy <= 0)%Q) /\
       ((0 < r dy)%Q -> hy < fy) /\
       ((r dy < 0)%Q -> fy < hy) /\
       ((0 < r (1 / inject_Z (n - 1)))%Q -> hy < fy -> (0 < r dy)%Q) /\
       ((r (- (1 / inject_Z (n - 1))) < 0)%Q -> fy < hy -> (r dy < 0)%Q)).
Proof.
  intros Hg Hrun Hobs n dx dy fx fy.
  destruct (rel_fruit_entries g obs Hg Hrun Hobs)
    as (hx & hy & Hh & Hn & [Hhx Hhy] & [Hfx Hfy] & Hdx & Hdy).
  fold n in Hn, Hhx, Hhy, Hfx, Hfy, Hdx, Hdy.
  cbn [fst snd] in Hhx, Hhy. fold fx in Hfx, Hdx. fold fy in Hfy, Hdy.
  fold dx in Hdx. fold dy in Hdy.
  exists hx, hy. split; [exact Hh|].
  intros r Hmono H0 H1 Hm1. rewrite Hdx, Hdy. split.
  - destruct (rounded_quotient_sign r (fx - hx) (n - 1) Hmono H0 H1 Hm1
                ltac:(lia) ltac:(lia))
      as (Hb & Hge & Hle & Hp & Hm & Hsp & Hsm).
    split; [exact Hb|].
    split; [intros H; apply Hge; lia|].
    split; [intros H; apply Hle; lia|].
    split; [intros H; specialize (Hp H); lia|].
    split; [intros H; specialize (Hm H); lia|].
    split; [intros Hr H; apply Hsp; [exact Hr | lia]|].
    intros Hr H. apply Hsm; [exact Hr | lia].
  - destruct (rounded_quotient_sign r (fy - hy) (n - 1) Hmono H0 H1 Hm1
                ltac:(lia) ltac:(lia))
      as (Hb & Hge & Hle & Hp & Hm & Hsp & Hsm).
    split; [exact Hb|].
    split; [intros H; apply Hge; lia|].
    split; [intros H; apply Hle; lia|].
    split; [intros H; specialize (Hp H); lia|].
    split; [intros H; specialize (Hm H); lia|].
    split; [intros Hr H; apply Hsp; [exact Hr | lia]|].
    intros Hr H. apply Hsm; [exact Hr | lia].
Qed.

(** ** The draws a tick consumes *)

(** X10.  A tick consumes draws only to place the fruit again.  Either
    the fruit stays where it was and no draw is consumed, or the head has
    landed on the fruit, the score has gone up by one, and the fruit now
    lies on the first draw that is not a cell of the body: every draw
    consumed before it was a cell of the body, and the draws after it are
    left for the next placement. *)
Theorem tick_draws_only_for_the_fruit (rnd rnd' : draws) (a : Z)
        (g g' : SnakeGame.t) (out : list Q * Q * bool) :
  SnakeGame.step rnd a g = Ret (g', rnd', out) ->
  (SnakeGame.fruit g' = SnakeGame.fruit g /\ rnd' = rnd) \/
  (exists rejected,
      rnd = rejected ++ Fruit.position (SnakeGame.fruit g') :: rnd' /\
      Forall (fun q => In q (Snake.body (SnakeGame.snake g'))) rejected /\
      ~ In (Fruit.position (SnakeGame.fruit g'))
           (Snake.body (SnakeGame.snake g')) /\
      Snake.head (SnakeGame.snake g') =
        Ret (Fruit.position (SnakeGame.fruit g)) /\
      Fruit.position (SnakeGame.fruit g') <>
        Fruit.position (SnakeGame.fruit g) /\
      SnakeGame.score g' = SnakeGame.score g + 1).
Proof.
  intros Hstep. destruct out as [[obs r] d].
  apply step_ret in Hstep. destruct Hstep as (_ & Hu & _).
  apply update_ret in Hu. destruct Hu as [_ Hpath].
  destruct (steer_fields a g) as (_ & Hf0 & Hsc0 & _).
  destruct Hpath as [s h rest Hm Hbs He Hlen Hs Hfr Hsc Hr' Hw' Hrnd
                    | s h rest f Hm Hbs He Hlen Hre Hs Hfr Hsc Hr' Hw'
                    | s h rest Hm Hbs He Hs Hfr Hsc Hr' Hw' Hrnd].
  - left. split; congruence.
  - right. apply respawn_ret in Hre. destruct Hre as [_ Hre].
    apply new_position_ret in Hre.
    destruct Hre as (Hfree & rejected & Hrnd & Hrej).
    assert (Hbody : Snake.body (SnakeGame.snake g') = Snake.body s)
      by (rewrite Hs; reflexivity).
    exists rejected. rewrite Hbody, Hfr.
    split; [exact Hrnd|]. split; [exact Hrej|]. split; [exact Hfree|].
    split; [|split].
    + rewrite Hs. unfold Snake.head. cbn [Snake.grow_snake Snake.body].
      rewrite Hbs, He, Hf0. reflexivity.
    + intros Heq. apply Hfree. rewrite Heq, <- Hf0, <- He, Hbs.
      left. reflexivity.
    + lia.
  - left. split; congruence.
Qed.

(** ** The evaluation loop *)

Lemma argmax_from_bound (best_i i : nat) (best : Q) (l : list Q) :
  (best_i < i)%nat -> (argmax_from best_i best i l < i + length l)%nat.
Proof.
  revert best_i best i. induction l as [|x l IH]; intros best_i best i Hi.
  - simpl. lia.
  - simpl. destruct (Qle_bool x best).
    + specialize (IH best_i best (S i) ltac:(lia)). lia.
    + specialize (IH i x (S i) ltac:(lia)). lia.
Qed.

Lemma argmax_bound (l : list Q) : l <> [] -> (argmax l < length l)%nat.
Proof.
  destruct l as [|x l]; [congruence|]. intros _. unfold argmax.
  pose proof (argmax_from_bound 0 1 x l ltac:(lia)). simpl. lia.
Qed.

Lemma greedy_in_range (model : list Q -> list Q) (state : list Q) :
  length (model state) = 4%nat -> 0 <= greedy model state < 4.
Proof.
  intros H. unfold greedy.
  assert (model state <> []) by (intros E; rewrite E in H; discriminate).
  pose proof (argmax_bound (model state) ltac:(assumption)). lia.
Qed.

Lemma step_score (rnd rnd' : draws) (a : Z) (g g' : SnakeGame.t)
      (out : list Q * Q * bool) :
  SnakeGame.step rnd a g = Ret (g', rnd', out) ->
  SnakeGame.score g <= SnakeGame.score g' <= SnakeGame.score g + 1.
Proof.
  intros Hstep. destruct out as [[obs r] d].
  apply step_ret in Hstep. destruct Hstep as (_ & Hu & _).
  apply update_ret in Hu. destruct Hu as [_ Hpath].
  destruct (steer_fields a g) as (_ & _ & Hsc0 & _).
  destruct Hpath as [s h rest _ _ _ _ _ _ Hsc _ _ _
                    | s h rest f _ _ _ _ _ _ _ Hsc _ _
                    | s h rest _ _ _ _ _ Hsc _ _ _]; lia.
Qed.

Lemma step_draws (rnd rnd' : draws) (a : Z) (g g' : SnakeGame.t)
      (out : list Q * Q * bool) (n : Z) :
  SnakeGame.step rnd a g = Ret (g', rnd', out) ->
  Forall (in_grid n) rnd ->
  Forall (in_grid n) rnd' /\ SnakeGame.grid_size g' = SnakeGame.grid_size g.
Proof.
  intros Hstep Hall. destruct out as [[obs r] d].
  apply step_ret in Hstep. destruct Hstep as (_ & Hu & _).
  pose proof (update_draws _ _ _ _ Hu) as (used & ->).
  apply update_ret in Hu. destruct Hu as [(Hn & _) _].
  destruct (steer_fields a g) as ((Hn0 & _) & _).
  apply Forall_app in Hall. split; [tauto | congruence].
Qed.

Lemma ai_step_ret (rnd rnd' : draws) (a : Z) (g g' : SnakeGame.t) :
  SnakeGame.ai_step rnd a g = Ret (g', rnd') ->
  exists out, SnakeGame.step rnd a g = Ret (g', rnd', out).
Proof.
  unfold SnakeGame.ai_step.
  destruct (SnakeGame.step rnd a g) as [[[g1 rnd1] out]| |];
    cbn [bind]; try discriminate.
  intros H; inversion H; subst. eauto.
Qed.

Lemma reachable_won_score (g : SnakeGame.t) :
  reachable g ->
  0 <= SnakeGame.score g <=
    SnakeGame.grid_size g * SnakeGame.grid_size g - 3 /\
  (SnakeGame.won g = true <->
   SnakeGame.score g = SnakeGame.grid_size g * SnakeGame.grid_size g - 3).
Proof.
  intros Hg.
  pose proof (reachable_score_nonneg g Hg) as H0.
  destruct (reachable_sound g Hg) as [_ _ _ _ _ Hroom _].
  destruct (reachable_tidy g Hg) as [_ Hscore _ _ _ Hwon _].
  destruct (SnakeGame.won g) eqn:Hw.
  - destruct (Hwon eq_refl) as (Hgrow & _ & Hlen).
    rewrite Hgrow in Hscore.
    split; [lia|]. split; [intros _; lia | reflexivity].
  - specialize (Hroom eq_refl).
    split; [lia|]. split; [discriminate | lia].
Qed.

Section EvaluatorFacts.

Variable model : list Q -> list Q.
Variables GRID_SIZE CELL_SIZE MAX_STEPS : Z.

(** What the loop of an episode returns from a game the callers can hold. *)
Lemma episode_loop_ret (fuel : nat) (rnd rnd' : draws) (g g' : SnakeGame.t)
      (steps steps' : Z) :
  reachable g ->
  Forall (in_grid (SnakeGame.grid_size g)) rnd ->
  Evaluate.episode_loop model MAX_STEPS fuel rnd g steps
    = Ret (g', rnd', steps') ->
  reachable g' /\
  SnakeGame.grid_size g' = SnakeGame.grid_size g /\
  Forall (in_grid (SnakeGame.grid_size g)) rnd' /\
  steps <= steps' <= Z.max steps MAX_STEPS /\
  (SnakeGame.running g' = true -> MAX_STEPS <= steps') /\
  SnakeGame.score g <= SnakeGame.score g' <=
    SnakeGame.score g + (steps' - steps).
Proof.
  revert rnd g steps.
  induction fuel as [|fuel IH]; intros rnd g steps Hg Hall;
    cbn [Evaluate.episode_loop];
    destruct (SnakeGame.running g) eqn:Hrun; cbn [andb];
    try destruct (steps <? MAX_STEPS) eqn:Hlt; try discriminate;
    try (intros H; inversion H; subst;
         repeat split; auto; try lia; congruence).
  destruct (reachable_observed g Hg) as (obs & ->). cbn [bind].
  destruct (SnakeGame.ai_step rnd (greedy model obs) g)
    as [[g1 rnd1]|e|] eqn:Hai; cbn [bind]; try discriminate.
  destruct (ai_step_ret _ _ _ _ _ Hai) as (out & Hstep).
  pose proof (reachable_step _ _ _ _ _ _ Hg Hrun Hall Hstep) as Hg1.
  destruct (step_draws _ _ _ _ _ _ _ Hstep Hall) as [Hall1 Hn1].
  pose proof (step_score _ _ _ _ _ _ Hstep) as Hsc.
  rewrite <- Hn1 in Hall1.
  intros H.
  destruct (IH rnd1 g1 (steps + 1) Hg1 Hall1 H)
    as (Hg' & Hn' & Hall' & Hst & Hfull & Hscore).
  rewrite Hn1 in Hn', Hall'. apply Z.ltb_lt in Hlt.
  repeat split; auto; try lia.
Qed.

(** The loop ends on its own within [MAX_STEPS] passes: more fuel changes
    nothing. *)
Lemma episode_loop_fuel (fuel fuel' : nat) (rnd : draws) (g : SnakeGame.t)
      (steps : Z) :
  MAX_STEPS - steps <= Z.of_nat fuel ->
  MAX_STEPS - steps <= Z.of_nat fuel' ->
  Evaluate.episode_loop model MAX_STEPS fuel' rnd g steps =
  Evaluate.episode_loop model MAX_STEPS fuel rnd g steps.
Proof.
  revert fuel' rnd g steps.
  induction fuel as [|fuel IH]; intros fuel' rnd g steps Hf Hf';
    destruct fuel' as [|fuel']; cbn [Evaluate.episode_loop];
    destruct (SnakeGame.running g); cbn [andb]; try reflexivity;
    destruct (steps <? MAX_STEPS) eqn:Hlt; try reflexivity;
    apply Z.ltb_lt in Hlt; try lia.
  destruct (SnakeGame.get_state g) as [obs| |]; cbn [bind];
    try reflexivity.
  destruct (SnakeGame.ai_step rnd (greedy model obs) g)
    as [[g1 rnd1]| |]; cbn [bind]; try reflexivity.
  apply IH; lia.
Qed.

Lemma episode_loop_never_raises (fuel : nat) (rnd : draws) (g : SnakeGame.t)
      (steps : Z) (e : exn) :
  (forall state, length (model state) = 4%nat) ->
  reachable g ->
  Forall (in_grid (SnakeGame.grid_size g)) rnd ->
  Evaluate.episode_loop model MAX_STEPS fuel rnd g steps <> Raise e.
Proof.
  intros four_outputs. revert rnd g steps.
  induction fuel as [|fuel IH]; intros rnd g steps Hg Hall;
    cbn [Evaluate.episode_loop];
    destruct (SnakeGame.running g && (steps <? MAX_STEPS)) eqn:Hc;
    try discriminate.
  apply andb_true_iff in Hc. destruct Hc as [Hrun _].
  destruct (reachable_observed g Hg) as (obs & ->). cbn [bind].
  pose proof (greedy_in_range model obs (four_outputs obs)) as Ha.
  destruct (SnakeGame.ai_step rnd (greedy model obs) g)
    as [[g1 rnd1]|e1|] eqn:Hai; cbn [bind].
  - destruct (ai_step_ret _ _ _ _ _ Hai) as (out & Hstep).
    pose proof (reachable_step _ _ _ _ _ _ Hg Hrun Hall Hstep) as Hg1.
    destruct (step_draws _ _ _ _ _ _ _ Hstep Hall) as [Hall1 Hn1].
    rewrite <- Hn1 in Hall1. apply IH; assumption.
  - exfalso. unfold SnakeGame.ai_step in Hai.
    destruct (SnakeGame.step rnd (greedy model obs) g)
      as [[[g1 rnd1] out]|e2|] eqn:Hstep; cbn [bind] in Hai;
      try discriminate.
    eapply step_never_raises_when_reachable; eauto.
  - discriminate.
Qed.

Lemma evaluator_new_game (rnd rnd' : draws) (g : SnakeGame.t) :
  Forall (in_grid GRID_SIZE) rnd ->
  Evaluate.new_game GRID_SIZE CELL_SIZE rnd = Ret (g, rnd') ->
  reachable g /\ SnakeGame.grid_size g = GRID_SIZE /\
  SnakeGame.score g = 0 /\ Forall (in_grid GRID_SIZE) rnd'.
Proof.
  intros Hall Hnew. unfold Evaluate.new_game in Hnew.
  split; [eapply reach_init; eauto|].
  pose proof (init_ret _ _ _ _ _ _ _ _ _ _ Hnew) as (p & Hp & ->).
  cbn. split; [reflexivity|]. split; [reflexivity|].
  apply new_position_ret in Hp. destruct Hp as (_ & skipped & -> & _).
  apply Forall_app in Hall. destruct Hall as [_ Hall].
  apply Forall_cons_iff in Hall. tauto.
Qed.

Lemma run_episode_ret (rnd rnd' : draws) (g : SnakeGame.t) (steps : Z) :
  Forall (in_grid GRID_SIZE) rnd ->
  Evaluate.run_episode model GRID_SIZE CELL_SIZE MAX_STEPS rnd
    = Ret (g, rnd', steps) ->
  reachable g /\
  SnakeGame.grid_size g = GRID_SIZE /\
  Forall (in_grid GRID_SIZE) rnd' /\
  0 <= steps <= Z.max 0 MAX_STEPS /\
  (SnakeGame.running g = true -> steps = Z.max 0 MAX_STEPS) /\
  0 <= SnakeGame.score g <= steps.
Proof.
  intros Hall. unfold Evaluate.run_episode.
  destruct (Evaluate.new_game GRID_SIZE CELL_SIZE rnd)
    as [[g0 rnd0]| |] eqn:Hnew; cbn [bind]; try discriminate.
  destruct (evaluator_new_game _ _ _ Hall Hnew) as (Hg0 & Hn0 & Hs0 & Hall0).
  intros Hloop. rewrite <- Hn0 in Hall0.
  destruct (episode_loop_ret _ _ _ _ _ _ _ Hg0 Hall0 Hloop)
    as (Hg & Hn & Hall' & Hst & Hfull & Hsc).
  rewrite Hn0 in Hn, Hall'.
  repeat split; auto; try lia.
  intros Hr. specialize (Hfull Hr). lia.
Qed.

Lemma run_episode_never_raises (rnd : draws) (e : exn) :
  (forall state, length (model state) = 4%nat) ->
  Forall (in_grid GRID_SIZE) rnd ->
  Evaluate.run_episode model GRID_SIZE CELL_SIZE MAX_STEPS rnd <> Raise e.
Proof.
  intros H4 Hall. unfold Evaluate.run_episode.
  destruct (Evaluate.new_game GRID_SIZE CELL_SIZE rnd)
    as [[g0 rnd0]|e0|] eqn:Hnew; cbn [bind].
  - destruct (evaluator_new_game _ _ _ Hall Hnew) as (Hg0 & Hn0 & _ & Hall0).
    rewrite <- Hn0 in Hall0. apply episode_loop_never_raises; assumption.
  - exfalso. unfold Evaluate.new_game in Hnew. revert Hnew.
    unfold SnakeGame.init, Fruit.init.
    destruct (Fruit.new_position GRID_SIZE (Snake.body (Snake.init GRID_SIZE)) rnd)
      as [[p r]|e1|] eqn:Hp; cbn [bind]; try discriminate.
    exfalso. eapply new_position_never_raises; eauto.
  - discriminate.
Qed.

(** The tally of an evaluation, from any value of its accumulators. *)
Lemma evaluate_episodes_ret (k : nat) (rnd rnd' : draws)
      (scores steps_list scores' steps' : list Z) (wins wins' : Z) :
  Forall (in_grid GRID_SIZE) rnd ->
  Evaluate.evaluate_episodes model GRID_SIZE CELL_SIZE MAX_STEPS k rnd
    scores steps_list wins = Ret (scores', steps', wins', rnd') ->
  exists sc st,
    scores' = scores ++ sc /\ steps' = steps_list ++ st /\
    length sc = k /\ length st = k /\
    wins' = wins + Z.of_nat (count_occ Z.eq_dec sc
                               (GRID_SIZE * GRID_SIZE - 3)) /\
    Forall2 (fun s t => 0 <= s <= t /\ t <= Z.max 0 MAX_STEPS /\
                        s <= GRID_SIZE * GRID_SIZE - 3) sc st.
Proof.
  revert rnd scores steps_list wins.
  induction k as [|k IH]; intros rnd scores steps_list wins Hall;
    cbn [Evaluate.evaluate_episodes].
  - intros H. inversion H; subst. exists [], [].
    rewrite !app_nil_r. cbn. repeat split; auto; lia.
  - destruct (Evaluate.run_episode model GRID_SIZE CELL_SIZE MAX_STEPS rnd)
      as [[[g rnd1] t]| |] eqn:Hrun; cbn [bind]; try discriminate.
    destruct (run_episode_ret _ _ _ _ Hall Hrun)
      as (Hg & Hn & Hall1 & Ht & _ & Hs).
    destruct (reachable_won_score g Hg) as [Hle Hwon]. rewrite Hn in Hle, Hwon.
    intros H. destruct (IH _ _ _ _ Hall1 H)
      as (sc & st & -> & -> & Hlsc & Hlst & -> & Hall2).
    exists (SnakeGame.score g :: sc), (t :: st).
    rewrite <- !app_assoc. cbn [app length].
    split; [reflexivity|]. split; [reflexivity|].
    split; [lia|]. split; [lia|]. split.
    + cbn [count_occ].
      destruct (Z.eq_dec (SnakeGame.score g) (GRID_SIZE * GRID_SIZE - 3))
        as [E|E].
      * apply Hwon in E. rewrite E. lia.
      * destruct (SnakeGame.won g) eqn:Hw; [|lia].
        exfalso. apply E. apply Hwon. reflexivity.
    + constructor; [lia | exact Hall2].
Qed.

Lemma evaluate_episodes_never_raises (k : nat) (rnd : draws)
      (scores steps_list : list Z) (wins : Z) (e : exn) :
  (forall state, length (model state) = 4%nat) ->
  Forall (in_grid GRID_SIZE) rnd ->
  Evaluate.evaluate_episodes model GRID_SIZE CELL_SIZE MAX_STEPS k rnd
    scores steps_list wins <> Raise e.
Proof.
  intros H4. revert rnd scores steps_list wins.
  induction k as [|k IH]; intros rnd scores steps_list wins Hall;
    cbn [Evaluate.evaluate_episodes]; [discriminate|].
  destruct (Evaluate.run_episode model GRID_SIZE CELL_SIZE MAX_STEPS rnd)
    as [[[g rnd1] t]|e1|] eqn:Hrun; cbn [bind].
  - destruct (run_episode_ret _ _ _ _ Hall Hrun) as (_ & _ & Hall1 & _).
    apply IH. exact Hall1.
  - exfalso. eapply run_episode_never_raises; eauto.
  - discriminate.
Qed.

(** X11.  An evaluation episode stops as soon as the game is over, and
    after [MAX_STEPS] actions at the latest: its loop ends on its own
    within [MAX_STEPS] passes, whatever the network answers.  It reports
    between 0 and [MAX_STEPS] steps, and a game still running only with
    exactly [MAX_STEPS] of them.  The score of the episode is at most its
    number of steps, and the game it ends with is one the callers can
    hold. *)
Theorem episode_stops_with_the_game (rnd : draws) :
  Forall (in_grid GRID_SIZE) rnd ->
  (forall fuel rnd0 g0,
      (Z.to_nat MAX_STEPS <= fuel)%nat ->
      Evaluate.episode_loop model MAX_STEPS fuel rnd0 g0 0 =
      Evaluate.episode_loop model MAX_STEPS (Z.to_nat MAX_STEPS) rnd0 g0 0) /\
  (forall g rnd' steps,
      Evaluate.run_episode model GRID_SIZE CELL_SIZE MAX_STEPS rnd
        = Ret (g, rnd', steps) ->
      0 <= steps <= Z.max 0 MAX_STEPS /\
      (SnakeGame.running g = true -> steps = Z.max 0 MAX_STEPS) /\
      (steps < MAX_STEPS -> SnakeGame.running g = false) /\
      0 <= SnakeGame.score g <= steps /\
      SnakeGame.grid_size g = GRID_SIZE /\
      reachable g).
Proof.
  intros Hall. split.
  - intros fuel rnd0 g0 Hfuel. apply episode_loop_fuel; lia.
  - intros g rnd' steps Hrun.
    destruct (run_episode_ret _ _ _ _ Hall Hrun)
      as (Hg & Hn & _ & Ht & Hfull & Hs).
    repeat split; auto; try lia.
    intros Hlt. destruct (SnakeGame.running g); [|reflexivity].
    specialize (Hfull eq_refl). lia.
Qed.

(** X12.  What [evaluate_performance] tallies: one score and one step count
    per episode; each score is at least 0, at most the steps of its
    episode and at most [GRID_SIZE * GRID_SIZE - 3]; each step count is at
    most [MAX_STEPS]; and [wins] is the number of episodes whose score is
    [GRID_SIZE * GRID_SIZE - 3], so it lies between 0 and
    [num_episodes]. *)
Theorem evaluation_tally (num_episodes : nat) (rnd rnd' : draws)
        (scores steps_list : list Z) (wins : Z) :
  Forall (in_grid GRID_SIZE) rnd ->
  Evaluate.evaluate_episodes model GRID_SIZE CELL_SIZE MAX_STEPS
    num_episodes rnd [] [] 0 = Ret (scores, steps_list, wins, rnd') ->
  length scores = num_episodes /\
  length steps_list = num_episodes /\
  Forall2 (fun s t => 0 <= s <= t /\ t <= Z.max 0 MAX_STEPS /\
                      s <= GRID_SIZE * GRID_SIZE - 3) scores steps_list /\
  wins = Z.of_nat (count_occ Z.eq_dec scores (GRID_SIZE * GRID_SIZE - 3)) /\
  0 <= wins <= Z.of_nat num_episodes.
Proof.
  intros Hall H.
  destruct (evaluate_episodes_ret _ _ _ _ _ _ _ _ _ Hall H)
    as (sc & st & -> & -> & Hlsc & Hlst & -> & Hall2).
  cbn [app]. repeat split; auto; try lia.
  pose proof (count_occ_bound Z.eq_dec (GRID_SIZE * GRID_SIZE - 3) sc). lia.
Qed.

Lemma fold_max_spec (l : list Z) (x : Z) :
  (fold_left Z.max l x = x \/ In (fold_left Z.max l x) l) /\
  x <= fold_left Z.max l x /\
  Forall (fun y => y <= fold_left Z.max l x) l.
Proof.
  revert x. induction l as [|a l IH]; intros x; cbn [fold_left].
  - split; [auto|]. split; [lia | constructor].
  - destruct (IH (Z.max x a)) as (Hin & Hle & Hall).
    split; [|split].
    + destruct Hin as [E|Hin]; [|right; right; exact Hin].
      rewrite E. destruct (Z.max_spec x a) as [[_ ->]|[_ ->]]; cbn; auto.
    + lia.
    + constructor; [lia | exact Hall].
Qed.

Lemma fold_min_spec (l : list Z) (x : Z) :
  (fold_left Z.min l x = x \/ In (fold_left Z.min l x) l) /\
  fold_left Z.min l x <= x /\
  Forall (fun y => fold_left Z.min l x <= y) l.
Proof.
  revert x. induction l as [|a l IH]; intros x; cbn [fold_left].
  - split; [auto|]. split; [lia | constructor].
  - destruct (IH (Z.min x a)) as (Hin & Hle & Hall).
    split; [|split].
    + destruct Hin as [E|Hin]; [|right; right; exact Hin].
      rewrite E. destruct (Z.min_spec x a) as [[_ ->]|[_ ->]]; cbn; auto.
    + lia.
    + constructor; [lia | exact Hall].
Qed.

Lemma np_max_spec (l : list Z) (m : Z) :
  np_max l = Ret m -> In m l /\ Forall (fun y => y <= m) l.
Proof.
  destruct l as [|x l]; [discriminate|]. cbn [np_max].
  intros H; inversion H; subst.
  destruct (fold_max_spec l x) as (Hin & Hle & Hall). split.
  - destruct Hin as [->|Hin]; [left; reflexivity | right; exact Hin].
  - constructor; assumption.
Qed.

Lemma np_min_spec (l : list Z) (m : Z) :
  np_min l = Ret m -> In m l /\ Forall (fun y => m <= y) l.
Proof.
  destruct l as [|x l]; [discriminate|]. cbn [np_min].
  intros H; inversion H; subst.
  destruct (fold_min_spec l x) as (Hin & Hle & Hall). split.
  - destruct Hin as [->|Hin]; [left; reflexivity | right; exact Hin].
  - constructor; assumption.
Qed.

Lemma fold_add_bounds (a b : Z) (l : list Z) (acc : Z) :
  Forall (fun y => a <= y <= b) l ->
  acc + a * Z.of_nat (length l) <= fold_left Z.add l acc
    <= acc + b * Z.of_nat (length l).
Proof.
  revert acc. induction l as [|x l IH]; intros acc Hall;
    cbn [fold_left length].
  - lia.
  - apply Forall_cons_iff in Hall. destruct Hall as [Hx Hall].
    specialize (IH (acc + x) Hall). lia.
Qed.

Lemma np_mean_bounds (a b : Z) (l : list Z) :
  l <> [] ->
  Forall (fun y => a <= y <= b) l ->
  exists m, np_mean l = Some m /\ (inject_Z a <= m <= inject_Z b)%Q.
Proof.
  intros Hne Hall. destruct l as [|x l]; [congruence|].
  eexists. split; [reflexivity|].
  pose proof (fold_add_bounds a b (x :: l) 0 Hall) as Hsum.
  set (n := Z.of_nat (length (x :: l))) in *.
  assert (Hn : (0 < inject_Z n)%Q).
  { change 0%Q with (inject_Z 0). rewrite <- Zlt_Qlt. subst n. cbn. lia. }
  split.
  - apply Qle_shift_div_l; [exact Hn|].
    rewrite <- inject_Z_mult, <- Zle_Qle. lia.
  - apply Qle_shift_div_r; [exact Hn|].
    rewrite <- inject_Z_mult, <- Zle_Qle. lia.
Qed.

Lemma ratio_bounds (w n : Z) :
  0 < n -> 0 <= w <= n ->
  (0 <= inject_Z w / inject_Z n <= 1)%Q /\
  ((inject_Z w / inject_Z n == 1)%Q <-> w = n).
Proof.
  intros Hn Hw.
  assert (Hq : (0 < inject_Z n)%Q).
  { change 0%Q with (inject_Z 0). rewrite <- Zlt_Qlt. exact Hn. }
  split; [split|split].
  - apply Qle_shift_div_l; [exact Hq|].
    rewrite Qmult_0_l. change 0%Q with (inject_Z 0).
    rewrite <- Zle_Qle. lia.
  - apply Qle_shift_div_r; [exact Hq|].
    rewrite Qmult_1_l. rewrite <- Zle_Qle. lia.
  - intros H.
    assert (E : (inject_Z w == inject_Z n)%Q).
    { rewrite <- (Qmult_1_l (inject_Z n)), <- H.
      rewrite Qmult_comm, Qmult_div_r; [reflexivity|].
      intros E. rewrite E in Hq. discriminate. }
    unfold Qeq in E. cbn in E. lia.
  - intros ->. apply Qmult_inv_r.
    intros E. rewrite E in Hq. discriminate.
Qed.

Lemma count_occ_all (l : list Z) (x : Z) :
  count_occ Z.eq_dec l x = length l <-> Forall (fun s => s = x) l.
Proof.
  induction l as [|a l IH]; cbn [count_occ length].
  - split; [constructor | reflexivity].
  - pose proof (count_occ_bound Z.eq_dec x l) as Hb.
    destruct (Z.eq_dec a x) as [->|Hne].
    + rewrite Forall_cons_iff, <- IH. split; [intros H; split; [auto|lia]
                                             | intros [_ H]; lia].
    + split; [lia|]. intros H. apply Forall_cons_iff in H. tauto.
Qed.

(** X13.  [evaluate_performance] raises exactly when it is asked for no
    episode, when the network has four outputs: for a number of episodes
    that is 0 or negative the loop runs no episode and the call fails
    with the [ValueError] of [np.max] on an empty list.  With at least
    one episode nothing raises: the greedy action is always one of the
    four action indices, the body is never empty and the board has at
    least two cells a side whenever a game could be set up. *)
Theorem evaluation_raises_only_without_episodes (num_episodes : Z)
        (rnd : draws) :
  (forall state, length (model state) = 4%nat) ->
  Forall (in_grid GRID_SIZE) rnd ->
  (num_episodes <= 0 ->
   Evaluate.evaluate_performance model GRID_SIZE CELL_SIZE MAX_STEPS
     num_episodes rnd = Raise ValueError) /\
  (forall e,
      Evaluate.evaluate_performance model GRID_SIZE CELL_SIZE MAX_STEPS
        num_episodes rnd = Raise e ->
      num_episodes <= 0 /\ e = ValueError).
Proof.
  intros H4 Hall. split.
  - intros Hle. unfold Evaluate.evaluate_performance.
    replace (Z.to_nat num_episodes) with 0%nat by lia. reflexivity.
  - intros e. unfold Evaluate.evaluate_performance.
    destruct (Evaluate.evaluate_episodes model GRID_SIZE CELL_SIZE
                MAX_STEPS (Z.to_nat num_episodes) rnd [] [] 0)
      as [[[[sc st] w] rnd']|e1|] eqn:He; cbn [bind].
    + destruct (evaluate_episodes_ret _ _ _ _ _ _ _ _ _ Hall He)
        as (sc' & st' & -> & -> & Hl & _).
      cbn [app] in *. destruct sc' as [|s sc'].
      * cbn. cbn [length] in Hl. intros H; inversion H. split; [lia | auto].
      * cbn [np_max np_min bind]. cbn [length] in Hl.
        assert ((num_episodes =? 0) = false) as -> by lia.
        cbn [bind]. discriminate.
    + intros _. exfalso.
      eapply evaluate_episodes_never_raises; eauto.
    + discriminate.
Qed.

(** X14.  The figures that [evaluate_performance] returns: the largest
    and the smallest score are scores of episodes, and every score, as
    well as the mean score, lies between them; no score is below 0 or
    above [GRID_SIZE * GRID_SIZE - 3]; the win rate lies between 0 and 1,
    and it is 1 exactly when every episode reached that largest
    score. *)
Theorem evaluation_statistics (num_episodes : Z) (rnd rnd' : draws)
        (res : Evaluate.results) :
  Forall (in_grid GRID_SIZE) rnd ->
  Evaluate.evaluate_performance model GRID_SIZE CELL_SIZE MAX_STEPS
    num_episodes rnd = Ret (res, rnd') ->
  0 < num_episodes /\
  Z.of_nat (length (Evaluate.scores res)) = num_episodes /\
  In (Evaluate.max_score res) (Evaluate.scores res) /\
  In (Evaluate.min_score res) (Evaluate.scores res) /\
  Forall (fun s => Evaluate.min_score res <= s <= Evaluate.max_score res)
         (Evaluate.scores res) /\
  (exists m,
      Evaluate.mean_score res = Some m /\
      (inject_Z (Evaluate.min_score res) <= m
       <= inject_Z (Evaluate.max_score res))%Q) /\
  0 <= Evaluate.min_score res /\
  Evaluate.max_score res <= GRID_SIZE * GRID_SIZE - 3 /\
  (0 <= Evaluate.win_rate res <= 1)%Q /\
  ((Evaluate.win_rate res == 1)%Q <->
   Forall (fun s => s = GRID_SIZE * GRID_SIZE - 3) (Evaluate.scores res)).
Proof.
  intros Hall. unfold Evaluate.evaluate_performance.
  destruct (Evaluate.evaluate_episodes model GRID_SIZE CELL_SIZE
              MAX_STEPS (Z.to_nat num_episodes) rnd [] [] 0)
    as [[[[sc st] w] rnd1]| |] eqn:He; cbn [bind]; try discriminate.
  destruct (evaluate_episodes_ret _ _ _ _ _ _ _ _ _ Hall He)
    as (sc' & st' & E1 & E2 & Hl & _ & Hw & Hall2).
  cbn [app] in E1, E2. subst sc' st'. rewrite Z.add_0_l in Hw.
  destruct (np_max sc) as [mx| |] eqn:Hmx; cbn [bind]; try discriminate.
  destruct (np_min sc) as [mn| |] eqn:Hmn; cbn [bind]; try discriminate.
  destruct (num_episodes =? 0) eqn:Hz; cbn [bind]; try discriminate.
  apply Z.eqb_neq in Hz.
  intros H; inversion H; subst res rnd1. clear H.
  cbn [Evaluate.scores Evaluate.max_score Evaluate.min_score
       Evaluate.mean_score Evaluate.win_rate].
  destruct (np_max_spec _ _ Hmx) as [Hmxin Hmxall].
  destruct (np_min_spec _ _ Hmn) as [Hmnin Hmnall].
  assert (Hpos : 0 < num_episodes).
  { destruct sc as [|s sc]; [destruct Hmxin|]. cbn [length] in Hl. lia. }
  assert (Hlen : Z.of_nat (length sc) = num_episodes) by lia.
  assert (Hrange : Forall (fun s => 0 <= s <= GRID_SIZE * GRID_SIZE - 3) sc).
  { clear - Hall2. induction Hall2; constructor; auto; lia. }
  assert (Hbetween : Forall (fun s => mn <= s <= mx) sc).
  { rewrite Forall_forall in *. intros s Hs.
    specialize (Hmxall s Hs). specialize (Hmnall s Hs). lia. }
  pose proof (count_occ_bound Z.eq_dec (GRID_SIZE * GRID_SIZE - 3) sc)
    as Hcount.
  destruct (ratio_bounds w num_episodes) as [Hrate Hone];
    [lia | lia |].
  split; [exact Hpos|]. split; [exact Hlen|]. split; [exact Hmxin|].
  split; [exact Hmnin|]. split; [exact Hbetween|].
  split; [apply np_mean_bounds; [|exact Hbetween];
          intros E; rewrite E in Hmxin; destruct Hmxin|].
  rewrite Forall_forall in Hrange.
  split; [apply (Hrange mn Hmnin)|]. split; [apply (Hrange mx Hmxin)|].
  split; [exact Hrate|].
  rewrite Hone, <- count_occ_all. lia.
Qed.

End EvaluatorFacts.

(** ** The event loop of main.py *)

Lemma arrow_is_an_action (k : Main.key) (d : pos) :
  Main.arrow k = Some d -> In d ACTIONS.
Proof.
  destruct k; cbn; intros H; inversion H; subst; cbn; auto.
Qed.

Lemma turn_keeps (d : pos) (g : SnakeGame.t) :
  same_settings g (turn d g) /\
  Snake.body (SnakeGame.snake (turn d g)) = Snake.body (SnakeGame.snake g) /\
  Snake.grow (SnakeGame.snake (turn d g)) = Snake.grow (SnakeGame.snake g) /\
  SnakeGame.fruit (turn d g) = SnakeGame.fruit g /\
  SnakeGame.score (turn d g) = SnakeGame.score g /\
  SnakeGame.running (turn d g) = SnakeGame.running g /\
  SnakeGame.won (turn d g) = SnakeGame.won g.
Proof.
  destruct (set_direction_keeps d (SnakeGame.snake g)) as (Hb & Hg & _).
  unfold turn, same_settings. destruct g; cbn in *. repeat split; auto.
Qed.

Lemma init_draws (n cell : Z) (mode : string) (rf rd rs rw : Q)
      (rnd rnd' : draws) (g : SnakeGame.t) (m : Z) :
  SnakeGame.init n cell mode rf rd rs rw rnd = Ret (g, rnd') ->
  Forall (in_grid m) rnd -> Forall (in_grid m) rnd'.
Proof.
  intros Hinit Hall.
  pose proof (init_ret _ _ _ _ _ _ _ _ _ _ Hinit) as (p & Hp & _).
  apply new_position_ret in Hp. destruct Hp as (_ & skipped & -> & _).
  apply Forall_app in Hall. destruct Hall as [_ Hall].
  apply Forall_cons_iff in Hall. tauto.
Qed.

Lemma init_never_raises (n cell : Z) (mode : string) (rf rd rs rw : Q)
      (rnd : draws) (e : exn) :
  SnakeGame.init n cell mode rf rd rs rw rnd <> Raise e.
Proof.
  unfold SnakeGame.init, Fruit.init.
  destruct (Fruit.new_position n (Snake.body (Snake.init n)) rnd)
    as [[p r]|e1|] eqn:Hp; cbn [bind]; try discriminate.
  exfalso. eapply new_position_never_raises; eauto.
Qed.

Section MainFacts.

Variable mode : string.
Variable ai_model : option (list Q -> list Q).

Lemma on_event_reachable (ev : Main.event) (rnd rnd' : draws)
      (s s' : Main.t) :
  reachable (Main.game s) ->
  Forall (in_grid (SnakeGame.grid_size (Main.game s))) rnd ->
  Main.on_event mode ai_model ev rnd s = Ret (s', rnd') ->
  reachable (Main.game s') /\
  SnakeGame.grid_size (Main.game s') = SnakeGame.grid_size (Main.game s) /\
  Forall (in_grid (SnakeGame.grid_size (Main.game s))) rnd'.
Proof.
  intros Hg Hall. destruct ev as [|k| |]; cbn [Main.on_event].
  - intros H; inversion H; subst. cbn. auto.
  - set (game1 := if String.eqb mode "human" then _ else _).
    assert (Hg1 : reachable game1 /\
                  SnakeGame.grid_size game1 =
                    SnakeGame.grid_size (Main.game s)).
    { subst game1. destruct (String.eqb mode "human"); [|auto].
      destruct (Main.arrow k) as [d|] eqn:Hk; [|auto]. split.
      - apply reach_turn; [exact Hg|]. eapply arrow_is_an_action; eauto.
      - destruct (turn_keeps d (Main.game s)) as [(Hn & _) _]. exact Hn. }
    destruct Hg1 as [Hg1 Hn1].
    destruct (Main.is_r k && negb (SnakeGame.running game1)).
    + unfold SnakeGame.reset.
      destruct (SnakeGame.init _ _ _ _ _ _ _ rnd) as [[g2 rnd2]| |] eqn:Hi;
        cbn [bind]; try discriminate.
      intros H; inversion H; subst. cbn [Main.game].
      rewrite Hn1 in Hi. split; [eapply reach_init; eauto|]. split.
      * pose proof (init_ret _ _ _ _ _ _ _ _ _ _ Hi) as (p & _ & ->).
        reflexivity.
      * eapply init_draws; eauto.
    + intros H; inversion H; subst. cbn [Main.game]. auto.
  - destruct (SnakeGame.running (Main.game s)) eqn:Hrun.
    + destruct (if String.eqb mode "ai" then ai_model else None)
        as [model|].
      * destruct (SnakeGame.get_state (Main.game s)) as [obs| |];
          cbn [bind]; try discriminate.
        destruct (SnakeGame.ai_step rnd (greedy model obs) (Main.game s))
          as [[g1 rnd1]| |] eqn:Hai; cbn [bind]; try discriminate.
        intros H; inversion H; subst. cbn [Main.game].
        destruct (ai_step_ret _ _ _ _ _ Hai) as (out & Hstep).
        destruct (step_draws _ _ _ _ _ _ _ Hstep Hall) as [Hall1 Hn1].
        split; [exact (reachable_step _ _ _ _ _ _ Hg Hrun Hall Hstep)|].
        split; assumption.
      * destruct (SnakeGame.update rnd (Main.game s))
          as [[g1 rnd1]| |] eqn:Hu; cbn [bind]; try discriminate.
        intros H; inversion H; subst. cbn [Main.game].
        split; [exact (reach_update _ _ _ _ Hg Hrun Hall Hu)|].
        pose proof (update_draws _ _ _ _ Hu) as (used & ->).
        apply update_ret in Hu. destruct Hu as [(Hn & _) _].
        apply Forall_app in Hall. tauto.
    + intros H; inversion H; subst. auto.
  - intros H; inversion H; subst. auto.
Qed.

Lemma on_event_never_raises (ev : Main.event) (rnd : draws) (s : Main.t)
      (e : exn) :
  (forall model, ai_model = Some model ->
                 forall state, length (model state) = 4%nat) ->
  reachable (Main.game s) ->
  Main.on_event mode ai_model ev rnd s <> Raise e.
Proof.
  intros H4 Hg. destruct ev as [|k| |]; cbn [Main.on_event];
    try discriminate.
  - match goal with
    | |- context [if ?c then _ else Ret _] => destruct c
    end; [|discriminate].
    unfold SnakeGame.reset.
    destruct (SnakeGame.init _ _ _ _ _ _ _ rnd) as [[g2 rnd2]|e1|] eqn:Hi;
      cbn [bind]; try discriminate.
    exfalso. eapply init_never_raises; eauto.
  - destruct (SnakeGame.running (Main.game s)) eqn:Hrun; [|discriminate].
    destruct (if String.eqb mode "ai" then ai_model else None)
      as [model|] eqn:Hm.
    + assert (ai_model = Some model) as Hmodel
        by (destruct (String.eqb mode "ai"); congruence).
      destruct (reachable_observed _ Hg) as (obs & ->). cbn [bind].
      unfold SnakeGame.ai_step.
      destruct (SnakeGame.step rnd (greedy model obs) (Main.game s))
        as [[[g1 rnd1] out]|e1|] eqn:Hstep; cbn [bind]; try discriminate.
      exfalso.
      eapply (step_never_raises_when_reachable rnd (greedy model obs));
        eauto.
      apply greedy_in_range. apply (H4 model Hmodel).
    + destruct (SnakeGame.update rnd (Main.game s))
        as [[g1 rnd1]|e1|] eqn:Hu; cbn [bind]; try discriminate.
      exfalso. apply update_raise in Hu. destruct Hu as [_ Hb].
      destruct (reachable_sound _ Hg) as [_ _ _ Hne _ _ _]. congruence.
Qed.

Lemma frame_reachable (events : list Main.event) (rnd rnd' : draws)
      (s s' : Main.t) :
  reachable (Main.game s) ->
  Forall (in_grid (SnakeGame.grid_size (Main.game s))) rnd ->
  Main.frame mode ai_model events rnd s = Ret (s', rnd') ->
  reachable (Main.game s') /\
  SnakeGame.grid_size (Main.game s') = SnakeGame.grid_size (Main.game s) /\
  Forall (in_grid (SnakeGame.grid_size (Main.game s))) rnd'.
Proof.
  revert rnd s. induction events as [|ev events IH]; intros rnd s Hg Hall;
    cbn [Main.frame].
  - intros H; inversion H; subst. auto.
  - destruct (Main.on_event mode ai_model ev rnd s)
      as [[s1 rnd1]| |] eqn:Hev; cbn [bind]; try discriminate.
    destruct (on_event_reachable _ _ _ _ _ Hg Hall Hev)
      as (Hg1 & Hn1 & Hall1).
    intros H. rewrite <- Hn1 in Hall1.
    destruct (IH _ _ Hg1 Hall1 H) as (Hg' & Hn' & Hall').
    rewrite Hn1 in Hn', Hall'. auto.
Qed.

Lemma frame_never_raises (events : list Main.event) (rnd : draws)
      (s : Main.t) (e : exn) :
  (forall model, ai_model = Some model ->
                 forall state, length (model state) = 4%nat) ->
  reachable (Main.game s) ->
  Forall (in_grid (SnakeGame.grid_size (Main.game s))) rnd ->
  Main.frame mode ai_model events rnd s <> Raise e.
Proof.
  intros H4. revert rnd s.
  induction events as [|ev events IH]; intros rnd s Hg Hall;
    cbn [Main.frame]; [discriminate|].
  destruct (Main.on_event mode ai_model ev rnd s)
    as [[s1 rnd1]|e1|] eqn:Hev; cbn [bind].
  - destruct (on_event_reachable _ _ _ _ _ Hg Hall Hev)
      as (Hg1 & Hn1 & Hall1).
    rewrite <- Hn1 in Hall1. apply IH; assumption.
  - exfalso. eapply on_event_never_raises; eauto.
  - discriminate.
Qed.

Lemma loop_never_raises (frames : list (list Main.event)) (rnd : draws)
      (s : Main.t) (e : exn) :
  (forall model, ai_model = Some model ->
                 forall state, length (model state) = 4%nat) ->
  reachable (Main.game s) ->
  Forall (in_grid (SnakeGame.grid_size (Main.game s))) rnd ->
  Main.loop mode ai_model frames rnd s <> Raise e.
Proof.
  intros H4. revert rnd s.
  induction frames as [|events frames IH]; intros rnd s Hg Hall;
    cbn [Main.loop]; destruct (Main.running s); try discriminate.
  destruct (Main.frame mode ai_model events rnd s)
    as [[s1 rnd1]|e1|] eqn:Hf; cbn [bind].
  - destruct (frame_reachable _ _ _ _ _ Hg Hall Hf) as (Hg1 & Hn1 & Hall1).
    rewrite <- Hn1 in Hall1. apply IH; assumption.
  - exfalso. eapply frame_never_raises; eauto.
  - discriminate.
Qed.

Lemma loop_ret (frames : list (list Main.event)) (rnd rnd' : draws)
      (s s' : Main.t) :
  reachable (Main.game s) ->
  Forall (in_grid (SnakeGame.grid_size (Main.game s))) rnd ->
  Main.loop mode ai_model frames rnd s = Ret (s', rnd') ->
  Main.running s' = false /\ reachable (Main.game s') /\
  SnakeGame.grid_size (Main.game s') = SnakeGame.grid_size (Main.game s).
Proof.
  revert rnd s.
  induction frames as [|events frames IH]; intros rnd s Hg Hall;
    cbn [Main.loop]; destruct (Main.running s) eqn:Hr; try discriminate.
  - intros H; inversion H; subst. auto.
  - destruct (Main.frame mode ai_model events rnd s)
      as [[s1 rnd1]| |] eqn:Hf; cbn [bind]; try discriminate.
    destruct (frame_reachable _ _ _ _ _ Hg Hall Hf) as (Hg1 & Hn1 & Hall1).
    intros H. rewrite <- Hn1 in Hall1.
    destruct (IH _ _ Hg1 Hall1 H) as (Hr' & Hg' & Hn').
    rewrite Hn1 in Hn'. auto.
  - intros H; inversion H; subst. auto.
Qed.

(** X15.  No sequence of key presses, timer ticks and other events makes
    the game loop of main.py raise, in either mode, when the network (if
    there is one) has four outputs; and when the loop ends, it holds a
    12 x 12 game that the constructor, the arrow keys and the moves can
    produce. *)
Theorem game_loop_never_raises (frames : list (list Main.event))
        (rnd : draws) :
  (forall model, ai_model = Some model ->
                 forall state, length (model state) = 4%nat) ->
  Forall (in_grid 12) rnd ->
  (forall e, Main.main mode ai_model frames rnd <> Raise e) /\
  (forall s rnd',
      Main.main mode ai_model frames rnd = Ret (s, rnd') ->
      Main.running s = false /\ reachable (Main.game s) /\
      SnakeGame.grid_size (Main.game s) = 12).
Proof.
  intros H4 Hall. unfold Main.main, Main.start.
  destruct (SnakeGame.init 12 32 mode 5 (-10) (-1 # 100) 100 rnd)
    as [[g rnd0]|e0|] eqn:Hi; cbn [bind].
  - assert (Hg : reachable g) by (eapply reach_init; eauto).
    pose proof (init_draws _ _ _ _ _ _ _ _ _ _ 12 Hi Hall) as Hall0.
    pose proof (init_ret _ _ _ _ _ _ _ _ _ _ Hi) as (p & _ & Hgeq).
    assert (Hn : SnakeGame.grid_size g = 12) by (rewrite Hgeq; reflexivity).
    split.
    + intros e. apply loop_never_raises; cbn [Main.game]; auto.
      rewrite Hn. exact Hall0.
    + intros s rnd' Hl.
      apply loop_ret in Hl; cbn [Main.game] in *; auto.
      * rewrite Hn in Hl. exact Hl.
      * rewrite Hn. exact Hall0.
  - exfalso. eapply init_never_raises; eauto.
  - split; discriminate.
Qed.

End MainFacts.

(** ** A game that nobody steers *)

Lemma in_a_row_removelast (x y : Z) (l : list pos) :
  in_a_row x y l -> in_a_row x y (removelast l).
Proof.
  revert x. induction l as [|c l IH]; intros x; [auto|].
  cbn [in_a_row]. intros [Hc Hl]. destruct l as [|c' l]; [exact I|].
  change (removelast (c :: c' :: l)) with (c :: removelast (c' :: l)).
  cbn [in_a_row]. split; auto.
Qed.

Lemma in_a_row_left (x y : Z) (l : list pos) (c : pos) :
  in_a_row x y l -> In c l -> fst c <= x.
Proof.
  revert x. induction l as [|a l IH]; intros x; cbn [in_a_row In];
    [tauto|].
  intros [-> Hl] [<- | Hin]; [cbn; lia|].
  specialize (IH _ Hl Hin). lia.
Qed.

Lemma hits_in_a_row (n x y : Z) (rest : list pos) :
  in_a_row x y rest -> 0 <= y < n -> 0 <= x + 1 ->
  hits n (x + 1, y) rest = (x + 1 >=? n).
Proof.
  intros Hrow Hy Hx. unfold hits. cbn [fst snd].
  assert (pos_in (x + 1, y) rest = false) as ->.
  { apply pos_in_not_In. intros Hin.
    pose proof (in_a_row_left _ _ _ _ Hrow Hin). cbn in *. lia. }
  destruct (x + 1 <? 0) eqn:E1; [lia|].
  destruct (y <? 0) eqn:E2; [lia|].
  destruct (y >=? n) eqn:E3; [lia|].
  cbn. rewrite orb_false_r. reflexivity.
Qed.

Lemma update_straight (k : Z) (g g' : SnakeGame.t) (rnd rnd' : draws) :
  straight k g ->
  SnakeGame.update rnd g = Ret (g', rnd') ->
  (k < 5 -> straight (k + 1) g') /\ (k = 5 -> crashed g').
Proof.
  intros [Hk Hsz Hn Hd Hrow Hhead Hlen Hsc Hrun Hwon] Hu.
  apply update_ret in Hu. destruct Hu as [(Hn' & _) Hpath].
  assert (Hmoved :
    forall s h rest,
      Snake.move (SnakeGame.snake g) = Ret s ->
      Snake.body s = h :: rest ->
      h = (6 + k + 1, 6) /\ in_a_row (6 + k) 6 rest /\
      Z.of_nat (length (Snake.body s)) <= 3 + k /\
      Snake.grow s = false /\ Snake.direction s = (1, 0) /\
      Snake.grid_size s = 12).
  { intros s h rest Hm Hbs.
    pose proof (move_length _ _ Hm) as Hl.
    apply move_ret in Hm.
    destruct Hm as (h0 & rest0 & Hb0 & Hbs' & Hg' & Hd' & Hsz').
    unfold Snake.head in Hhead. rewrite Hb0 in Hhead.
    inversion Hhead; subst h0. rewrite Hd in Hbs'. cbn [fst snd] in Hbs'.
    rewrite Hbs in Hbs'. inversion Hbs'; subst.
    split; [f_equal; lia|]. split.
    - destruct (Snake.grow (SnakeGame.snake g));
        [|apply in_a_row_removelast]; exact Hrow.
    - split; [|split; [exact Hg' | split; congruence]].
      rewrite Hl. destruct (Snake.grow (SnakeGame.snake g)); lia. }
  assert (Hhit :
    forall rest, in_a_row (6 + k) 6 rest ->
                 hits 12 (6 + k + 1, 6) rest = (k =? 5)).
  { intros rest Hr. rewrite hits_in_a_row by (auto; lia).
    destruct (k =? 5) eqn:E; lia. }
  destruct Hpath
    as [s h rest Hm Hbs _ Hfull Hs _ _ _ _ _
       | s h rest f Hm Hbs _ _ _ Hs _ Hsc' Hr' Hw'
       | s h rest Hm Hbs _ Hs _ Hsc' Hr' Hw' _];
    destruct (Hmoved s h rest Hm Hbs)
      as (-> & Hrest & Hl & Hg & Hds & Hss).
  - exfalso. rewrite Hn in Hfull. lia.
  - rewrite Hss, (Hhit rest Hrest) in Hr'.
    split.
    + intros Hlt. assert ((k =? 5) = false) as E by lia. rewrite E in Hr'.
      constructor; rewrite ?Hs;
        cbn [Snake.grow_snake Snake.body Snake.direction Snake.grid_size
             Snake.grow]; try congruence; try lia.
      * rewrite Hbs. cbn [in_a_row]. split; [f_equal; lia|].
        replace (6 + (k + 1) - 1) with (6 + k) by lia. exact Hrest.
      * unfold Snake.head. cbn [Snake.body Snake.grow_snake]. rewrite Hbs.
        f_equal. f_equal. lia.
    + intros ->. cbn in Hr'.
      constructor; rewrite ?Hs;
        cbn [Snake.grow_snake Snake.body Snake.direction Snake.grid_size
             Snake.grow]; try congruence; try lia.
      unfold Snake.head. cbn [Snake.body Snake.grow_snake]. rewrite Hbs.
      reflexivity.
  - rewrite Hss, (Hhit rest Hrest) in Hr'.
    split.
    + intros Hlt. assert ((k =? 5) = false) as E by lia. rewrite E in Hr'.
      constructor; rewrite ?Hs; try congruence; try lia.
      * rewrite Hbs. cbn [in_a_row]. split; [f_equal; lia|].
        replace (6 + (k + 1) - 1) with (6 + k) by lia. exact Hrest.
      * unfold Snake.head. rewrite Hbs. f_equal. f_equal. lia.
      * rewrite Hg. lia.
    + intros ->. cbn in Hr'.
      constructor; rewrite ?Hs; try congruence; try lia.
      unfold Snake.head. rewrite Hbs. reflexivity.
Qed.

Lemma crashed_stays (events : list Main.event) (rnd rnd' : draws)
      (s s' : Main.t) :
  crashed (Main.game s) ->
  ~ In (Main.KEYDOWN Main.K_r) events ->
  Main.frame "ai" None events rnd s = Ret (s', rnd') ->
  Main.game s' = Main.game s.
Proof.
  revert rnd s. induction events as [|ev events IH]; intros rnd s Hc Hno;
    cbn [Main.frame].
  - intros H; inversion H; subst. reflexivity.
  - assert (Hstep : exists r,
              Main.on_event "ai" None ev rnd s =
                Ret (Main.mk (Main.game s) r, rnd)).
    { destruct ev as [|k| |]; cbn.
      - eauto.
      - destruct k; try (eexists; reflexivity).
        exfalso. apply Hno. left. reflexivity.
      - rewrite (crashed_running _ Hc). destruct s; eauto.
      - destruct s; eauto. }
    destruct Hstep as (r & ->). cbn [bind]. intros H.
    rewrite (IH rnd (Main.mk (Main.game s) r) Hc
                (fun Hin => Hno (or_intror Hin)) H).
    reflexivity.
Qed.

Lemma straight_frame (events : list Main.event) (k : Z) (rnd rnd' : draws)
      (s s' : Main.t) :
  straight k (Main.game s) ->
  ~ In (Main.KEYDOWN Main.K_r) events ->
  Main.frame "ai" None events rnd s = Ret (s', rnd') ->
  (k + timer_ticks events <= 5 ->
   straight (k + timer_ticks events) (Main.game s')) /\
  (6 <= k + timer_ticks events -> crashed (Main.game s')).
Proof.
  revert k rnd s.
  induction events as [|ev events IH]; intros k rnd s Hst Hno;
    cbn [Main.frame].
  - intros H; inversion H; subst. cbn [timer_ticks].
    pose proof (straight_range _ _ Hst).
    split; [intros _; replace (k + 0) with k by lia; exact Hst | lia].
  - assert (Hno' : ~ In (Main.KEYDOWN Main.K_r) events)
      by (intros Hin; apply Hno; right; exact Hin).
    destruct ev as [|key| |].
    + cbn [Main.on_event bind timer_ticks]. apply IH; assumption.
    + assert (Hstep : exists r,
                Main.on_event "ai" None (Main.KEYDOWN key) rnd s =
                  Ret (Main.mk (Main.game s) r, rnd)).
      { destruct key; try (cbn; eexists; reflexivity).
        exfalso. apply Hno. left. reflexivity. }
      destruct Hstep as (r & ->). cbn [bind timer_ticks].
      apply IH; assumption.
    + cbn [Main.on_event timer_ticks].
      rewrite (straight_running _ _ Hst).
      change (if String.eqb "ai" "ai" then @None (list Q -> list Q)
              else None) with (@None (list Q -> list Q)).
      cbv iota.
      destruct (SnakeGame.update rnd (Main.game s))
        as [[g1 rnd1]| |] eqn:Hu; cbn [bind]; try discriminate.
      destruct (update_straight _ _ _ _ _ Hst Hu) as [Hnext Hend].
      pose proof (straight_range _ _ Hst) as Hk.
      intros H.
      assert (Hticks : 0 <= timer_ticks events).
      { clear. induction events as [|[|?| |] ? ?]; cbn [timer_ticks]; lia. }
      destruct (Z.eq_dec k 5) as [->|Hne].
      * specialize (Hend eq_refl). split; [lia|]. intros _.
        rewrite (crashed_stays events rnd1 rnd'
                   (Main.mk g1 (Main.running s)) s' Hend Hno' H).
        exact Hend.
      * specialize (Hnext ltac:(lia)).
        destruct (IH (k + 1) rnd1 (Main.mk g1 (Main.running s))
                     Hnext Hno' H) as [H1 H2].
        replace (k + (1 + timer_ticks events))
          with (k + 1 + timer_ticks events) by lia.
        split; assumption.
    + cbn [Main.on_event bind timer_ticks]. apply IH; assumption.
Qed.

(** X16.  In AI mode without a checkpoint nobody steers: the timer still
    moves the snake, which goes straight to the right.  After [m] timer
    events (and no restart) the head is on column [6 + m] of row 6 and
    the game is running, as long as [m] is at most 5; from the sixth on
    the game is over, the head outside the board on column 12.  The
    score is at most the number of timer events. *)
Theorem unsteered_snake_hits_the_wall (events : list Main.event)
        (rnd rnd0 rnd' : draws) (s0 s' : Main.t) :
  Main.start "ai" rnd = Ret (s0, rnd0) ->
  Main.frame "ai" None events rnd0 s0 = Ret (s', rnd') ->
  ~ In (Main.KEYDOWN Main.K_r) events ->
  let m := timer_ticks events in
  let g := Main.game s' in
  Snake.direction (SnakeGame.snake g) = (1, 0) /\
  0 <= SnakeGame.score g <= m /\
  (m <= 5 ->
   SnakeGame.status_of g = SnakeGame.Running /\
   Snake.head (SnakeGame.snake g) = Ret (6 + m, 6)) /\
  (6 <= m ->
   SnakeGame.status_of g = SnakeGame.Died /\
   Snake.head (SnakeGame.snake g) = Ret (12, 6)).
Proof.
  intros Hstart Hframe Hno m g.
  assert (Hst : straight 0 (Main.game s0)).
  { unfold Main.start in Hstart.
    destruct (SnakeGame.init 12 32 "ai" 5 (-10) (-1 # 100) 100 rnd)
      as [[g0 r0]| |] eqn:Hi; cbn [bind] in Hstart; try discriminate.
    inversion Hstart; subst.
    pose proof (init_ret _ _ _ _ _ _ _ _ _ _ Hi) as (p & _ & ->).
    constructor; cbn; try reflexivity; try lia. repeat split. }
  destruct (straight_frame _ _ _ _ _ _ Hst Hno Hframe) as [Hrun Hend].
  cbn [Z.add] in Hrun, Hend. fold m in Hrun, Hend. fold g in Hrun, Hend.
  destruct (Z_le_gt_dec m 5) as [Hle|Hgt].
  - specialize (Hrun Hle).
    destruct Hrun as [Hk _ _ Hd _ Hh _ Hsc Hr Hw].
    split; [exact Hd|]. split; [lia|]. split; [|lia]. intros _.
    split; [|exact Hh].
    unfold SnakeGame.status_of. rewrite Hw, Hr. reflexivity.
  - specialize (Hend ltac:(lia)).
    destruct Hend as [Hd Hh Hsc Hr Hw].
    split; [exact Hd|]. split; [lia|]. split; [lia|]. intros _.
    split; [|exact Hh].
    unfold SnakeGame.status_of. rewrite Hw, Hr. reflexivity.
Qed.

(** ** After the game is over *)

Section Restart.

Variable mode : string.
Variable ai_model : option (list Q -> list Q).

Lemma finished_game_event (ev : Main.event) (rnd : draws) (s : Main.t) :
  SnakeGame.running (Main.game s) = false ->
  ev <> Main.KEYDOWN Main.K_r ->
  exists s',
    Main.on_event mode ai_model ev rnd s = Ret (s', rnd) /\
    Snake.body (SnakeGame.snake (Main.game s')) =
      Snake.body (SnakeGame.snake (Main.game s)) /\
    SnakeGame.fruit (Main.game s') = SnakeGame.fruit (Main.game s) /\
    SnakeGame.score (Main.game s') = SnakeGame.score (Main.game s) /\
    SnakeGame.running (Main.game s') = false /\
    SnakeGame.won (Main.game s') = SnakeGame.won (Main.game s).
Proof.
  intros Hover Hev. destruct ev as [|k| |]; cbn [Main.on_event].
  - eexists. split; [reflexivity|]. cbn. auto.
  - assert (Main.is_r k = false) as ->
      by (destruct k; try reflexivity; congruence).
    cbn [andb]. eexists. split; [reflexivity|]. cbn [Main.game].
    destruct (String.eqb mode "human"); [|auto].
    destruct (Main.arrow k) as [d|]; [|auto].
    destruct (turn_keeps d (Main.game s)) as (_ & Hb & _ & Hf & Hs & Hr & Hw).
    repeat split; congruence.
  - rewrite Hover. eexists. split; [reflexivity|]. auto.
  - eexists. split; [reflexivity|]. auto.
Qed.

(** X17.  Once the game is over the loop leaves it as it is: whatever
    events arrive, other than the key R, the body, the fruit, the score
    and the two flags stay, and no position is drawn.  The key R does
    nothing while the game is running; once it is over, R puts a fresh
    game with the same settings in its place. *)
Theorem finished_game_waits_for_r (events : list Main.event)
        (rnd : draws) (s : Main.t) :
  (SnakeGame.running (Main.game s) = false ->
   ~ In (Main.KEYDOWN Main.K_r) events ->
   exists s',
     Main.frame mode ai_model events rnd s = Ret (s', rnd) /\
     Snake.body (SnakeGame.snake (Main.game s')) =
       Snake.body (SnakeGame.snake (Main.game s)) /\
     SnakeGame.fruit (Main.game s') = SnakeGame.fruit (Main.game s) /\
     SnakeGame.score (Main.game s') = SnakeGame.score (Main.game s) /\
     SnakeGame.running (Main.game s') = false /\
     SnakeGame.won (Main.game s') = SnakeGame.won (Main.game s)) /\
  (SnakeGame.running (Main.game s) = true ->
   Main.on_event mode ai_model (Main.KEYDOWN Main.K_r) rnd s
     = Ret (s, rnd)) /\
  (SnakeGame.running (Main.game s) = false ->
   forall s' rnd',
     Main.on_event mode ai_model (Main.KEYDOWN Main.K_r) rnd s
       = Ret (s', rnd') ->
     same_settings (Main.game s) (Main.game s') /\
     SnakeGame.snake (Main.game s') =
       Snake.init (SnakeGame.grid_size (Main.game s)) /\
     SnakeGame.score (Main.game s') = 0 /\
     SnakeGame.status_of (Main.game s') = SnakeGame.Running /\
     Main.running s' = Main.running s).
Proof.
  split; [|split].
  - revert rnd s. induction events as [|ev events IH];
      intros rnd s Hover Hno; cbn [Main.frame].
    + exists s. repeat split; auto.
    + destruct (finished_game_event ev rnd s Hover)
        as (s1 & -> & Hb & Hf & Hs & Hr & Hw).
      { intros ->. apply Hno. left. reflexivity. }
      cbn [bind].
      destruct (IH rnd s1 Hr (fun Hin => Hno (or_intror Hin)))
        as (s' & -> & Hb' & Hf' & Hs' & Hr' & Hw').
      exists s'. split; [reflexivity|]. repeat split; congruence.
  - intros Hrun. cbn [Main.on_event Main.arrow Main.is_r Main.is_escape].
    assert ((if String.eqb mode "human" then Main.game s else Main.game s)
            = Main.game s) as -> by (destruct (String.eqb mode "human"); auto).
    rewrite Hrun. cbn. destruct s; reflexivity.
  - intros Hover s' rnd'.
    cbn [Main.on_event Main.arrow Main.is_r Main.is_escape].
    assert ((if String.eqb mode "human" then Main.game s else Main.game s)
            = Main.game s) as -> by (destruct (String.eqb mode "human"); auto).
    rewrite Hover. cbn [negb andb]. unfold SnakeGame.reset.
    destruct (SnakeGame.init _ _ _ _ _ _ _ rnd) as [[g2 rnd2]| |] eqn:Hi;
      cbn [bind]; try discriminate.
    intros H; inversion H; subst. cbn [Main.game Main.running].
    pose proof (init_ret _ _ _ _ _ _ _ _ _ _ Hi) as (p & _ & ->).
    unfold same_settings. cbn. repeat split; reflexivity.
Qed.

End Restart.

(** ** The end of the training loop and the accumulation of gradients *)

Lemma count_done_bounds (dones : list bool) (counts : list Z) :
  Forall2 (fun c c' => c <= c' <= c + 1) counts
          (Train.count_done dones counts).
Proof.
  revert dones. induction counts as [|c counts IH]; intros dones.
  - destruct dones; constructor.
  - destruct dones as [|d dones]; cbn [Train.count_done].
    + clear IH. induction (c :: counts); constructor; auto; lia.
    + constructor; [destruct d; lia | apply IH].
Qed.

Lemma fold_min_ge (N c : Z) (l : list Z) :
  N <= fold_left Z.min l c <-> N <= c /\ Forall (fun x => N <= x) l.
Proof.
  revert c. induction l as [|x l IH]; intros c; cbn [fold_left].
  - split; [intros H; split; [exact H | constructor] | tauto].
  - rewrite IH. rewrite Forall_cons_iff.
    pose proof (Z.le_min_l c x). pose proof (Z.le_min_r c x).
    destruct (Z.min_spec c x) as [[_ E]|[_ E]]; rewrite E; intuition lia.
Qed.

Lemma min_count_ge (N : Z) (counts : list Z) :
  counts <> [] ->
  (N <= Train.min_count counts <-> Forall (fun c => N <= c) counts).
Proof.
  destruct counts as [|c counts]; [congruence|]. intros _.
  unfold Train.min_count. rewrite fold_min_ge, Forall_cons_iff. tauto.
Qed.

Lemma samples_app (l1 l2 : list Train.event) :
  samples (l1 ++ l2) = samples l1 + samples l2.
Proof.
  induction l1 as [|[v b|c] l1 IH]; cbn [samples app]; lia.
Qed.

Section TrainerEnd.

Context {observation net : Type}.
Variable backward :
  net -> net -> list (@Train.transition observation) -> net * Q * list Q.
Variable optimizer_step : net -> net.

(** The state that a call of [optimize_model] leaves when it samples. *)
Lemma optimize_model_sampling (picks : nat -> nat)
      (st : @Train.t observation net) :
  Train.BATCH_SIZE <= PrioritizedReplayMemory.len (Train.memory st) ->
  exists batch idxs policy loss td m',
    PrioritizedReplayMemory.sample picks Train.BATCH_SIZE (Train.memory st)
      = Ret (batch, idxs) /\
    backward (Train.policy_net st) (Train.target_net st) batch
      = (policy, loss, td) /\
    Train.optimize_model backward optimizer_step picks st =
      Ret (if (Train.accum_step st + 1) mod Train.GRAD_ACCUM_STEPS =? 0
           then Some (Train.accum_loss st + loss)%Q else None,
           Train.mk
             (if (Train.accum_step st + 1) mod Train.GRAD_ACCUM_STEPS =? 0
              then optimizer_step policy else policy)
             (Train.target_net st) m' (Train.step_count st)
             (if (Train.accum_step st + 1) mod Train.GRAD_ACCUM_STEPS =? 0
              then 0 else Train.accum_step st + 1)
             (if (Train.accum_step st + 1) mod Train.GRAD_ACCUM_STEPS =? 0
              then 0%Q else (Train.accum_loss st + loss)%Q)
             (Train.episode_counts st)
             (Train.log st ++
              [Train.Sampled (PrioritizedReplayMemory.len (Train.memory st))
                             Train.BATCH_SIZE])).
Proof.
  intros Hlen. unfold Train.optimize_model.
  assert ((PrioritizedReplayMemory.len (Train.memory st) <? Train.BATCH_SIZE)
          = false) as Hlt by (apply Z.ltb_ge; exact Hlen).
  rewrite Hlt.
  destruct (PrioritizedReplayMemory.sample picks Train.BATCH_SIZE
              (Train.memory st)) as [[batch idxs]|e|] eqn:Hs;
    try (exfalso; unfold PrioritizedReplayMemory.sample in Hs;
         rewrite Hlt in Hs; discriminate).
  cbn [bind].
  destruct (backward (Train.policy_net st) (Train.target_net st) batch)
    as [[policy loss] td] eqn:Hb.
  pose proof Hs as Hs'. apply sample_ret in Hs'; [|reflexivity].
  destruct (update_priorities_returns idxs td (Train.memory st) Hs')
    as (m' & Hm' & _).
  exists batch, idxs, policy, loss, td, m'.
  split; [reflexivity|]. split; [exact Hb|].
  destruct ((Train.accum_step st + 1) mod Train.GRAD_ACCUM_STEPS =? 0);
    rewrite Hm'; reflexivity.
Qed.

Lemma optimize_model_accum (picks : nat -> nat)
      (st st' : @Train.t observation net) (res : option Q) :
  Train.optimize_model backward optimizer_step picks st = Ret (res, st') ->
  Train.accum_step st = 0 \/ Train.accum_step st = 1 ->
  Train.episode_counts st' = Train.episode_counts st /\
  (Train.accum_step st' = 0 \/ Train.accum_step st' = 1) /\
  Train.accum_step st' =
    (Train.accum_step st + (samples (Train.log st') - samples (Train.log st)))
      mod Train.GRAD_ACCUM_STEPS.
Proof.
  intros Ho Hacc.
  destruct (Z_lt_le_dec (PrioritizedReplayMemory.len (Train.memory st))
                        Train.BATCH_SIZE) as [Hlt|Hge].
  - unfold Train.optimize_model in Ho.
    apply Z.ltb_lt in Hlt. rewrite Hlt in Ho. inversion Ho; subst.
    split; [reflexivity|]. split; [exact Hacc|].
    rewrite Z.sub_diag, Z.add_0_r.
    unfold Train.GRAD_ACCUM_STEPS. destruct Hacc as [-> | ->]; reflexivity.
  - destruct (optimize_model_sampling picks st Hge)
      as (batch & idxs & policy & loss & td & m' & _ & _ & Heq).
    rewrite Heq in Ho. inversion Ho; subst.
    cbn [Train.episode_counts Train.accum_step Train.log].
    rewrite samples_app. cbn [samples].
    replace (samples (Train.log st) + (1 + 0) - samples (Train.log st))
      with 1 by lia.
    unfold Train.GRAD_ACCUM_STEPS.
    destruct Hacc as [-> | ->]; cbn; auto.
Qed.

Lemma tick_episode_counts (inp : @Train.tick_input observation)
      (st st' : @Train.t observation net) :
  Train.tick backward optimizer_step inp st = Ret st' ->
  Train.episode_counts st' =
    Train.count_done (Train.dones inp) (Train.episode_counts st).
Proof.
  unfold Train.tick. intros Ht.
  match type of Ht with
  | context [Train.optimize_model _ _ (Train.picks inp) ?s] =>
      destruct (optimize_model_cases backward optimizer_step
                  (Train.picks inp) s)
        as [[_ Ho] | (_ & res & st1 & Ho & _ & _ & _ & Hc & _)];
      rewrite Ho in Ht; cbn [bind] in Ht
  end.
  - cbn [Train.step_count Train.policy_net Train.target_net Train.log] in Ht.
    destruct (Train.step_count st mod Train.TARGET_UPDATE_FREQ =? 0);
      inversion Ht; subst; reflexivity.
  - cbn [Train.episode_counts] in Hc.
    destruct (Train.step_count st1 mod Train.TARGET_UPDATE_FREQ =? 0);
      inversion Ht; subst; cbn [Train.episode_counts]; rewrite Hc;
      reflexivity.
Qed.

Lemma tick_counts (inp : @Train.tick_input observation)
      (st st' : @Train.t observation net) :
  Train.tick backward optimizer_step inp st = Ret st' ->
  Train.accum_step st = 0 \/ Train.accum_step st = 1 ->
  Train.episode_counts st' =
    Train.count_done (Train.dones inp) (Train.episode_counts st) /\
  (Train.accum_step st' = 0 \/ Train.accum_step st' = 1) /\
  Train.accum_step st' =
    (Train.accum_step st + (samples (Train.log st') - samples (Train.log st)))
      mod Train.GRAD_ACCUM_STEPS.
Proof.
  unfold Train.tick. intros Ht Hacc.
  match type of Ht with
  | context [Train.optimize_model _ _ (Train.picks inp) ?s] =>
      destruct (Train.optimize_model backward optimizer_step
                  (Train.picks inp) s) as [[res st1]| |] eqn:Ho;
      cbn [bind] in Ht; try discriminate;
      destruct (optimize_model_accum _ _ _ _ Ho Hacc)
        as (Hc & Hacc1 & Hpar)
  end.
  cbn [Train.episode_counts Train.accum_step Train.log] in Hc, Hpar.
  destruct (Train.step_count st1 mod Train.TARGET_UPDATE_FREQ =? 0);
    inversion Ht; subst;
    cbn [Train.episode_counts Train.accum_step Train.log];
    rewrite ?samples_app; cbn [samples]; rewrite ?Z.add_0_r;
    rewrite Hc; auto.
Qed.

Lemma ticks_accum (inputs : list (@Train.tick_input observation))
      (st st' : @Train.t observation net) :
  Train.ticks backward optimizer_step inputs st = Ret st' ->
  Train.accum_step st = 0 \/ Train.accum_step st = 1 ->
  (Train.accum_step st' = 0 \/ Train.accum_step st' = 1) /\
  Train.accum_step st' =
    (Train.accum_step st + (samples (Train.log st') - samples (Train.log st)))
      mod Train.GRAD_ACCUM_STEPS.
Proof.
  revert st. induction inputs as [|inp inputs IH]; intros st;
    cbn [Train.ticks].
  - intros H Hacc; inversion H; subst. split; [exact Hacc|].
    rewrite Z.sub_diag, Z.add_0_r. unfold Train.GRAD_ACCUM_STEPS.
    destruct Hacc as [-> | ->]; reflexivity.
  - destruct (Train.tick backward optimizer_step inp st)
      as [st1| |] eqn:Ht; cbn [bind]; try discriminate.
    intros H Hacc.
    destruct (tick_counts _ _ _ Ht Hacc) as (_ & Hacc1 & Hpar1).
    destruct (IH _ H Hacc1) as (Hacc' & Hpar').
    split; [exact Hacc'|].
    rewrite Hpar', Hpar1. unfold Train.GRAD_ACCUM_STEPS.
    rewrite Zplus_mod_idemp_l. f_equal. lia.
Qed.

Lemma main_counts (inputs : list (@Train.tick_input observation))
      (st st' : @Train.t observation net) :
  Train.main backward optimizer_step inputs st = Ret st' ->
  Train.NUM_EPISODES <= Train.min_count (Train.episode_counts st') /\
  exists k,
    (k <= length inputs)%nat /\
    Train.step_count st' =
      Train.step_count st + Train.NUM_ENVS * Z.of_nat k /\
    Forall2 (fun c c' => c <= c' <= c + Z.of_nat k)
            (Train.episode_counts st) (Train.episode_counts st').
Proof.
  revert st. induction inputs as [|inp inputs IH]; intros st;
    cbn [Train.main];
    destruct (Train.min_count (Train.episode_counts st) <? Train.NUM_EPISODES)
      eqn:Hmin; try discriminate.
  - intros H; inversion H; subst. apply Z.ltb_ge in Hmin.
    split; [exact Hmin|]. exists 0%nat. cbn. split; [lia|]. split; [lia|].
    clear. induction (Train.episode_counts st'); constructor; auto; lia.
  - destruct (Train.tick backward optimizer_step inp st)
      as [st1| |] eqn:Ht; cbn [bind]; try discriminate.
    intros H.
    pose proof (tick_episode_counts _ _ _ Ht) as Hc.
    destruct (tick_cases backward optimizer_step inp st)
      as (st1' & sampled & Ht' & Hsc & _).
    rewrite Ht in Ht'. inversion Ht'; subst st1'.
    destruct (IH _ H) as (Hdone & k & Hk & Hsteps & Hbounds).
    split; [exact Hdone|]. exists (S k). cbn [length].
    split; [lia|]. split; [rewrite Hsteps, Hsc; lia|].
    rewrite Hc in Hbounds.
    pose proof (count_done_bounds (Train.dones inp)
                  (Train.episode_counts st)) as Hone.
    revert Hone Hbounds. generalize (Train.episode_counts st').
    generalize (Train.count_done (Train.dones inp)
                  (Train.episode_counts st)).
    generalize (Train.episode_counts st). clear.
    intros l1. induction l1 as [|a l1 IH]; intros l2 l3 H12 H23;
      inversion H12; subst; inversion H23; subst; constructor.
    + lia.
    + eapply IH; eauto.
  - intros H; inversion H; subst. apply Z.ltb_ge in Hmin.
    split; [exact Hmin|]. exists 0%nat. cbn. split; [lia|]. split; [lia|].
    clear. induction (Train.episode_counts st'); constructor; auto; lia.
Qed.

(** X18.  The training loop ends only when every game has finished
    [NUM_EPISODES] episodes.  A pass through its body adds [NUM_ENVS] to
    the step counter and at most one episode to the count of each game:
    the loop has made at least as many passes as any game was short of
    [NUM_EPISODES] at the start. *)
Theorem training_ends_when_every_game_is_done
        (inputs : list (@Train.tick_input observation))
        (st st' : @Train.t observation net) :
  Train.episode_counts st <> [] ->
  Train.main backward optimizer_step inputs st = Ret st' ->
  Forall (fun c => Train.NUM_EPISODES <= c) (Train.episode_counts st') /\
  exists k,
    (k <= length inputs)%nat /\
    Train.step_count st' =
      Train.step_count st + Train.NUM_ENVS * Z.of_nat k /\
    Forall2 (fun c c' => c <= c' <= c + Z.of_nat k)
            (Train.episode_counts st) (Train.episode_counts st') /\
    Forall (fun c => Train.NUM_EPISODES - c <= Z.of_nat k)
           (Train.episode_counts st).
Proof.
  intros Hne Hmain.
  destruct (main_counts _ _ _ Hmain) as (Hdone & k & Hk & Hsteps & Hbounds).
  assert (Hall : Forall (fun c => Train.NUM_EPISODES <= c)
                        (Train.episode_counts st')).
  { apply min_count_ge; [|exact Hdone].
    intros E. rewrite E in Hbounds. inversion Hbounds. congruence. }
  split; [exact Hall|]. exists k.
  split; [exact Hk|]. split; [exact Hsteps|]. split; [exact Hbounds|].
  clear - Hbounds Hall. induction Hbounds as [|c c' l l' Hc _ IH].
  - constructor.
  - apply Forall_cons_iff in Hall. destruct Hall as [Hc' Hall].
    constructor; [lia | apply IH; exact Hall].
Qed.

(** X19.  [optimize_model] accumulates two batches for every step of the
    optimizer.  With the counter [accum_step] on 0, a call that samples
    keeps the gradient, sets the counter to 1 and returns [None]; with the
    counter on 1 it applies [optimizer.step()], returns the sum of the two
    losses and clears both accumulators.  Through any number of passes of
    the loop the counter is the parity of the number of batches
    sampled. *)
Theorem optimizer_steps_every_second_batch (st : @Train.t observation net) :
  Train.accum_step st = 0 \/ Train.accum_step st = 1 ->
  (forall picks,
      Train.BATCH_SIZE <= PrioritizedReplayMemory.len (Train.memory st) ->
      exists batch idxs policy loss td res st',
        PrioritizedReplayMemory.sample picks Train.BATCH_SIZE
                                       (Train.memory st)
          = Ret (batch, idxs) /\
        backward (Train.policy_net st) (Train.target_net st) batch
          = (policy, loss, td) /\
        Train.optimize_model backward optimizer_step picks st
          = Ret (res, st') /\
        (Train.accum_step st = 0 ->
         res = None /\ Train.policy_net st' = policy /\
         Train.accum_step st' = 1 /\
         Train.accum_loss st' = (Train.accum_loss st + loss)%Q) /\
        (Train.accum_step st = 1 ->
         res = Some (Train.accum_loss st + loss)%Q /\
         Train.policy_net st' = optimizer_step policy /\
         Train.accum_step st' = 0 /\
         Train.accum_loss st' = 0%Q)) /\
  (forall inputs st',
      Train.ticks backward optimizer_step inputs st = Ret st' ->
      (Train.accum_step st' = 0 \/ Train.accum_step st' = 1) /\
      Train.accum_step st' =
        (Train.accum_step st +
         (samples (Train.log st') - samples (Train.log st)))
          mod Train.GRAD_ACCUM_STEPS).
Proof.
  intros Hacc. split.
  - intros picks Hlen.
    destruct (optimize_model_sampling picks st Hlen)
      as (batch & idxs & policy & loss & td & m' & Hs & Hb & Ho).
    exists batch, idxs, policy, loss, td.
    eexists. eexists. split; [exact Hs|]. split; [exact Hb|].
    split; [exact Ho|].
    unfold Train.GRAD_ACCUM_STEPS.
    split; intros E; rewrite E; cbn; auto.
  - intros inputs st' Ht. apply (ticks_accum _ _ _ Ht Hacc).
Qed.

End TrainerEnd.

(** ** The exploration rate *)

Lemma decay_power_le_1 (k : nat) :
  (0 < Train.EPS_DECAY ^ Z.of_nat k <= 1)%Q.
Proof.
  induction k as [|k IH].
  - cbn. split; [reflexivity | discriminate].
  - rewrite Nat2Z.inj_succ, <- Z.add_1_r.
    rewrite Qpower_plus by discriminate.
    change (Train.EPS_DECAY ^ 1)%Q with Train.EPS_DECAY.
    destruct IH as [Hpos Hle]. split.
    + apply Qmult_lt_0_compat; [exact Hpos | reflexivity].
    + apply Qle_trans with (Train.EPS_DECAY ^ Z.of_nat k * 1)%Q.
      * apply Qmult_le_l; [exact Hpos | discriminate].
      * rewrite Qmult_1_r. exact Hle.
Qed.

Lemma decay_power_antitone (j k : nat) :
  (j <= k)%nat ->
  (Train.EPS_DECAY ^ Z.of_nat k <= Train.EPS_DECAY ^ Z.of_nat j)%Q.
Proof.
  intros Hjk. replace (Z.of_nat k) with (Z.of_nat j + Z.of_nat (k - j)) by lia.
  rewrite Qpower_plus by discriminate.
  destruct (decay_power_le_1 j) as [Hpos _].
  destruct (decay_power_le_1 (k - j)) as [_ Hle].
  apply Qle_trans with (Train.EPS_DECAY ^ Z.of_nat j * 1)%Q.
  - apply Qmult_le_l; assumption.
  - rewrite Qmult_1_r. apply Qle_refl.
Qed.

Lemma epsilon_before_the_floor (k : nat) :
  (k <= 597)%nat ->
  (Train.epsilon_after k == Train.EPS_DECAY ^ Z.of_nat k)%Q /\
  (Train.EPS_END < Train.epsilon_after k)%Q.
Proof.
  assert (Hfloor : forall j, (j <= 597)%nat ->
                             (Train.EPS_END < Train.EPS_DECAY ^ Z.of_nat j)%Q).
  { intros j Hj. eapply Qlt_le_trans; [|apply (decay_power_antitone j 597 Hj)].
    vm_compute. reflexivity. }
  induction k as [|k IH]; intros Hk.
  - split; [reflexivity | vm_compute; reflexivity].
  - destruct (IH ltac:(lia)) as [Heq _].
    assert (Hnext : (Train.epsilon_after k * Train.EPS_DECAY ==
                     Train.EPS_DECAY ^ Z.of_nat (S k))%Q).
    { rewrite Nat2Z.inj_succ, <- Z.add_1_r.
      rewrite Qpower_plus by discriminate. rewrite Heq. reflexivity. }
    pose proof (Hfloor (S k) Hk) as Hlt. rewrite <- Hnext in Hlt.
    cbn [Train.epsilon_after]. unfold Train.decay, Train.py_max.
    destruct (Qle_bool (Train.epsilon_after k * Train.EPS_DECAY)%Q
                       Train.EPS_END) eqn:E.
    + apply Qle_bool_iff in E. exfalso. apply (Qlt_not_le _ _ Hlt E).
    + split; [exact Hnext | exact Hlt].
Qed.

Lemma epsilon_after_next (k : nat) :
  Train.epsilon_after (S k) = Train.decay (Train.epsilon_after k).
Proof. reflexivity. Qed.

Lemma epsilon_on_the_floor (k : nat) :
  (598 <= k)%nat -> Train.epsilon_after k = Train.EPS_END.
Proof.
  intros Hk. replace k with (598 + (k - 598))%nat by lia.
  induction (k - 598)%nat as [|d IH].
  - rewrite Nat.add_0_r.
    rewrite (epsilon_after_next 597).
    destruct (epsilon_before_the_floor 597 ltac:(lia)) as [Heq _].
    unfold Train.decay, Train.py_max.
    assert (Qle_bool (Train.epsilon_after 597 * Train.EPS_DECAY)%Q
                     Train.EPS_END = true) as ->; [|reflexivity].
    apply Qle_bool_iff. rewrite Heq. vm_compute. discriminate.
  - rewrite Nat.add_succ_r, epsilon_after_next, IH. reflexivity.
Qed.

(** X20.  The exploration rate, with the numbers read as rationals: after
    [k] passes of the training loop it is [EPS_DECAY ^ k] as long as
    [k <= 597], and [EPS_END] from the 598th pass on.  It never rises
    and never leaves the interval from [EPS_END] to [EPS_START]. *)
Theorem exploration_reaches_its_floor (k : nat) :
  ((k <= 597)%nat ->
   (Train.epsilon_after k ==
      Train.EPS_START * Train.EPS_DECAY ^ Z.of_nat k)%Q /\
   (Train.EPS_END < Train.epsilon_after k)%Q) /\
  ((598 <= k)%nat -> Train.epsilon_after k = Train.EPS_END) /\
  (Train.EPS_END <= Train.epsilon_after k <= Train.EPS_START)%Q /\
  (Train.epsilon_after (S k) <= Train.epsilon_after k)%Q.
Proof.
  assert (Hbounds : forall j,
             (Train.EPS_END <= Train.epsilon_after j <= Train.EPS_START)%Q).
  { intros j. destruct (le_lt_dec j 597) as [Hj|Hj].
    - destruct (epsilon_before_the_floor j Hj) as [Heq Hlt].
      split; [apply Qlt_le_weak; exact Hlt|].
      rewrite Heq. apply decay_power_le_1.
    - rewrite (epsilon_on_the_floor j Hj). split; [apply Qle_refl|].
      vm_compute. discriminate. }
  split; [|split; [|split]].
  - intros Hk. destruct (epsilon_before_the_floor k Hk) as [Heq Hlt].
    split; [|exact Hlt]. rewrite Heq.
    unfold Train.EPS_START. rewrite Qmult_1_l. reflexivity.
  - apply epsilon_on_the_floor.
  - apply Hbounds.
  - destruct (Hbounds k) as [Hlo Hhi].
    cbn [Train.epsilon_after]. unfold Train.decay, Train.py_max.
    destruct (Qle_bool (Train.epsilon_after k * Train.EPS_DECAY)%Q
                       Train.EPS_END); [exact Hlo|].
    apply Qle_trans with (Train.epsilon_after k * 1)%Q.
    + apply Qmult_le_l; [|discriminate].
      eapply Qlt_le_trans; [|exact Hlo]. reflexivity.
    + rewrite Qmult_1_r. apply Qle_refl.
Qed.

(** ** The checkpoint files *)

Lemma string_app_assoc (a b c : string) :
  ((a ++ b) ++ c = a ++ (b ++ c))%string.
Proof.
  induction a as [|x a IH]; cbn; [reflexivity | rewrite IH; reflexivity].
Qed.

Lemma string_app_nil_r (a : string) : (a ++ EmptyString = a)%string.
Proof.
  induction a as [|x a IH]; cbn; [reflexivity | rewrite IH; reflexivity].
Qed.

Lemma prefix_app (a s : string) :
  String.prefix a s = true <-> exists post, s = (a ++ post)%string.
Proof.
  revert s. induction a as [|x a IH]; intros s.
  - split; [intros _; exists s; reflexivity|].
    intros _. destruct s; reflexivity.
  - destruct s as [|y s]; cbn.
    + split; [discriminate | intros (post & H); discriminate].
    + destruct (Ascii.ascii_dec x y) as [->|Hne].
      * rewrite IH. split; intros (post & H); exists post.
        -- rewrite H. reflexivity.
        -- inversion H. reflexivity.
      * split; [discriminate|]. intros (post & H). inversion H. congruence.
Qed.

Lemma contains_unfold (sub s : string) :
  contains sub s =
  String.prefix sub s
  || match s with
     | EmptyString => false
     | String _ rest => contains sub rest
     end.
Proof. destruct s; reflexivity. Qed.

Lemma contains_app (sub s : string) :
  contains sub s = true <->
  exists pre post, s = (pre ++ sub ++ post)%string.
Proof.
  split.
  - induction s as [|c s IH]; rewrite contains_unfold;
      intros H; apply orb_true_iff in H; destruct H as [H|H];
      try discriminate.
    + apply prefix_app in H. destruct H as (post & ->).
      exists EmptyString, post. reflexivity.
    + apply prefix_app in H. destruct H as (post & ->).
      exists EmptyString, post. reflexivity.
    + destruct (IH H) as (pre & post & ->).
      exists (String c pre), post. reflexivity.
  - intros (pre & post & ->). induction pre as [|c pre IH].
    + rewrite contains_unfold. apply orb_true_iff. left.
      apply prefix_app. exists post. reflexivity.
    + cbn [append]. rewrite contains_unfold. rewrite IH.
      apply orb_true_r.
Qed.

Lemma checkpoint_name_has_ep (f : string) :
  contains "dqn_snake_checkpoint_ep" f = true -> contains "_ep" f = true.
Proof.
  intros H. apply contains_app in H. destruct H as (pre & post & ->).
  apply contains_app. exists (pre ++ "dqn_snake_checkpoint")%string, post.
  rewrite string_app_assoc. reflexivity.
Qed.

Lemma checkpoint_prefix_has_ep (f : string) :
  startswith f "dqn_snake_checkpoint_ep" = true -> contains "_ep" f = true.
Proof.
  unfold startswith. intros H. apply prefix_app in H.
  destruct H as (post & ->).
  apply contains_app. exists "dqn_snake_checkpoint"%string, post.
  reflexivity.
Qed.

Lemma split_from_nonempty (sep : string) (skip : nat) (cur s : string) :
  exists a rest, split_from sep skip cur s = a :: rest.
Proof.
  revert skip cur. induction s as [|c s IH]; intros skip cur;
    cbn [split_from]; [eauto|].
  destruct skip as [|skip]; [|apply IH].
  destruct (String.prefix sep (String c s)); [eauto | apply IH].
Qed.

Lemma split_from_found (sep pre post cur : string) :
  sep <> EmptyString ->
  exists a b rest,
    split_from sep 0 cur (pre ++ sep ++ post) = a :: b :: rest.
Proof.
  intros Hsep. revert cur. induction pre as [|c pre IH]; intros cur.
  - destruct sep as [|x sep]; [congruence|].
    assert (Hp : String.prefix (String x sep)
                               (String x sep ++ post)%string = true)
      by (apply prefix_app; eauto).
    cbn [append] in *. cbn [split_from]. rewrite Hp.
    match goal with
    | |- context [split_from ?s ?k ?c ?r] =>
        destruct (split_from_nonempty s k c r) as (b & rest & ->)
    end. eauto.
  - cbn [append split_from].
    destruct (String.prefix sep (String c (pre ++ sep ++ post))).
    + match goal with
      | |- context [split_from ?s ?k ?c ?r] =>
          destruct (split_from_nonempty s k c r) as (b & rest & ->)
      end. eauto.
    + apply IH.
Qed.

Lemma split_from_absent (sep cur s : string) :
  contains sep s = false ->
  split_from sep 0 cur s = [(cur ++ s)%string].
Proof.
  revert cur. induction s as [|c s IH]; intros cur H.
  - cbn. rewrite string_app_nil_r. reflexivity.
  - rewrite contains_unfold in H. apply orb_false_iff in H.
    destruct H as [Hp Hc]. cbn [split_from]. rewrite Hp.
    rewrite (IH _ Hc), string_app_assoc. reflexivity.
Qed.

Lemma last_item_In {A : Type} (l : list A) (x : A) :
  last_item l = Ret x -> In x l.
Proof.
  induction l as [|a l IH]; [discriminate|].
  destruct l as [|b l]; cbn [last_item].
  - intros H; inversion H; subst. left. reflexivity.
  - intros H. right. apply IH. exact H.
Qed.

Lemma last_item_total {A : Type} (l : list A) :
  l <> [] -> exists x, last_item l = Ret x.
Proof.
  induction l as [|a l IH]; [congruence|]. intros _.
  destruct l as [|b l]; [eexists; reflexivity|].
  apply IH. discriminate.
Qed.

Lemma last_item_map {A B : Type} (f : A -> B) (l : list A) (y : B) :
  last_item (map f l) = Ret y ->
  exists x, last_item l = Ret x /\ y = f x.
Proof.
  induction l as [|a l IH]; [discriminate|].
  destruct l as [|b l]; cbn [map last_item].
  - intros H; inversion H; subst. eauto.
  - intros H. apply IH. exact H.
Qed.

Lemma skipn_In {A : Type} (m : nat) (l : list A) (x : A) :
  In x (skipn m l) -> In x l.
Proof.
  revert m. induction l as [|a l IH]; intros m.
  - rewrite skipn_nil. auto.
  - destruct m as [|m]; cbn [skipn]; [auto|]. intros H. right. eauto.
Qed.

Lemma firstn_In {A : Type} (m : nat) (l : list A) (x : A) :
  In x (firstn m l) -> In x l.
Proof.
  revert m. induction l as [|a l IH]; intros m.
  - rewrite firstn_nil. auto.
  - destruct m as [|m]; cbn [firstn]; [intros []|].
    intros [H|H]; [left; exact H | right; eauto].
Qed.

Section SortFacts.

Context {A : Type}.
Variable lt : A -> A -> bool.
Variable key : A -> Z.
Hypothesis lt_key : forall a b, lt a b = true -> key a <= key b.
Hypothesis ge_key : forall a b, lt a b = false -> key b <= key a.

Lemma insert_sorted_In (x y : A) (l : list A) :
  In y (insert_sorted lt x l) <-> y = x \/ In y l.
Proof.
  induction l as [|a l IH]; cbn [insert_sorted].
  - cbn. intuition.
  - destruct (lt x a); cbn [In]; [intuition|]. rewrite IH. intuition.
Qed.

Lemma insert_sorted_length (x : A) (l : list A) :
  length (insert_sorted lt x l) = S (length l).
Proof.
  induction l as [|a l IH]; cbn [insert_sorted]; [reflexivity|].
  destruct (lt x a); cbn [length]; [reflexivity | rewrite IH; reflexivity].
Qed.

Lemma insert_sorted_ascending (x : A) (l : list A) :
  ascending key l -> ascending key (insert_sorted lt x l).
Proof.
  induction l as [|a l IH]; cbn [insert_sorted ascending].
  - intros _. split; [constructor | exact I].
  - intros [Hall Hl]. destruct (lt x a) eqn:E; cbn [ascending].
    + split; [|split; assumption].
      constructor; [apply lt_key; exact E|].
      rewrite Forall_forall in *. intros y Hy.
      specialize (Hall y Hy). specialize (lt_key _ _ E). lia.
    + split; [|apply IH; exact Hl].
      rewrite Forall_forall in *. intros y Hy.
      apply insert_sorted_In in Hy. destruct Hy as [->|Hy].
      * apply ge_key. exact E.
      * apply Hall. exact Hy.
Qed.

Lemma sort_facts (l : list A) :
  ascending key (sort lt l) /\
  length (sort lt l) = length l /\
  forall y, In y (sort lt l) <-> In y l.
Proof.
  unfold sort.
  assert (H : forall acc,
             ascending key acc ->
             ascending key (fold_left (fun acc x => insert_sorted lt x acc) l acc)
             /\ length (fold_left (fun acc x => insert_sorted lt x acc) l acc)
                = (length acc + length l)%nat
             /\ forall y,
                 In y (fold_left (fun acc x => insert_sorted lt x acc) l acc)
                 <-> In y acc \/ In y l).
  { induction l as [|x l IH]; intros acc Hacc; cbn [fold_left].
    - split; [exact Hacc|]. split; [cbn; lia|]. cbn. intuition.
    - destruct (IH (insert_sorted lt x acc)
                   (insert_sorted_ascending x acc Hacc))
        as (Hs & Hl & Hin).
      split; [exact Hs|]. split.
      + rewrite Hl, insert_sorted_length. cbn. lia.
      + intros y. rewrite Hin, insert_sorted_In. cbn. intuition. }
  destruct (H [] I) as (Hs & Hl & Hin).
  split; [exact Hs|]. split; [exact Hl|].
  intros y. rewrite Hin. cbn. intuition.
Qed.

Lemma ascending_last (l : list A) (x : A) :
  ascending key l -> last_item l = Ret x ->
  forall y, In y l -> key y <= key x.
Proof.
  induction l as [|a l IH]; [discriminate|].
  destruct l as [|b l].
  - intros _ H y [<-|[]]. inversion H; subst. lia.
  - intros [Hall Hl] H y [<-|Hy].
    + rewrite Forall_forall in Hall. apply Hall.
      apply last_item_In. exact H.
    + apply IH; assumption.
Qed.

Lemma ascending_cut (m : nat) (l : list A) (r k : A) :
  ascending key l -> In r (firstn m l) -> In k (skipn m l) ->
  key r <= key k.
Proof.
  revert m. induction l as [|a l IH]; intros m Hl Hr Hk.
  - rewrite firstn_nil in Hr. destruct Hr.
  - destruct m as [|m]; [destruct Hr|].
    cbn [firstn skipn] in Hr, Hk. destruct Hl as [Hall Hl].
    destruct Hr as [<-|Hr].
    + rewrite Forall_forall in Hall. apply Hall.
      eapply skipn_In. exact Hk.
    + eapply IH; eauto.
Qed.

End SortFacts.

Section FilesFacts.

Variable int : string -> option Z.
Variable join : string -> string -> string.

Lemma episode_of_named (x : string) :
  contains "_ep" x = true ->
  (exists n, Files.episode_of int x = Ret n) \/
  Files.episode_of int x = Raise ValueError.
Proof.
  intros H. apply contains_app in H. destruct H as (pre & post & ->).
  unfold Files.episode_of, split.
  destruct (split_from_found "_ep" pre post EmptyString)
    as (a & b & rest & ->); [discriminate|].
  cbn [bind item nth_error].
  destruct (split_from_nonempty ".pth" 0 EmptyString b) as (num & r & ->).
  cbn [bind item nth_error].
  destruct (int num); eauto.
Qed.

Lemma episode_of_unnamed (x : string) :
  contains "_ep" x = false ->
  Files.episode_of int x = Raise IndexError.
Proof.
  intros H. unfold Files.episode_of, split.
  rewrite (split_from_absent _ _ _ H). reflexivity.
Qed.

Lemma episode_of_cases (x : string) :
  (exists n, Files.episode_of int x = Ret n) \/
  Files.episode_of int x = Raise ValueError \/
  Files.episode_of int x = Raise IndexError.
Proof.
  destruct (contains "_ep" x) eqn:E.
  - destruct (episode_of_named x E); auto.
  - right. right. apply episode_of_unnamed. exact E.
Qed.

Lemma keys_ret (files : list string) (ks : list (Z * string)) :
  Files.keys int files = Ret ks ->
  Forall2 (fun f kf => snd kf = f /\ Files.episode_of int f = Ret (fst kf))
          files ks.
Proof.
  revert ks. induction files as [|f files IH]; intros ks; cbn [Files.keys].
  - intros H; inversion H; subst. constructor.
  - destruct (Files.episode_of int f) as [k| |] eqn:Hk; cbn [bind];
      try discriminate.
    destruct (Files.keys int files) as [ks'| |]; cbn [bind];
      try discriminate.
    intros H; inversion H; subst. constructor; [cbn; auto | apply IH; auto].
Qed.

Lemma keys_cases (files : list string) :
  (exists ks, Files.keys int files = Ret ks) \/
  (exists e f, Files.keys int files = Raise e /\ In f files /\
               Files.episode_of int f = Raise e).
Proof.
  induction files as [|f files IH]; cbn [Files.keys]; [eauto|].
  destruct (episode_of_cases f) as [(n & Hn) | [Hn | Hn]];
    rewrite Hn; cbn [bind].
  - destruct IH as [(ks & ->) | (e & g & -> & Hg & He)]; cbn [bind].
    + eauto.
    + right. exists e, g. cbn [In]. auto.
  - right. exists ValueError, f. cbn [In]. auto.
  - right. exists IndexError, f. cbn [In]. auto.
Qed.

Lemma keys_entries (files : list string) (ks : list (Z * string)) :
  Files.keys int files = Ret ks ->
  length ks = length files /\
  (forall n f, In (n, f) ks ->
               In f files /\ Files.episode_of int f = Ret n) /\
  (forall f, In f files ->
             exists n, In (n, f) ks /\ Files.episode_of int f = Ret n).
Proof.
  intros H. apply keys_ret in H.
  induction H as [|f [k g] files ks [Hs Hk] _ IH]; cbn [length In].
  - split; [reflexivity|]. split; intros; contradiction.
  - cbn [fst snd] in Hs, Hk. subst g.
    destruct IH as (Hl & Hin & Hout). split; [lia|]. split.
    + intros n f' [E|Hn]; [inversion E; subst; auto|].
      destruct (Hin _ _ Hn). auto.
    + intros f' [<-|Hf]; [eauto|].
      destruct (Hout _ Hf) as (n & Hn & He). eauto.
Qed.

(** What [files.sort(key=...)] followed by [files[-1]] finds. *)
Lemma latest_of (files : list string) :
  files <> [] ->
  (exists sorted latest n,
      Files.sort_by_episode int files = Ret sorted /\
      last_item sorted = Ret latest /\
      In latest files /\
      Files.episode_of int latest = Ret n /\
      forall f, In f files ->
                exists m, Files.episode_of int f = Ret m /\ m <= n) \/
  (exists e f,
      Files.sort_by_episode int files = Raise e /\
      In f files /\ Files.episode_of int f = Raise e).
Proof.
  intros Hne. unfold Files.sort_by_episode.
  destruct (keys_cases files) as [(ks & Hks) | (e & f & Hks & Hf & He)];
    rewrite Hks; cbn [bind]; [left | right; eauto].
  destruct (keys_entries _ _ Hks) as (Hlen & Hin & Hout).
  destruct (sort_facts (fun a b : Z * string => fst a <? fst b) fst
              ltac:(intros a b H; apply Z.ltb_lt in H; lia)
              ltac:(intros a b H; apply Z.ltb_ge in H; lia) ks)
    as (Hasc & Hslen & Hsin).
  set (sorted := sort (fun a b : Z * string => fst a <? fst b) ks) in *.
  destruct (last_item_total (map snd sorted)) as (latest & Hlast).
  { intros E. apply (f_equal (@length string)) in E.
    rewrite length_map, Hslen, Hlen in E.
    destruct files; [congruence | discriminate]. }
  destruct (last_item_map _ _ _ Hlast) as ([n l] & Hl & ->).
  cbn [snd] in *.
  pose proof (last_item_In _ _ Hl) as Hmem. apply Hsin in Hmem.
  destruct (Hin _ _ Hmem) as [Hfile Hep].
  exists (map snd sorted), l, n.
  split; [reflexivity|]. split; [exact Hlast|]. split; [exact Hfile|].
  split; [exact Hep|]. intros f Hf.
  destruct (Hout _ Hf) as (m & Hm & Hem). exists m. split; [exact Hem|].
  apply Hsin in Hm.
  apply (ascending_last fst sorted (n, l) Hasc Hl (m, f) Hm).
Qed.

(** X21.  [get_latest_checkpoint] of train.py never fails on a missing
    part of a name, since it keeps only names that contain
    [dqn_snake_checkpoint_ep].  It returns [(None, 0)] exactly when no
    name is kept, raises [ValueError] exactly when the number of a kept
    name cannot be read, and otherwise returns a kept name whose episode
    number is the largest of all, with that number. *)
Theorem train_lookup_finds_the_latest (checkpoint_dir : string)
        (listing : list string) :
  let kept f :=
    endswith f ".pth" && contains "dqn_snake_checkpoint_ep" f in
  let found :=
    Files.train_get_latest_checkpoint int join checkpoint_dir listing in
  found <> Raise IndexError /\
  (found = Ret (None, 0) <-> forall f, In f listing -> kept f = false) /\
  (found = Raise ValueError <->
   exists f, In f listing /\ kept f = true /\
             Files.episode_of int f = Raise ValueError) /\
  (forall path ep,
      found = Ret (Some path, ep) ->
      exists latest,
        In latest listing /\ kept latest = true /\
        path = join checkpoint_dir latest /\
        Files.episode_of int latest = Ret ep /\
        forall f, In f listing -> kept f = true ->
                  exists n, Files.episode_of int f = Ret n /\ n <= ep).
Proof.
  intros kept found. subst found.
  unfold Files.train_get_latest_checkpoint. fold kept.
  assert (Hfilter : forall f, In f (filter kept listing) <->
                              In f listing /\ kept f = true)
    by (intros f; apply filter_In).
  assert (Hnamed : forall f, kept f = true -> contains "_ep" f = true).
  { intros f Hf. unfold kept in Hf. apply andb_true_iff in Hf.
    apply checkpoint_name_has_ep. tauto. }
  destruct (filter kept listing) as [|f0 files] eqn:Hfiles.
  - assert (Hnone : forall f, In f listing -> kept f = false).
    { intros f Hf. destruct (kept f) eqn:E; [|reflexivity].
      exfalso. apply (proj2 (Hfilter f)). auto. }
    split; [discriminate|]. split; [tauto|]. split; [|discriminate].
    split; [discriminate|]. intros (f & Hf & Hk & _).
    rewrite (Hnone f Hf) in Hk. discriminate.
  - destruct (latest_of (f0 :: files) ltac:(discriminate))
      as [(sorted & latest & n & Hs & Hl & Hin & Hep & Hmax)
         | (e & f & Hs & Hf & He)];
      rewrite Hs; cbn [bind].
    + rewrite Hl. cbn [bind]. rewrite Hep. cbn [bind].
      split; [discriminate|]. split; [|split].
      * split; [discriminate|]. intros Hnone. exfalso.
        apply Hfilter in Hin. destruct Hin as [Hin Hk].
        rewrite (Hnone _ Hin) in Hk. discriminate.
      * split; [discriminate|]. intros (f & Hf & Hk & He).
        destruct (Hmax f (proj2 (Hfilter f) (conj Hf Hk))) as (m & Hm & _).
        congruence.
      * intros path ep H. inversion H; subst.
        exists latest. apply Hfilter in Hin. destruct Hin as [Hin Hk].
        split; [exact Hin|]. split; [exact Hk|]. split; [reflexivity|].
        split; [exact Hep|]. intros f Hf Hkf.
        apply Hmax. apply Hfilter. auto.
    + apply Hfilter in Hf. destruct Hf as [Hf Hk].
      assert (e = ValueError) as ->.
      { destruct (episode_of_named f (Hnamed f Hk)) as [(m & Hm)|Hm];
          congruence. }
      split; [discriminate|]. split; [|split].
      * split; [discriminate|]. intros Hnone.
        rewrite (Hnone f Hf) in Hk. discriminate.
      * split; [|reflexivity]. intros _. eauto.
      * discriminate.
Qed.

(** X22.  [get_latest_checkpoint] of main.py keeps every name that ends
    in [.pth].  One such name without [_ep] in it is enough to make the
    call raise; the exception is [IndexError] when the numbers of the
    names that do contain [_ep] can all be read. *)
Theorem main_lookup_fails_on_a_stray_file (checkpoint_dir f : string)
        (listing : list string) :
  In f listing ->
  endswith f ".pth" = true ->
  contains "_ep" f = false ->
  (exists e,
      Files.main_get_latest_checkpoint int join checkpoint_dir listing
        = Raise e /\
      (e = IndexError \/ e = ValueError)) /\
  ((forall g, In g listing -> endswith g ".pth" = true ->
              contains "_ep" g = true ->
              exists n, Files.episode_of int g = Ret n) ->
   Files.main_get_latest_checkpoint int join checkpoint_dir listing
     = Raise IndexError).
Proof.
  intros Hf Hpth Hep. unfold Files.main_get_latest_checkpoint.
  assert (Hfilter :
    forall g, In g (filter (fun f => endswith f ".pth") listing) <->
              In g listing /\ endswith g ".pth" = true)
    by (intros g; rewrite filter_In; cbv beta; tauto).
  assert (Hin : In f (filter (fun f => endswith f ".pth") listing))
    by (apply Hfilter; auto).
  destruct (filter (fun f => endswith f ".pth") listing)
    as [|f0 files] eqn:Hfiles; [destruct Hin|].
  destruct (latest_of (f0 :: files) ltac:(discriminate))
    as [(sorted & latest & n & Hs & Hl & _ & _ & Hmax)
       | (e & g & Hs & Hg & He)].
  - exfalso. destruct (Hmax f Hin) as (m & Hm & _).
    rewrite (episode_of_unnamed f Hep) in Hm. discriminate.
  - rewrite Hs. cbn [bind]. split.
    + exists e. split; [reflexivity|].
      destruct (episode_of_cases g) as [(m & Hm) | [Hm | Hm]];
        rewrite Hm in He; inversion He; auto.
    + intros Hall. f_equal.
      destruct (contains "_ep" g) eqn:Eg.
      * apply Hfilter in Hg. destruct Hg as [Hg Hgp].
        destruct (Hall g Hg Hgp Eg) as (m & Hm). congruence.
      * rewrite (episode_of_unnamed g Eg) in He. congruence.
Qed.

Lemma numbered_entries (listing : list string) (n : Z) (f : string) :
  In (n, f) (Files.numbered int listing) <->
  In f listing /\
  startswith f "dqn_snake_checkpoint_ep" = true /\
  endswith f ".pth" = true /\
  Files.episode_of int f = Ret n.
Proof.
  unfold Files.numbered. rewrite in_flat_map. split.
  - intros (g & Hg & Hin). apply filter_In in Hg. destruct Hg as [Hg Hk].
    apply andb_true_iff in Hk.
    destruct (Files.episode_of int g) as [m| |] eqn:E;
      try contradiction.
    destruct Hin as [Hin|[]]. inversion Hin; subst. tauto.
  - intros (Hf & Hs & He & Hn). exists f. split.
    + apply filter_In. split; [exact Hf|]. rewrite Hs, He. reflexivity.
    + rewrite Hn. left. reflexivity.
Qed.

(** X23.  The clean-up after a save hands to [os.remove] all but three of
    the checkpoints it can number.  Every name it removes is in the
    directory, starts with [dqn_snake_checkpoint_ep], ends in [.pth] and
    has a number that can be read; and no checkpoint that stays has a
    smaller number than one that goes. *)
Theorem cleanup_keeps_the_three_latest (listing : list string) :
  let removed := Files.cleanup int listing in
  let eps := Files.numbered int listing in
  length removed = (length eps - 3)%nat /\
  (forall f, In f removed ->
             In f listing /\
             startswith f "dqn_snake_checkpoint_ep" = true /\
             endswith f ".pth" = true /\
             exists n, Files.episode_of int f = Ret n) /\
  (forall r k nr nk,
      In r removed -> In (nk, k) eps -> ~ In k removed ->
      Files.episode_of int r = Ret nr -> nr <= nk).
Proof.
  intros removed eps. subst removed. unfold Files.cleanup. fold eps.
  destruct (sort_facts Files.tuple_lt fst
              ltac:(unfold Files.tuple_lt; intros a b H;
                    apply orb_true_iff in H;
                    destruct H as [H|H];
                    [apply Z.ltb_lt in H; lia
                    |apply andb_true_iff in H; destruct H as [H _];
                     apply Z.eqb_eq in H; lia])
              ltac:(unfold Files.tuple_lt; intros a b H;
                    apply orb_false_iff in H; destruct H as [H _];
                    apply Z.ltb_ge in H; lia) eps)
    as (Hasc & Hlen & Hin).
  set (sorted := sort Files.tuple_lt eps) in *.
  assert (Hremoved :
    forall f, In f (map snd (firstn (length sorted - 3) sorted)) ->
              exists n, In (n, f) (firstn (length sorted - 3) sorted) /\
                        In (n, f) eps).
  { intros f Hf. apply in_map_iff in Hf. destruct Hf as ([n g] & <- & Hg).
    exists n. split; [exact Hg|]. apply Hin. eapply firstn_In. exact Hg. }
  split; [|split].
  - rewrite length_map, length_firstn, Hlen. lia.
  - intros f Hf. destruct (Hremoved f Hf) as (n & _ & Hn).
    apply numbered_entries in Hn. destruct Hn as (H1 & H2 & H3 & H4).
    eauto.
  - intros r k nr nk Hr Hk Hkept Hnr.
    destruct (Hremoved r Hr) as (n & Hcut & Hn).
    apply numbered_entries in Hn. destruct Hn as (_ & _ & _ & Hn).
    assert (n = nr) by congruence. subst n.
    apply Hin in Hk.
    rewrite <- (firstn_skipn (length sorted - 3) sorted) in Hk.
    apply in_app_or in Hk. destruct Hk as [Hk|Hk].
    + exfalso. apply Hkept. apply in_map_iff. exists (nk, k). auto.
    + apply (ascending_cut fst _ sorted (nr, r) (nk, k) Hasc Hcut Hk).
Qed.

End FilesFacts.

(** * Further concrete runs *)

Lemma small_game_stepped : stepped small_game.
Proof.
  apply (stepped_init 4 32 "ai" 5 (-10) (-1 # 100) 100 [ (3, 2) ] []
                      small_game); [|reflexivity].
  constructor; [unfold in_grid; cbn; lia | constructor].
Qed.

Lemma first_game_reachable : reachable (game_of first_tick).
Proof.
  apply (reachable_step [ (0, 0) ] (draws_of first_tick) 3 small_game
                        (game_of first_tick) (snd first_tick)
                        small_game_reachable); [reflexivity| |reflexivity].
  constructor; [unfold in_grid; cbn; lia | constructor].
Qed.

Lemma fresh_game_layout_witness :
  Snake.body (SnakeGame.snake small_game) = [ (2, 2); (1, 2); (0, 2) ] /\
  Snake.direction (SnakeGame.snake small_game) = (1, 0) /\
  Snake.grow (SnakeGame.snake small_game) = false /\
  SnakeGame.score small_game = 0 /\
  SnakeGame.status_of small_game = SnakeGame.Running /\
  (SnakeGame.reward_fruit small_game, SnakeGame.reward_death small_game,
   SnakeGame.reward_step small_game, SnakeGame.reward_win small_game)
    = (5%Q, (-10)%Q, (-1 # 100)%Q, 100%Q) /\
  in_grid 4 (Fruit.position (SnakeGame.fruit small_game)) /\
  ~ In (Fruit.position (SnakeGame.fruit small_game))
       (Snake.body (SnakeGame.snake small_game)) /\
  2 <= 4 /\
  (Forall (in_grid 4) (Snake.body (SnakeGame.snake small_game)) <-> 4 <= 4).
Proof.
  apply (fresh_game_layout 4 32 "ai" 5 (-10) (-1 # 100) 100 [ (3, 2) ] []
                           small_game); [|reflexivity].
  constructor; [unfold in_grid; cbn; lia | constructor].
Defined.

Lemma score_counts_growth_witness :
  Z.of_nat (length (Snake.body (SnakeGame.snake (game_of first_tick)))) +
  (if Snake.grow (SnakeGame.snake (game_of first_tick)) then 1 else 0) =
  3 + SnakeGame.score (game_of first_tick) /\
  0 <= SnakeGame.score (game_of first_tick) <= 4 * 4 - 3 /\
  (SnakeGame.status_of (game_of first_tick) = SnakeGame.Won <->
   SnakeGame.score (game_of first_tick) = 4 * 4 - 3).
Proof.
  exact (score_counts_growth (game_of first_tick) first_game_reachable).
Defined.

Lemma running_body_is_a_simple_path_witness :
  NoDup (Snake.body (SnakeGame.snake (game_of first_tick))) /\
  chain (Snake.body (SnakeGame.snake (game_of first_tick))) /\
  (exists h rest,
      Snake.body (SnakeGame.snake (game_of first_tick)) = h :: rest /\
      in_grid 4 h /\ ~ In h rest) /\
  (4 <= 4 ->
   Forall (in_grid 4) (Snake.body (SnakeGame.snake (game_of first_tick)))).
Proof.
  apply (running_body_is_a_simple_path (game_of first_tick)
           first_game_reachable).
  reflexivity.
Defined.

Lemma fruit_is_off_the_body_witness :
  in_grid 4 (Fruit.position (SnakeGame.fruit (game_of first_tick))) /\
  (SnakeGame.status_of (game_of first_tick) <> SnakeGame.Won ->
   ~ In (Fruit.position (SnakeGame.fruit (game_of first_tick)))
        (Snake.body (SnakeGame.snake (game_of first_tick)))) /\
  (SnakeGame.status_of (game_of first_tick) = SnakeGame.Won ->
   Snake.head (SnakeGame.snake (game_of first_tick)) =
     Ret (Fruit.position (SnakeGame.fruit (game_of first_tick)))).
Proof.
  exact (fruit_is_off_the_body (game_of first_tick) first_game_reachable).
Defined.

Lemma two_turns_reverse_witness :
  Snake.direction
    (SnakeGame.snake (turn (-1, 0) (turn (0, -1) small_game))) = (-1, 0) /\
  Snake.head (SnakeGame.snake (fst reversed_game)) = Ret (1, 2) /\
  Snake.collided_with_self (SnakeGame.snake (fst reversed_game))
    = Ret true /\
  SnakeGame.status_of (fst reversed_game) = SnakeGame.Died.
Proof.
  apply (two_turns_reverse small_game (fst reversed_game) (0, -1) (2, 2)
           (1, 2) [ (0, 2) ] [] (snd reversed_game)).
  - reflexivity.
  - reflexivity.
  - left. discriminate.
  - discriminate.
  - discriminate.
  - discriminate.
  - reflexivity.
  - reflexivity.
Defined.

Lemma step_never_turns_back_witness :
  Snake.direction (SnakeGame.snake (game_of refused_tick)) <>
    opposite (Snake.direction (SnakeGame.snake small_game)) /\
  Snake.head (SnakeGame.snake (game_of refused_tick)) =
    Ret (2 + fst (Snake.direction (SnakeGame.snake (game_of refused_tick))),
         2 + snd (Snake.direction (SnakeGame.snake (game_of refused_tick))))
  /\
  Snake.head (SnakeGame.snake (game_of refused_tick)) <> Ret (1, 2).
Proof.
  apply (step_never_turns_back [ (0, 0) ] (draws_of refused_tick) 2
           small_game (game_of refused_tick) (snd refused_tick)
           (2, 2) (1, 2) [ (0, 2) ] small_game_stepped);
    reflexivity.
Defined.

Lemma observation_shows_the_board_witness :
  exists obs,
    SnakeGame.get_state small_game = Ret obs /\
    forall x y,
      0 <= x < 4 ->
      0 <= y < 4 ->
      (nth (Z.to_nat (x * 4 + y)) obs 0%Q = 2%Q <-> (x, y) = (3, 2)) /\
      (nth (Z.to_nat (x * 4 + y)) obs 0%Q = 1%Q <->
       In (x, y) [ (2, 2); (1, 2); (0, 2) ]) /\
      (nth (Z.to_nat (x * 4 + y)) obs 0%Q = 0%Q <->
       (x, y) <> (3, 2) /\ ~ In (x, y) [ (2, 2); (1, 2); (0, 2) ]).
Proof.
  apply (observation_shows_the_board small_game small_game_reachable).
  vm_compute. discriminate.
Defined.

Lemma observation_shows_the_direction_witness :
  exists i,
    (i < 4)%nat /\
    nth_error ACTIONS i = Some (1, 0) /\
    dict_get dir_map (1, 0) 7%nat = i /\
    forall j,
      (j < 4)%nat ->
      nth (16 + j) (obs_of first_tick) 0%Q
      = if (j =? i)%nat then 1%Q else 0%Q.
Proof.
  apply (observation_shows_the_direction (game_of first_tick)
           (obs_of first_tick) first_game_reachable).
  reflexivity.
Defined.

Lemma observation_locates_the_fruit_witness :
  exists hx hy,
    Snake.head (SnakeGame.snake (game_of first_tick)) = Ret (hx, hy) /\
    ((-1 <= nth 20 (obs_of first_tick) 0 /\
      nth 20 (obs_of first_tick) 0 <= 1)%Q /\
     (hx <= 0 -> (0 <= nth 20 (obs_of first_tick) 0)%Q) /\
     (0 <= hx -> (nth 20 (obs_of first_tick) 0 <= 0)%Q) /\
     ((0 < nth 20 (obs_of first_tick) 0)%Q -> hx < 0) /\
     ((nth 20 (obs_of first_tick) 0 < 0)%Q -> 0 < hx) /\
     ((0 < 1 / inject_Z (4 - 1))%Q -> hx < 0 ->
      (0 < nth 20 (obs_of first_tick) 0)%Q) /\
     ((- (1 / inject_Z (4 - 1)) < 0)%Q -> 0 < hx ->
      (nth 20 (obs_of first_tick) 0 < 0)%Q)) /\
    ((-1 <= nth 21 (obs_of first_tick) 0 /\
      nth 21 (obs_of first_tick) 0 <= 1)%Q /\
     (hy <= 0 -> (0 <= nth 21 (obs_of first_tick) 0)%Q) /\
     (0 <= hy -> (nth 21 (obs_of first_tick) 0 <= 0)%Q) /\
     ((0 < nth 21 (obs_of first_tick) 0)%Q -> hy < 0) /\
     ((nth 21 (obs_of first_tick) 0 < 0)%Q -> 0 < hy) /\
     ((0 < 1 / inject_Z (4 - 1))%Q -> hy < 0 ->
      (0 < nth 21 (obs_of first_tick) 0)%Q) /\
     ((- (1 / inject_Z (4 - 1)) < 0)%Q -> 0 < hy ->
      (nth 21 (obs_of first_tick) 0 < 0)%Q)).
Proof.
  destruct (observation_locates_the_fruit (game_of first_tick)
              (obs_of first_tick) first_game_reachable eq_refl eq_refl)
    as (hx & hy & Hh & Hr).
  exists hx, hy. split; [exact Hh|].
  apply (Hr (fun q => q)).
  - intros a b H. exact H.
  - reflexivity.
  - reflexivity.
  - reflexivity.
Defined.

Lemma tick_draws_only_for_the_fruit_witness :
  (SnakeGame.fruit (game_of first_tick) = SnakeGame.fruit small_game /\
   draws_of first_tick = [ (0, 0) ]) \/
  (exists rejected,
      [ (0, 0) ] =
        rejected ++ Fruit.position (SnakeGame.fruit (game_of first_tick))
                 :: draws_of first_tick /\
      Forall (fun q => In q (Snake.body (SnakeGame.snake (game_of first_tick))))
             rejected /\
      ~ In (Fruit.position (SnakeGame.fruit (game_of first_tick)))
           (Snake.body (SnakeGame.snake (game_of first_tick))) /\
      Snake.head (SnakeGame.snake (game_of first_tick)) =
        Ret (Fruit.position (SnakeGame.fruit small_game)) /\
      Fruit.position (SnakeGame.fruit (game_of first_tick)) <>
        Fruit.position (SnakeGame.fruit small_game) /\
      SnakeGame.score (game_of first_tick) = SnakeGame.score small_game + 1).
Proof.
  apply (tick_draws_only_for_the_fruit [ (0, 0) ] (draws_of first_tick) 3
           small_game (game_of first_tick) (snd first_tick)).
  reflexivity.
Defined.

Lemma episode_stops_with_the_game_witness :
  0 <= snd short_episode <= Z.max 0 10 /\
  (SnakeGame.running (fst (fst short_episode)) = true ->
   snd short_episode = Z.max 0 10) /\
  (snd short_episode < 10 ->
   SnakeGame.running (fst (fst short_episode)) = false) /\
  0 <= SnakeGame.score (fst (fst short_episode)) <= snd short_episode /\
  SnakeGame.grid_size (fst (fst short_episode)) = 4 /\
  reachable (fst (fst short_episode)).
Proof.
  apply (proj2 (episode_stops_with_the_game always_right 4 32 10
                  [ (3, 2); (0, 0) ]
                  ltac:(repeat (constructor;
                                [unfold in_grid; cbn; lia|]);
                        constructor))
               (fst (fst short_episode)) (snd (fst short_episode))
               (snd short_episode)).
  reflexivity.
Defined.

Lemma evaluation_tally_witness :
  length (fst (fst (fst short_evaluation))) = 2%nat /\
  length (snd (fst (fst short_evaluation))) = 2%nat /\
  Forall2 (fun s t => 0 <= s <= t /\ t <= Z.max 0 10 /\ s <= 4 * 4 - 3)
          (fst (fst (fst short_evaluation)))
          (snd (fst (fst short_evaluation))) /\
  snd (fst short_evaluation) =
    Z.of_nat (count_occ Z.eq_dec (fst (fst (fst short_evaluation)))
                        (4 * 4 - 3)) /\
  0 <= snd (fst short_evaluation) <= Z.of_nat 2.
Proof.
  apply (evaluation_tally always_right 4 32 10 2
           [ (3, 2); (0, 0); (1, 1) ] (snd short_evaluation)
           (fst (fst (fst short_evaluation)))
           (snd (fst (fst short_evaluation)))
           (snd (fst short_evaluation)));
    [|reflexivity].
  repeat (constructor; [unfold in_grid; cbn; lia|]). constructor.
Defined.

Lemma evaluation_raises_only_without_episodes_witness :
  Evaluate.evaluate_performance always_right 4 32 10 0 [] = Raise ValueError
  /\
  Evaluate.evaluate_performance always_right 4 32 10 (-3) []
    = Raise ValueError.
Proof.
  split.
  - apply (proj1 (evaluation_raises_only_without_episodes always_right
                    4 32 10 0 [] (fun state => eq_refl) (Forall_nil _))).
    lia.
  - apply (proj1 (evaluation_raises_only_without_episodes always_right
                    4 32 10 (-3) [] (fun state => eq_refl) (Forall_nil _))).
    lia.
Defined.

Lemma evaluation_statistics_witness :
  0 < 2 /\
  Z.of_nat (length (Evaluate.scores (fst short_results))) = 2 /\
  In (Evaluate.max_score (fst short_results))
     (Evaluate.scores (fst short_results)) /\
  In (Evaluate.min_score (fst short_results))
     (Evaluate.scores (fst short_results)) /\
  Forall (fun s => Evaluate.min_score (fst short_results) <= s
                   <= Evaluate.max_score (fst short_results))
         (Evaluate.scores (fst short_results)) /\
  (exists m,
      Evaluate.mean_score (fst short_results) = Some m /\
      (inject_Z (Evaluate.min_score (fst short_results)) <= m
       <= inject_Z (Evaluate.max_score (fst short_results)))%Q) /\
  0 <= Evaluate.min_score (fst short_results) /\
  Evaluate.max_score (fst short_results) <= 4 * 4 - 3 /\
  (0 <= Evaluate.win_rate (fst short_results) <= 1)%Q /\
  ((Evaluate.win_rate (fst short_results) == 1)%Q <->
   Forall (fun s => s = 4 * 4 - 3) (Evaluate.scores (fst short_results))).
Proof.
  apply (evaluation_statistics always_right 4 32 10 2
           [ (3, 2); (0, 0); (1, 1) ] (snd short_results)
           (fst short_results)); [|reflexivity].
  repeat (constructor; [unfold in_grid; cbn; lia|]). constructor.
Defined.

Lemma game_loop_never_raises_witness :
  (forall e,
      Main.main "human" None
        [ [ Main.KEYDOWN Main.K_UP; Main.MOVE_EVENT ]; [ Main.QUIT ] ]
        [ (0, 6) ] <> Raise e) /\
  (forall s rnd',
      Main.main "human" None
        [ [ Main.KEYDOWN Main.K_UP; Main.MOVE_EVENT ]; [ Main.QUIT ] ]
        [ (0, 6) ] = Ret (s, rnd') ->
      Main.running s = false /\ reachable (Main.game s) /\
      SnakeGame.grid_size (Main.game s) = 12).
Proof.
  apply (game_loop_never_raises "human" None
           [ [ Main.KEYDOWN Main.K_UP; Main.MOVE_EVENT ]; [ Main.QUIT ] ]
           [ (0, 6) ]).
  - intros model H. discriminate H.
  - constructor; [unfold in_grid; cbn; lia | constructor].
Defined.

Lemma unsteered_snake_hits_the_wall_witness :
  Snake.direction (SnakeGame.snake (Main.game (fst unsteered_end)))
    = (1, 0) /\
  0 <= SnakeGame.score (Main.game (fst unsteered_end)) <= 6 /\
  (6 <= 5 ->
   SnakeGame.status_of (Main.game (fst unsteered_end)) = SnakeGame.Running /\
   Snake.head (SnakeGame.snake (Main.game (fst unsteered_end)))
     = Ret (6 + 6, 6)) /\
  (6 <= 6 ->
   SnakeGame.status_of (Main.game (fst unsteered_end)) = SnakeGame.Died /\
   Snake.head (SnakeGame.snake (Main.game (fst unsteered_end)))
     = Ret (12, 6)).
Proof.
  apply (unsteered_snake_hits_the_wall six_ticks [ (0, 0) ]
           (snd unsteered_start) (snd unsteered_end)
           (fst unsteered_start) (fst unsteered_end)).
  - reflexivity.
  - reflexivity.
  - intros H. cbn in H. intuition discriminate.
Defined.

Lemma training_ends_when_every_game_is_done_witness :
  Forall (fun c => Train.NUM_EPISODES <= c) (Train.episode_counts trained) /\
  exists k,
    (k <= 2)%nat /\
    Train.step_count trained = 0 + Train.NUM_ENVS * Z.of_nat k /\
    Forall2 (fun c c' => c <= c' <= c + Z.of_nat k)
            (Train.episode_counts nearly_done)
            (Train.episode_counts trained) /\
    Forall (fun c => Train.NUM_EPISODES - c <= Z.of_nat k)
           (Train.episode_counts nearly_done).
Proof.
  apply (training_ends_when_every_game_is_done toy_backward S
           [ closing_tick; idle_tick ] nearly_done trained).
  - discriminate.
  - reflexivity.
Defined.

Lemma optimizer_steps_every_second_batch_witness :
  (Train.accum_step sampled_once = 0 \/ Train.accum_step sampled_once = 1) /\
  Train.accum_step sampled_once =
    (0 + (samples (Train.log sampled_once) - samples []))
      mod Train.GRAD_ACCUM_STEPS.
Proof.
  apply (proj2 (optimizer_steps_every_second_batch toy_backward S
                  (Train.init 0%nat) (or_introl eq_refl))
               [ full_tick; full_tick ] sampled_once).
  reflexivity.
Defined.

Lemma main_lookup_fails_on_a_stray_file_witness :
  (exists e,
      Files.main_get_latest_checkpoint decimal slash_join "checkpoints"
                                       stray_listing = Raise e /\
      (e = IndexError \/ e = ValueError)) /\
  ((forall g, In g stray_listing -> endswith g ".pth" = true ->
              contains "_ep" g = true ->
              exists n, Files.episode_of decimal g = Ret n) ->
   Files.main_get_latest_checkpoint decimal slash_join "checkpoints"
                                    stray_listing = Raise IndexError).
Proof.
  apply (main_lookup_fails_on_a_stray_file decimal slash_join "checkpoints"
           "model.pth" stray_listing).
  - right. left. reflexivity.
  - reflexivity.
  - reflexivity.
Defined.
